(** * GraphMaker: the annotation scanner, the graph model, the resolver and
    the renderer of [build/scripts/GraphMaker.py], as a shallow embedding.

    Python strings are modelled by [string]; a character is a code point
    below 256.  A Python [dict] whose iteration order is observable (the
    registry [graphs]) is an association list that keeps first-insertion
    order; dictionaries that are only looked up are [gmap]s.  The module's
    global variables are the fields of one [state] record that every
    processing function takes and returns.  Printing is not modelled beyond
    the counters it updates. *)

From Stdlib Require Import Ascii DecimalString DecimalNat Permutation.
From stdpp Require Import base option list strings gmap sorting.

(** ** Python string primitives *)

Module PyStr.

(** [str.isspace] on one character, which is also what [\s] of [re]
    matches on a [str] pattern. *)
Definition isspace (c : ascii) : bool :=
  match c with
  | "009" | "010" | "011" | "012" | "013"
  | "028" | "029" | "030" | "031" | " " | "133" | "160" => true
  | _ => false
  end%char.

Fixpoint lstrip (s : string) : string :=
  match s with
  | EmptyString => EmptyString
  | String c s' => if isspace c then lstrip s' else s
  end.

Fixpoint rstrip (s : string) : string :=
  match s with
  | EmptyString => EmptyString
  | String c s' =>
      match rstrip s' with
      | EmptyString => if isspace c then EmptyString else String c EmptyString
      | r => String c r
      end
  end.

(** [s.strip()] *)
Definition strip (s : string) : string := rstrip (lstrip s).

Fixpoint drop (n : nat) (s : string) : string :=
  match n, s with
  | S k, String _ s' => drop k s'
  | _, _ => s
  end.

(** [s[:n]] *)
Fixpoint take (n : nat) (s : string) : string :=
  match n, s with
  | S k, String c s' => String c (take k s')
  | _, _ => EmptyString
  end.

(** [s.find(sub)]; [None] stands for the result -1. *)
Fixpoint find (sub s : string) : option nat :=
  if String.prefix sub s then Some 0
  else match s with
       | EmptyString => None
       | String _ s' => S <$> find sub s'
       end.

(** [s.replace(old, '', 1)] *)
Fixpoint remove_first (old s : string) : string :=
  if String.prefix old s then drop (String.length old) s
  else match s with
       | EmptyString => EmptyString
       | String c s' => String c (remove_first old s')
       end.

(** The scan of [s.replace(old, '')] for a non-empty [old]: [skip] counts
    the characters of a match that are still to be dropped. *)
Fixpoint remove_all_go (old : string) (skip : nat) (s : string) : string :=
  match s with
  | EmptyString => EmptyString
  | String c s' =>
      match skip with
      | S k => remove_all_go old k s'
      | O =>
          if String.prefix old s
          then remove_all_go old (String.length old - 1) s'
          else String c (remove_all_go old 0 s')
      end
  end.

(** [s.replace(old, '')]: with an empty [old] Python inserts the (empty)
    replacement between the characters, which gives [s] back. *)
Definition remove_all (old s : string) : string :=
  match old with
  | EmptyString => s
  | _ => remove_all_go old 0 s
  end.

Fixpoint contains_char (c : ascii) (s : string) : bool :=
  match s with
  | EmptyString => false
  | String d s' => if Ascii.eqb c d then true else contains_char c s'
  end.

(** [str(n)] for a non-negative integer. *)
Definition str_of_nat (n : nat) : string :=
  NilZero.string_of_uint (Nat.to_uint n).

(** The format [{n:02}]: decimal, padded with zeros to width two. *)
Definition format_02 (n : nat) : string :=
  let s := str_of_nat n in
  if String.length s <? 2 then "0" +:+ s else s.

End PyStr.

Import PyStr.

(** ** Constants *)

Definition dq : string := String "034"%char EmptyString.
Definition nl : string := String "010"%char EmptyString.

Definition GRAPHTAG : string := "@@graph".

(** Pairs of a starting and a terminating comment delimiter; an empty
    terminating delimiter marks a single-line comment. *)
Definition COMMENT_DELIMITERS : list (string * string) :=
  [("/*", "*/"); ("//", ""); ("#", "")].

Definition COMMAND_DATA : string := "data".
Definition COMMAND_DEFINITION : string := "definition".
Definition COMMAND_DEFAULT : string := COMMAND_DATA.
Definition GRAPHTYPE_CODE : string := "code".
Definition GRAPHTYPE_WORKFLOW : string := "workflow".
Definition DATATYPE_NODE : string := "node".
Definition DATATYPE_EDGE : string := "edge".
Definition EDGETYPE_DEFAULT : string := "normal".
Definition OUTPUT_FILE_SUFFIX_GRAPHVIZ : string := "_graphviz.txt".

Definition DEFAULT_NODE_SETTINGS : string :=
  "shape=box,pencolor=blue,fillcolor=white,color=blue,fontsize=12,fontcolor=black,style=solid,newrank=false,rankdir="
  +:+ dq +:+ "TB" +:+ dq.
Definition DEFAULT_EDGE_SETTINGS : string := "color=black,pencolor=black".

Definition GraphVizNodeTypes : gmap string string :=
  list_to_map
    ((λ k, (k, DEFAULT_NODE_SETTINGS)) <$>
       ["class"; "function"; "member"; "property"; "variable"; "constant";
        "event"; "eventhandler"; "state"]).

Definition GraphVizEdgeTypes : gmap string string :=
  list_to_map [("normal", ""); ("transition", "")].

(** ** The graph model *)

Record Node := mkNode {
  node_id : string;
  node_name : string;
  node_type : string;
  group : string
}.

Record Edge := mkEdge {
  from_node_name : string;
  to_node_name : string;
  label : string;
  edge_type : string;
  from_node_id : string;
  to_node_id : string
}.

(** [Edge.__init__]: the node ids are left empty. *)
Definition new_Edge (fromnodename tonodename label edgetype : string) : Edge :=
  mkEdge fromnodename tonodename label edgetype "" "".

Definition set_from_node_id (new_id : string) (e : Edge) : Edge :=
  mkEdge (from_node_name e) (to_node_name e) (label e) (edge_type e)
         new_id (to_node_id e).

Definition set_to_node_id (new_id : string) (e : Edge) : Edge :=
  mkEdge (from_node_name e) (to_node_name e) (label e) (edge_type e)
         (from_node_id e) new_id.

Record Graph := mkGraph {
  graph_type : string;
  graph_id : string;
  title : string;
  description : string;
  filename_suffix : string;
  groups : list string;
  group_nodes : gmap string (list nat);
  nodes : list Node;
  edges : list Edge;
  node_name_to_id_map : gmap string string
}.

(** [Graph.__init__] *)
Definition new_Graph (graphtype graphid title description filenamesuffix : string)
  : Graph :=
  mkGraph graphtype graphid title description filenamesuffix [] ∅ [] [] ∅.

Definition get_num_nodes (g : Graph) : nat := length (nodes g).
Definition get_num_edges (g : Graph) : nat := length (edges g).

(** [Graph.add_node], on arguments of the declared type [str]: with them no
    step of the method raises, so the update happens as a whole. *)
Definition add_node (nodeid nodename nodetype group : string) (g : Graph) : Graph :=
  let new_node := mkNode nodeid nodename nodetype group in
  let node_index := length (nodes g) in
  let nodes' := nodes g ++ [new_node] in
  let map' :=
    if decide (nodeid ≠ "") then <[nodename := nodeid]> (node_name_to_id_map g)
    else node_name_to_id_map g in
  if decide (group ≠ "") then
    let groups' :=
      if decide (group ∈ groups g) then groups g else groups g ++ [group] in
    let group_nodes' :=
      match group_nodes g !! group with
      | Some l => <[group := l ++ [node_index]]> (group_nodes g)
      | None => <[group := [node_index]]> (group_nodes g)
      end in
    mkGraph (graph_type g) (graph_id g) (title g) (description g)
            (filename_suffix g) groups' group_nodes' nodes' (edges g) map'
  else
    mkGraph (graph_type g) (graph_id g) (title g) (description g)
            (filename_suffix g) (groups g) (group_nodes g) nodes' (edges g) map'.

(** [Graph.add_edge] *)
Definition add_edge (fromnodename tonodename label edgetype : string) (g : Graph)
  : Graph :=
  mkGraph (graph_type g) (graph_id g) (title g) (description g)
          (filename_suffix g) (groups g) (group_nodes g) (nodes g)
          (edges g ++ [new_Edge fromnodename tonodename label edgetype])
          (node_name_to_id_map g).

Definition set_edges (es : list Edge) (g : Graph) : Graph :=
  mkGraph (graph_type g) (graph_id g) (title g) (description g)
          (filename_suffix g) (groups g) (group_nodes g) (nodes g) es
          (node_name_to_id_map g).

(** One pass of the body of the loop of [Graph.resolve_edge_node_ids] over
    an edge: the edge after it, and the number of error messages written. *)
Definition resolve_edge (m : gmap string string) (e : Edge) : Edge * nat :=
  let '(e1, n1) :=
    if decide (from_node_id e = "") then
      match m !! from_node_name e with
      | Some i => (set_from_node_id i e, 0)
      | None => (e, 1)
      end
    else (e, 0) in
  let '(e2, n2) :=
    if decide (to_node_id e1 = "") then
      match m !! to_node_name e1 with
      | Some i => (set_to_node_id i e1, 0)
      | None => (e1, 1)
      end
    else (e1, 0) in
  (e2, n1 + n2).

(** The loop [for index in range(0, len(self.edges))], which visits every
    edge once, in insertion order. *)
Fixpoint resolve_edges (m : gmap string string) (es : list Edge)
  : list Edge * nat :=
  match es with
  | [] => ([], 0)
  | e :: es' =>
      let '(e', n) := resolve_edge m e in
      let '(es'', n') := resolve_edges m es' in
      (e' :: es'', n + n')
  end.

(** [Graph.resolve_edge_node_ids]: the graph after it and the number of
    calls of [write_error_msg]. *)
Definition resolve_edge_node_ids (g : Graph) : Graph * nat :=
  let '(es, n) := resolve_edges (node_name_to_id_map g) (edges g) in
  (set_edges es g, n).

(** ** The renderer *)

(** Code that writes to an open file and may raise: the strings written so
    far, and the result, which is [None] once an exception was raised. *)
Definition writer (A : Type) : Type := (list string * option A)%type.

Definition w_bind {A B} (f : A → writer B) (m : writer A) : writer B :=
  match m with
  | (o, Some x) => let '(o', r) := f x in (o ++ o', r)
  | (o, None) => (o, None)
  end.

#[export] Instance writer_ret : MRet writer := λ A x, ([], Some x).
#[export] Instance writer_bind : MBind writer := λ A B f m, w_bind f m.

Definition write (s : string) : writer unit := ([s], Some tt).
Definition raise {A} : writer A := ([], None).
Definition written {A} (m : writer A) : list string := m.1.

Definition indent : string := "    ".
Definition indent2 : string := indent +:+ indent.

Definition node_attributes (node_type : string) : string :=
  match GraphVizNodeTypes !! node_type with
  | Some a => if decide (a ≠ "") then a +:+ "," else a
  | None => ""
  end.

Definition edge_attributes (edge_type : string) : string :=
  match GraphVizEdgeTypes !! edge_type with
  | Some a => if decide (a ≠ "") then a +:+ "," else a
  | None => ""
  end.

(** The node statement written for a node with a non-empty id. *)
Definition node_statement (ind : string) (node : Node) : string :=
  ind +:+ node_id node +:+ " [" +:+ node_attributes (node_type node)
  +:+ "label=" +:+ dq +:+ node_type node +:+ ":\n" +:+ node_name node
  +:+ dq +:+ "];" +:+ nl.

(** The invisible edge written inside a cluster. *)
Definition internal_edge_statement (last_node_id node_id : string) : string :=
  indent2 +:+ last_node_id +:+ " -> " +:+ node_id +:+ ";" +:+ nl.

Definition edge_statement (e : Edge) : string :=
  indent +:+ from_node_id e +:+ " -> " +:+ to_node_id e +:+ " ["
  +:+ edge_attributes (edge_type e) +:+ "label=" +:+ dq +:+ label e +:+ dq
  +:+ "];" +:+ nl.

(** The first loop over [self.group_nodes[group_name]]; a position outside
    [self.nodes] raises IndexError. *)
Fixpoint write_group_nodes (g : Graph) (positions : list nat) : writer unit :=
  match positions with
  | [] => mret ()
  | node_index :: rest =>
      match nodes g !! node_index with
      | None => raise
      | Some node =>
          (if decide (node_id node ≠ "")
           then write (node_statement indent2 node) else mret ());;
          write_group_nodes g rest
      end
  end.

(** The second loop, with its variables [last_node_id] and [counter]. *)
Fixpoint write_internal_edges (g : Graph) (positions : list nat)
    (last_node_id : string) (counter : nat) : writer unit :=
  match positions with
  | [] => mret ()
  | node_index :: rest =>
      match nodes g !! node_index with
      | None => raise
      | Some node =>
          if decide (node_id node ≠ "") then
            let counter := counter + 1 in
            if decide (counter = 1) then
              write_internal_edges g rest (node_id node) counter
            else
              write (internal_edge_statement last_node_id (node_id node));;
              write_internal_edges g rest (node_id node) counter
          else write_internal_edges g rest last_node_id counter
      end
  end.

Definition cluster_header (index : nat) (group_name : string) : list string :=
  [ nl;
    indent +:+ "subgraph cluster_" +:+ format_02 (index + 1) +:+ " {" +:+ nl;
    indent2 +:+ "// This is group " +:+ dq +:+ group_name +:+ dq +:+ nl;
    indent2 +:+ "color = lightgrey;" +:+ nl;
    indent2 +:+ "label = " +:+ dq +:+ group_name +:+ dq +:+ ";" +:+ nl;
    indent2 +:+ "color = black;" +:+ nl;
    indent2 +:+ "fontcolor = black;" +:+ nl;
    indent2 +:+ "node [" +:+ DEFAULT_NODE_SETTINGS +:+ "];" +:+ nl ].

Definition invis_edge_settings : string :=
  indent2 +:+ "edge [style=" +:+ dq +:+ "invis" +:+ dq +:+ "];" +:+ nl.

Definition cluster_footer : string := indent +:+ "}" +:+ nl.

(** The body of the loop over the groups; a group name without an entry in
    [self.group_nodes] raises KeyError. *)
Definition write_cluster (g : Graph) (index : nat) (group_name : string)
  : writer unit :=
  (cluster_header index group_name, Some ());;
  match group_nodes g !! group_name with
  | None => raise
  | Some positions =>
      write_group_nodes g positions;;
      write invis_edge_settings;;
      write_internal_edges g positions "" 0;;
      write cluster_footer
  end.

Fixpoint write_clusters (g : Graph) (index : nat) (names : list string)
  : writer unit :=
  match names with
  | [] => mret ()
  | group_name :: rest =>
      write_cluster g index group_name;; write_clusters g (S index) rest
  end.

Fixpoint write_flat_nodes (ns : list Node) : writer unit :=
  match ns with
  | [] => mret ()
  | node :: rest =>
      (if decide (node_id node ≠ "")
       then write (node_statement indent node) else mret ());;
      write_flat_nodes rest
  end.

Fixpoint write_edges (es : list Edge) : writer unit :=
  match es with
  | [] => mret ()
  | e :: rest =>
      (if decide (from_node_id e ≠ "" ∧ to_node_id e ≠ "")
       then write (edge_statement e) else mret ());;
      write_edges rest
  end.

Definition full_output_path (g : Graph) (output_path : string) : string :=
  output_path +:+ filename_suffix g +:+ OUTPUT_FILE_SUFFIX_GRAPHVIZ.

(** [Graph.generate_graph_output_graphviz]: what is written to the file
    [full_output_path g output_path] once it is open. *)
Definition generate_graph_output_graphviz (g : Graph) (output_path : string)
  : writer unit :=
  write ("// Graph file " +:+ dq +:+ full_output_path g output_path +:+ dq +:+ nl);;
  write ("digraph {" +:+ nl);;
  (if decide (0 < length (groups g))
   then write_clusters g 0 (groups g)
   else write (indent +:+ "node [" +:+ DEFAULT_NODE_SETTINGS +:+ "];" +:+ nl);;
        write_flat_nodes (nodes g));;
  write nl;;
  write (indent +:+ "edge [" +:+ DEFAULT_EDGE_SETTINGS +:+ "];" +:+ nl);;
  write_edges (edges g);;
  write nl;;
  write (indent +:+ "// Graph title" +:+ nl);;
  write (indent +:+ "labelloc = " +:+ dq +:+ "t" +:+ dq +:+ ";" +:+ nl);;
  write (indent +:+ "label = " +:+ dq +:+ title g +:+ dq +:+ ";" +:+ nl);;
  write ("}" +:+ nl).

(** ** The registry and the global state *)

(** A [dict] with string keys as Python iterates it: in the order of first
    insertion, an assignment to a key that is present keeping its place. *)
Section odict.
Context {V : Type}.

Fixpoint dict_get (k : string) (d : list (string * V)) : option V :=
  match d with
  | [] => None
  | (k', v) :: d' => if decide (k = k') then Some v else dict_get k d'
  end.

Fixpoint dict_set (k : string) (v : V) (d : list (string * V))
  : list (string * V) :=
  match d with
  | [] => [(k, v)]
  | (k', v') :: d' =>
      if decide (k = k') then (k, v) :: d' else (k', v') :: dict_set k v d'
  end.

Definition dict_keys (d : list (string * V)) : list string := d.*1.
End odict.

Record state := mkState {
  multiline_comment_active : bool;
  multiline_comment_terminator : string;
  graphtag_object_json : string;
  still_reading_graphtag_object : bool;
  num_errors : nat;
  num_warnings : nat;
  num_graphtags : nat;
  graphs : list (string * Graph)
}.

(** The values of the global variables when the module is loaded. *)
Definition initial_state : state := mkState false "" "" false 0 0 0 [].

Definition set_active (b : bool) (st : state) : state :=
  mkState b (multiline_comment_terminator st) (graphtag_object_json st)
          (still_reading_graphtag_object st) (num_errors st) (num_warnings st)
          (num_graphtags st) (graphs st).

Definition set_terminator (t : string) (st : state) : state :=
  mkState (multiline_comment_active st) t (graphtag_object_json st)
          (still_reading_graphtag_object st) (num_errors st) (num_warnings st)
          (num_graphtags st) (graphs st).

Definition set_json (j : string) (st : state) : state :=
  mkState (multiline_comment_active st) (multiline_comment_terminator st) j
          (still_reading_graphtag_object st) (num_errors st) (num_warnings st)
          (num_graphtags st) (graphs st).

Definition set_still_reading (b : bool) (st : state) : state :=
  mkState (multiline_comment_active st) (multiline_comment_terminator st)
          (graphtag_object_json st) b (num_errors st) (num_warnings st)
          (num_graphtags st) (graphs st).

Definition set_graphs (gs : list (string * Graph)) (st : state) : state :=
  mkState (multiline_comment_active st) (multiline_comment_terminator st)
          (graphtag_object_json st) (still_reading_graphtag_object st)
          (num_errors st) (num_warnings st) (num_graphtags st) gs.

(** [write_error_msg], called [n] times. *)
Definition add_errors (n : nat) (st : state) : state :=
  mkState (multiline_comment_active st) (multiline_comment_terminator st)
          (graphtag_object_json st) (still_reading_graphtag_object st)
          (num_errors st + n) (num_warnings st) (num_graphtags st) (graphs st).

Definition write_error_msg (st : state) : state := add_errors 1 st.

Definition count_graphtag (st : state) : state :=
  mkState (multiline_comment_active st) (multiline_comment_terminator st)
          (graphtag_object_json st) (still_reading_graphtag_object st)
          (num_errors st) (num_warnings st) (num_graphtags st + 1) (graphs st).

(** ** The resolver and [process_graphs] *)

(** The body of the first loop of [process_graphs] for the key [gkey]. *)
Definition resolve_graph (gkey : string) (st : state) : state :=
  match dict_get gkey (graphs st) with
  | Some g =>
      let '(g', n) := resolve_edge_node_ids g in
      add_errors n (set_graphs (dict_set gkey g' (graphs st)) st)
  | None => st
  end.

(** The first loop, over the keys [gkeys]. *)
Definition resolve_graphs (gkeys : list string) (st : state) : state :=
  foldl (λ st gkey, resolve_graph gkey st) st gkeys.

Section files.
(** Whether [open(path, 'w')] succeeds.  Writing to a file that is open is
    taken to succeed. *)
Variable can_open : string → bool.

(** The body of the second loop, with the [try] block of the renderer: when
    the file cannot be opened an error message is written and there is no
    file; else the file holds what was written, and an error message is
    written when the renderer raised. *)
Definition generate_graph (output_path : string) (gkey : string)
    (acc : state * list (string * list string))
  : state * list (string * list string) :=
  let '(st, files) := acc in
  match dict_get gkey (graphs st) with
  | Some g =>
      if can_open (full_output_path g output_path) then
        let out := generate_graph_output_graphviz g output_path in
        let file := (full_output_path g output_path, written out) in
        (match out.2 with Some _ => st | None => write_error_msg st end,
         files ++ [file])
      else (write_error_msg st, files)
  | None => acc
  end.

(** [process_graphs]: the final state and the files written, in order.  The
    names and the file name suffixes of the registry are strings, as they
    are after annotations that keep to the declared types; the lookups of
    the resolver and the concatenation of the path then do not raise. *)
Definition process_graphs (output_path : string) (st : state)
  : state * list (string * list string) :=
  let st := resolve_graphs (dict_keys (graphs st)) st in
  foldl (λ acc gkey, generate_graph output_path gkey acc) (st, [])
        (dict_keys (graphs st)).
End files.

(** ** Decoding an annotation: [process_json] *)

(** The exceptions raised inside the [try] block of [process_json]. *)
Inductive exn :=
| DecodeError
| UnknownCommand (command : string)
| MissingAttribute (name : string)
| UnknownAttributeValue (name value : string)
| UndefinedGraphId (graphid : string)
| InternalError.

Inductive result (A : Type) :=
| Ok (a : A)
| Raise (e : exn).
Arguments Ok {A} a.
Arguments Raise {A} e.

#[export] Instance result_ret : MRet result := λ A x, Ok x.
#[export] Instance result_bind : MBind result := λ A B f m,
  match m with
  | Ok x => f x
  | Raise e => Raise e
  end.

(** [if P: raise e] *)
Definition raise_if (P : Prop) `{Decision P} (e : exn) : result unit :=
  if decide P then Raise e else Ok ().

(** A decoded annotation whose values are strings: Python's [None] (for the
    text [null]) or a [dict] of [str].  The source declares the values it
    reads from the [dict] as [str] ([get_json_value(...) -> str]) and checks
    them no further; the model covers the annotations that keep to that
    declaration.  The decoder itself can return other values
    ([json_value] below): what the code does with them is outside the
    model, and a statement about a whole run says so by the hypothesis
    [annotations_typed]. *)
Definition json_object : Type := option (gmap string string).

Definition get_json_value (json_object : json_object) (keyvalue defvalue : string)
  : string :=
  match json_object with
  | None => defvalue
  | Some d =>
      if decide (keyvalue = "") then defvalue
      else match d !! keyvalue with
           | None => defvalue
           | Some v => v
           end
  end.

(** The loop of [process_json] that turns single quotation marks outside
    double quotation marks into double quotation marks. *)
Fixpoint sanitize_quotes (double_quotes_active : bool) (jchars : string) : string :=
  match jchars with
  | EmptyString => EmptyString
  | String c rest =>
      if Ascii.eqb c "034" then
        String c (sanitize_quotes (negb double_quotes_active) rest)
      else if Ascii.eqb c "'" then
        if negb double_quotes_active
        then String "034" (sanitize_quotes double_quotes_active rest)
        else String c (sanitize_quotes double_quotes_active rest)
      else String c (sanitize_quotes double_quotes_active rest)
  end.

(** The branch [command == COMMAND_DEFINITION]. *)
Definition process_definition (graphs : list (string * Graph)) (o : json_object)
  : result (list (string * Graph)) :=
  let graphtype := get_json_value o "graphtype" "" in
  raise_if (graphtype = "") (MissingAttribute "graphtype");;
  raise_if (graphtype ≠ GRAPHTYPE_CODE ∧ graphtype ≠ GRAPHTYPE_WORKFLOW)
           (UnknownAttributeValue "graphtype" graphtype);;
  let graphid := get_json_value o "graphid" "" in
  raise_if (graphid = "") (MissingAttribute "graphid");;
  let title := get_json_value o "title" "" in
  raise_if (title = "") (MissingAttribute "title");;
  let description := get_json_value o "description" "" in
  raise_if (description = "") (MissingAttribute "description");;
  let filenamesuffix := get_json_value o "filenamesuffix" "" in
  raise_if (filenamesuffix = "") (MissingAttribute "filenamesuffix");;
  let new_graph := new_Graph graphtype graphid title description filenamesuffix in
  mret (dict_set graphid new_graph graphs).

(** The branch [datatype == DATATYPE_NODE], on an annotation whose values
    are strings.  With a value that is no string (a group that is a list)
    [add_node] can raise after a part of its update; that is outside the
    model, see [typed_annotation]. *)
Definition process_node (graphs : list (string * Graph)) (graphid : string)
    (g : Graph) (o : json_object) : result (list (string * Graph)) :=
  let nodename := get_json_value o "nodename" "" in
  raise_if (nodename = "") (MissingAttribute "nodename");;
  let nodetype := get_json_value o "nodetype" "" in
  raise_if (nodetype = "") (MissingAttribute "nodetype");;
  raise_if (GraphVizNodeTypes !! nodetype = None)
           (UnknownAttributeValue "nodetype" nodetype);;
  let group := get_json_value o "group" "" in
  let num := get_num_nodes g + 1 in
  let nodeid := "n" +:+ format_02 num in
  mret (dict_set graphid (add_node nodeid nodename nodetype group g) graphs).

(** The branch [datatype == DATATYPE_EDGE]. *)
Definition process_edge (graphs : list (string * Graph)) (graphid : string)
    (g : Graph) (o : json_object) : result (list (string * Graph)) :=
  let fromnodename := get_json_value o "fromnodename" "" in
  raise_if (fromnodename = "") (MissingAttribute "fromnodename");;
  let tonodename := get_json_value o "tonodename" "" in
  raise_if (tonodename = "") (MissingAttribute "tonodename");;
  let edgetype := get_json_value o "edgetype" "" in
  edgetype ←
    (if decide (edgetype = "") then Ok EDGETYPE_DEFAULT
     else if decide (GraphVizEdgeTypes !! edgetype = None)
          then Raise (UnknownAttributeValue "edgetype" edgetype)
          else Ok edgetype);
  let label := get_json_value o "label" "" in
  mret (dict_set graphid (add_edge fromnodename tonodename label edgetype g) graphs).

(** The branch [command == COMMAND_DATA]. *)
Definition process_data (graphs : list (string * Graph)) (o : json_object)
  : result (list (string * Graph)) :=
  let graphid := get_json_value o "graphid" "" in
  raise_if (graphid = "") (MissingAttribute "graphid");;
  match dict_get graphid graphs with
  | None => Raise (UndefinedGraphId graphid)
  | Some g =>
      let datatype := get_json_value o "datatype" "" in
      raise_if (datatype = "") (MissingAttribute "datatype");;
      raise_if (datatype ≠ DATATYPE_NODE ∧ datatype ≠ DATATYPE_EDGE)
               (UnknownAttributeValue "datatype" datatype);;
      if decide (datatype = DATATYPE_NODE) then process_node graphs graphid g o
      else if decide (datatype = DATATYPE_EDGE) then process_edge graphs graphid g o
      else Raise InternalError
  end.

(** The validation and the update of the registry, after decoding. *)
Definition process_json_object (graphs : list (string * Graph)) (o : json_object)
  : result (list (string * Graph)) :=
  let command := get_json_value o "command" "" in
  let command := if decide (command = "") then COMMAND_DEFAULT else command in
  raise_if (command ≠ COMMAND_DATA ∧ command ≠ COMMAND_DEFINITION)
           (UnknownCommand command);;
  if decide (command = COMMAND_DEFINITION) then process_definition graphs o
  else if decide (command = COMMAND_DATA) then process_data graphs o
  else mret graphs.

Section process.
(** [json.JSONDecoder().decode], of Python's library, on the texts that it
    decodes to [None] or to a [dict] of [str]; [None] when it raises. *)
Variable decode : string → option json_object.

(** The [try] block of [process_json]. *)
Definition process_json_try (graphs : list (string * Graph)) (inputjson : string)
  : result (list (string * Graph)) :=
  let inputjson2 := sanitize_quotes false inputjson in
  match decode inputjson2 with
  | None => Raise DecodeError
  | Some o => process_json_object graphs o
  end.

(** [process_json], on a text that the decoder raises on or decodes to
    [None] or to a [dict] of [str] (see [typed_annotation]): the registry
    after an exception is then the registry before the call. *)
Definition process_json (inputjson : string) (st : state) : state :=
  let st := count_graphtag st in
  match process_json_try (graphs st) inputjson with
  | Ok graphs' => set_graphs graphs' st
  | Raise _ => write_error_msg st
  end.
End process.

(** ** The values of the decoder *)

(** What [json.JSONDecoder().decode] returns: [None], a [bool], a number, a
    [str], a [list] or a [dict], the members of a [dict] in the order of the
    text.  A number is kept as the text of its literal: the model never
    looks into a number. *)
#[warnings="-register-all"] Inductive json_value :=
| JNull
| JBool (b : bool)
| JNumber (literal : string)
| JString (s : string)
| JArray (items : list json_value)
| JObject (members : list (string * json_value)).

Definition as_string (v : json_value) : option string :=
  match v with
  | JString s => Some s
  | _ => None
  end.

(** The annotation of a decoded value that is [None] or a [dict] whose
    values are all [str]; of the members with one key the [dict] holds the
    last. *)
Definition record_of (v : json_value) : option json_object :=
  match v with
  | JNull => Some None
  | JObject members =>
      let d : gmap string json_value := list_to_map (reverse members) in
      if decide (map_Forall (λ _ value, is_Some (as_string value)) d)
      then Some (Some (omap as_string d)) else None
  | _ => None
  end.

(** The decoder of the model, from Python's decoder [loads] ([None] where
    it raises). *)
Definition record_decoder (loads : string → option json_value)
  : string → option json_object :=
  λ s, loads s ≫= record_of.

(** The annotation [inputjson] keeps to the declared types: the decoder
    raises on its sanitized text or returns [None] or a [dict] of [str]. *)
Definition typed_annotation (loads : string → option json_value)
    (inputjson : string) : Prop :=
  match loads (sanitize_quotes false inputjson) with
  | Some v => is_Some (record_of v)
  | None => True
  end.

(** ** The scanner: [process_line] *)

(** The loop over [COMMENT_DELIMITERS] with its [break]: the first pair whose
    starting delimiter is found at position 0. *)
Fixpoint match_comment_start (delims : list (string * string)) (line : string)
  : option (string * string) :=
  match delims with
  | [] => None
  | delim_pair :: rest =>
      if decide (find delim_pair.1 line = Some 0) then Some delim_pair
      else match_comment_start rest line
  end.

(** [re.search] of [^\s*[*]?\s*@@graph] followed by [re.sub] of the match
    with the empty string: the text after the match, if there is one. *)
Definition graphtag_regex (s : string) : option string :=
  let s1 := lstrip s in
  let s2 := match s1 with
            | String "*" r => r
            | _ => s1
            end in
  let s3 := lstrip s2 in
  if String.prefix GRAPHTAG s3 then Some (drop (String.length GRAPHTAG) s3)
  else None.

(** [re.search] of the pattern "closing brace, then characters other than
    the double quotation mark up to the end", followed by [re.sub] of the
    match with a closing brace: the text up to and including the first
    closing brace that no double quotation mark follows; [None] when the
    search finds nothing. *)
Fixpoint close_brace (s : string) : option string :=
  match s with
  | EmptyString => None
  | String c s' =>
      if Ascii.eqb c "}" && negb (contains_char "034" s')
      then Some (String c EmptyString)
      else String c <$> close_brace s'
  end.

(** How the first part of [process_line] ends: with a [return], or by
    reaching the test of the accumulator with the local [is_graphtag_line]. *)
Inductive scan_result :=
| Returned (st : state)
| Scanned (st : state) (is_graphtag_line : bool).

Definition append_json (fragment : string) (st : state) : state :=
  set_json (graphtag_object_json st +:+ fragment) st.

(** The branch [if is_comment_line], entered with the line stripped of its
    starting delimiter and [multiline_comment_terminator] already set. *)
Definition scan_comment_line (bare_inputline : string) (st : state) : scan_result :=
  let is_graphtag_line := bool_decide (find GRAPHTAG bare_inputline = Some 0) in
  let bare_inputline :=
    if is_graphtag_line then strip (remove_first GRAPHTAG bare_inputline)
    else bare_inputline in
  if decide (multiline_comment_terminator st = "") then
    if is_graphtag_line then Scanned (set_json bare_inputline st) is_graphtag_line
    else if still_reading_graphtag_object st
         then Scanned (append_json bare_inputline st) is_graphtag_line
         else Returned st
  else
    match find (multiline_comment_terminator st) bare_inputline with
    | Some _ =>
        let bare_inputline :=
          strip (remove_all (multiline_comment_terminator st) bare_inputline) in
        if is_graphtag_line then Scanned (set_json bare_inputline st) is_graphtag_line
        else if still_reading_graphtag_object st
             then Scanned (append_json bare_inputline st) is_graphtag_line
             else Scanned st is_graphtag_line
    | None =>
        let st := set_active true st in
        if still_reading_graphtag_object st
        then Scanned (append_json bare_inputline st) is_graphtag_line
        else if is_graphtag_line
             then Scanned (set_json bare_inputline st) is_graphtag_line
             else Returned st
    end.

(** The branch [if multiline_comment_active] of a line that starts no
    comment. *)
Definition scan_open_comment (bare_inputline : string) (st : state) : scan_result :=
  match find (multiline_comment_terminator st) bare_inputline with
  | Some _ =>
      let st := set_active false st in
      let bare_inputline :=
        strip (remove_all (multiline_comment_terminator st) bare_inputline) in
      if still_reading_graphtag_object st
      then Scanned (append_json bare_inputline st) false
      else Returned st
  | None =>
      if still_reading_graphtag_object st
      then Scanned (append_json bare_inputline st) false
      else match graphtag_regex bare_inputline with
           | Some rest => Scanned (set_json (strip rest) st) true
           | None => Returned st
           end
  end.

(** [process_line] up to the test [if graphtag_object_json == '']. *)
Definition scan_line (inputline : string) (st : state) : scan_result :=
  let bare_inputline := strip inputline in
  if decide (bare_inputline = "") then Returned st
  else
    match match_comment_start COMMENT_DELIMITERS bare_inputline with
    | Some (start_delim, end_delim) =>
        let bare_inputline := strip (remove_first start_delim bare_inputline) in
        scan_comment_line bare_inputline (set_terminator end_delim st)
    | None =>
        if multiline_comment_active st then scan_open_comment bare_inputline st
        else Returned st
    end.

(** The text that [process_line] gives to [process_json] on a line, when it
    gives one: the accumulator cut after its closing brace, trimmed. *)
Definition handed_json (inputline : string) (st : state) : option string :=
  match scan_line inputline st with
  | Returned _ => None
  | Scanned st' _ =>
      if decide (graphtag_object_json st' = "") then None
      else strip <$> close_brace (graphtag_object_json st')
  end.

Section scanner.
Variable decode : string → option json_object.

(** [process_line] from the test [if graphtag_object_json == ''] on. *)
Definition assemble (is_graphtag_line : bool) (st : state) : state :=
  if decide (graphtag_object_json st = "") then
    if is_graphtag_line then set_still_reading true st else st
  else
    match close_brace (graphtag_object_json st) with
    | None => set_still_reading true st
    | Some closed =>
        let st := set_json (strip closed) st in
        let st := set_still_reading false st in
        let st := process_json decode (graphtag_object_json st) st in
        set_json "" st
    end.

(** [process_line] *)
Definition process_line (inputline : string) (st : state) : state :=
  match scan_line inputline st with
  | Returned st' => st'
  | Scanned st' is_graphtag_line => assemble is_graphtag_line st'
  end.

(** The loop of [main] over the lines of the input. *)
Definition process_lines (inputlines : list string) (st : state) : state :=
  foldl (λ st inputline, process_line inputline st) st inputlines.

(** The texts that [process_line] gives to [process_json] along the lines
    [inputlines], in order. *)
Fixpoint handed_jsons (inputlines : list string) (st : state) : list string :=
  match inputlines with
  | [] => []
  | inputline :: rest =>
      option_list (handed_json inputline st)
      ++ handed_jsons rest (process_line inputline st)
  end.
End scanner.

(** Every annotation that [process_json] is given along the lines keeps to
    the declared types. *)
Definition annotations_typed (loads : string → option json_value)
    (inputlines : list string) : Prop :=
  Forall (typed_annotation loads)
         (handed_jsons (record_decoder loads) inputlines initial_state).

(** ** A decoder for the annotation language

    [json.JSONDecoder().decode] on the texts of the annotation language: an
    object whose values are strings, or [null].  Strings are scanned as the
    library does in strict mode; an escape [\uXXXX] is decoded when its code
    point is below 256.  [None] stands for a raised exception and also for
    every text outside this language. *)
Module Json.

Definition is_ws (c : ascii) : bool :=
  match c with
  | " " | "009" | "010" | "013" => true
  | _ => false
  end%char.

Fixpoint skip_ws (s : string) : string :=
  match s with
  | EmptyString => EmptyString
  | String c s' => if is_ws c then skip_ws s' else s
  end.

Definition hex_digit (c : ascii) : option nat :=
  let n := nat_of_ascii c in
  if (48 <=? n) && (n <=? 57) then Some (n - 48)
  else if (65 <=? n) && (n <=? 70) then Some (n - 55)
  else if (97 <=? n) && (n <=? 102) then Some (n - 87)
  else None.

Definition hex4 (a b c d : ascii) : option nat :=
  x ← hex_digit a; y ← hex_digit b; z ← hex_digit c; w ← hex_digit d;
  Some (((x * 16 + y) * 16 + z) * 16 + w).

Definition simple_escape (c : ascii) : option ascii :=
  match c with
  | "034" => Some "034"
  | "\" => Some "\"
  | "/" => Some "/"
  | "b" => Some "008"
  | "f" => Some "012"
  | "n" => Some "010"
  | "r" => Some "013"
  | "t" => Some "009"
  | _ => None
  end%char.

(** The text of a string literal from just after its opening quotation
    mark: the decoded string and what follows the closing mark. *)
Fixpoint scan_string (s : string) : option (string * string) :=
  match s with
  | EmptyString => None
  | String c r =>
      if Ascii.eqb c "034" then Some (EmptyString, r)
      else if Ascii.eqb c "\" then
        match r with
        | EmptyString => None
        | String e r' =>
            match simple_escape e with
            | Some d => prod_map (String d) id <$> scan_string r'
            | None =>
                if Ascii.eqb e "u" then
                  match r' with
                  | String h1 (String h2 (String h3 (String h4 r''))) =>
                      match hex4 h1 h2 h3 h4 with
                      | Some n =>
                          if n <? 256
                          then prod_map (String (ascii_of_nat n)) id
                                 <$> scan_string r''
                          else None
                      | None => None
                      end
                  | _ => None
                  end
                else None
            end
        end
      else if nat_of_ascii c <? 32 then None
      else prod_map (String c) id <$> scan_string r
  end.

(** The members of an object from just after the opening quotation mark
    of a key; a key given twice keeps its last value. *)
Fixpoint scan_members (fuel : nat) (s : string) (acc : gmap string string)
  : option (gmap string string * string) :=
  match fuel with
  | O => None
  | S fuel =>
      '(key, s) ← scan_string s;
      match skip_ws s with
      | String ":" s =>
          match skip_ws s with
          | String "034" s =>
              '(value, s) ← scan_string s;
              let acc := <[key := value]> acc in
              match skip_ws s with
              | String "}" s => Some (acc, s)
              | String "," s =>
                  match skip_ws s with
                  | String "034" s => scan_members fuel s acc
                  | _ => None
                  end
              | _ => None
              end
          | _ => None
          end
      | _ => None
      end
  end.

Definition at_end (v : json_object) (s : string) : option json_object :=
  match skip_ws s with
  | EmptyString => Some v
  | _ => None
  end.

Definition decode (s : string) : option json_object :=
  match skip_ws s with
  | String "{" s =>
      match skip_ws s with
      | String "}" s => at_end (Some ∅) s
      | String "034" s =>
          '(d, s) ← scan_members (String.length s) s ∅; at_end (Some d) s
      | _ => None
      end
  | String "n" (String "u" (String "l" (String "l" s))) => at_end None s
  | _ => None
  end.

End Json.

(** ** Sequences of calls on a graph *)

Inductive graph_op :=
| OpAddNode (nodeid nodename nodetype group : string)
| OpAddEdge (fromnodename tonodename label edgetype : string).

Definition apply_op (g : Graph) (op : graph_op) : Graph :=
  match op with
  | OpAddNode nodeid nodename nodetype group =>
      add_node nodeid nodename nodetype group g
  | OpAddEdge fromnodename tonodename label edgetype =>
      add_edge fromnodename tonodename label edgetype g
  end.

(** The graph after the calls [ops], in order. *)
Definition apply_ops (ops : list graph_op) (g : Graph) : Graph :=
  foldl apply_op g ops.

(** What the invariant of the group tables says of a graph. *)
Record groups_wf (g : Graph) : Prop := {
  wf_entry : ∀ name, name ∈ groups g → is_Some (group_nodes g !! name);
  wf_range : ∀ name l, group_nodes g !! name = Some l →
             Forall (λ i, i < length (nodes g)) l;
  wf_sorted : ∀ name l, group_nodes g !! name = Some l → StronglySorted lt l
}.

(** The nodes of a graph that belong to a group, in insertion order. *)
Definition group_members (name : string) (g : Graph) : list Node :=
  filter (λ n, group n = name) (nodes g).

(** The invisible edges that chain consecutive node ids. *)
Fixpoint internal_chain (ids : list string) : list string :=
  match ids with
  | a :: (b :: _) as rest => internal_edge_statement a b :: internal_chain rest
  | _ => []
  end.

(** What the renderer writes for a cluster whose nodes are [ns]. *)
Definition cluster_text (index : nat) (name : string) (ns : list Node)
  : list string :=
  cluster_header index name ++ (node_statement indent2 <$> ns)
  ++ [invis_edge_settings] ++ internal_chain (node_id <$> ns)
  ++ [cluster_footer].

(** What the group tables of a graph say of the nodes of its groups. *)
Record groups_members (g : Graph) : Prop := {
  gm_nodup : NoDup (groups g);
  gm_entry : ∀ name, name ∈ groups g →
             name ≠ "" ∧ ∃ l, group_nodes g !! name = Some l ∧ l ≠ [];
  gm_members : ∀ name, name ≠ "" →
               Forall2 (λ i n, nodes g !! i = Some n)
                       (default [] (group_nodes g !! name))
                       (group_members name g)
}.

(** ** What the resolver is to compute *)

(** An edge with both resolved ids bound through the name-to-id map [m], an
    id staying empty when the name is absent. *)
Definition bind_edge (m : gmap string string) (e : Edge) : Edge :=
  mkEdge (from_node_name e) (to_node_name e) (label e) (edge_type e)
         (default "" (m !! from_node_name e))
         (default "" (m !! to_node_name e)).

(** The number of endpoints of an edge whose name is absent from [m]. *)
Definition missing_endpoints (m : gmap string string) (e : Edge) : nat :=
  (if m !! from_node_name e is None then 1 else 0)
  + (if m !! to_node_name e is None then 1 else 0).

Definition unresolved (e : Edge) : Prop :=
  from_node_id e = "" ∧ to_node_id e = "".

(** ** Sample inputs *)

(** A graph with the nodes [A] and [B], an edge between them and an edge to
    a node that is never defined. *)
Definition sample_graph : Graph :=
  apply_ops [OpAddNode "n01" "A" "function" "G";
             OpAddEdge "A" "B" "" "normal";
             OpAddNode "n02" "B" "class" "G";
             OpAddEdge "B" "Z" "calls" "normal"]
            (new_Graph "code" "g1" "T" "D" "_s").

Definition sample_registry : state :=
  set_graphs [("g1", sample_graph);
              ("g2", add_edge "X" "Y" "" "transition"
                       (new_Graph "workflow" "g2" "T2" "D2" "_w"))]
             initial_state.

(** No edge of the registry has a resolved id. *)
Definition edges_unresolved (graphs : list (string * Graph)) : Prop :=
  ∀ gkey g, dict_get gkey graphs = Some g → Forall unresolved (edges g).

(** ** Steps of the registry *)

(** How a decoded annotation that is accepted changes the registry. *)
Inductive registry_step (graphs : list (string * Graph))
  : list (string * Graph) → Prop :=
| step_definition gt gid t d f :
    registry_step graphs (dict_set gid (new_Graph gt gid t d f) graphs)
| step_node gid g nodename nodetype grp :
    dict_get gid graphs = Some g →
    registry_step graphs
      (dict_set gid
         (add_node ("n" +:+ format_02 (length (nodes g) + 1))
                   nodename nodetype grp g) graphs)
| step_edge gid g a b c d :
    dict_get gid graphs = Some g →
    registry_step graphs (dict_set gid (add_edge a b c d g) graphs).

(** The state in a result of the first part of [process_line]. *)
Definition scan_state (r : scan_result) : state :=
  match r with
  | Returned st => st
  | Scanned st _ => st
  end.

(** ** Kinds of decoded annotations *)

(** The decoded annotation [o] is a data annotation: its command is absent,
    empty or [data]. *)
Definition is_data_annotation (o : json_object) : Prop :=
  get_json_value o "command" "" = ""
  ∨ get_json_value o "command" "" = COMMAND_DATA.

(** The decoded annotation [o] is a node annotation that passes every check
    of [process_json] but the one that its graph is registered. *)
Definition is_node_annotation (o : json_object)
    (graphid nodename nodetype grp : string) : Prop :=
  is_data_annotation o
  ∧ get_json_value o "graphid" "" = graphid ∧ graphid ≠ ""
  ∧ get_json_value o "datatype" "" = DATATYPE_NODE
  ∧ get_json_value o "nodename" "" = nodename ∧ nodename ≠ ""
  ∧ get_json_value o "nodetype" "" = nodetype
  ∧ is_Some (GraphVizNodeTypes !! nodetype)
  ∧ get_json_value o "group" "" = grp.

(** In every graph of the registry, the node at position [i] has the id made
    of the letter n and the number [i + 1] in the format [02]. *)
Definition ids_sequential (graphs : list (string * Graph)) : Prop :=
  ∀ gid g i node,
    dict_get gid graphs = Some g → nodes g !! i = Some node →
    node_id node = "n" +:+ format_02 (i + 1).

(** The decimal digit [d]. *)
Definition digit (d : nat) : ascii := ascii_of_nat (48 + d).

(** Three lines of input: a graph [g1] with one node, and a graph [g2]. *)
Definition sample_lines : list string :=
  ["// @@graph {'command':'definition','graphtype':'code','graphid':'g1',";
   "//    'title':'T','description':'D','filenamesuffix':'_s'}";
   "# @@graph {'graphid':'g1','datatype':'node','nodename':'A','nodetype':'function'}";
   "/* @@graph {'command':'definition','graphtype':'workflow','graphid':'g2','title':'T2','description':'D2','filenamesuffix':'_w'} */"].

Definition sample_node_json : string :=
  "{'graphid':'g2','datatype':'node','nodename':'S','nodetype':'state'}".

Definition sample_undefined_json : string :=
  "{'graphid':'nope','datatype':'node','nodename':'S','nodetype':'state'}".

(** ** Statements about the scanner *)

(** [process_line] on a line handled by the logic for an open multi-line
    comment alone, without looking at the table of delimiters. *)
Definition process_open_comment (decode : string → option json_object)
    (inputline : string) (st : state) : state :=
  let bare_inputline := strip inputline in
  if decide (bare_inputline = "") then st
  else match scan_open_comment bare_inputline st with
       | Returned st' => st'
       | Scanned st' is_graphtag_line => assemble decode is_graphtag_line st'
       end.

(** A function on states applied to the state of a result. *)
Definition scan_map (f : state → state) (r : scan_result) : scan_result :=
  match r with
  | Returned st => Returned (f st)
  | Scanned st b => Scanned (f st) b
  end.

(** The scanner state and the registry of two states agree. *)
Definition same_scanner_and_registry (st st' : state) : Prop :=
  multiline_comment_active st' = multiline_comment_active st
  ∧ multiline_comment_terminator st' = multiline_comment_terminator st
  ∧ graphtag_object_json st' = graphtag_object_json st
  ∧ still_reading_graphtag_object st' = still_reading_graphtag_object st
  ∧ graphs st' = graphs st.

(** A block comment was opened and the first part of a definition was read
    inside it. *)
Definition sample_open_state : state :=
  process_lines Json.decode
    ["/*";
     "@@graph {'command':'definition','graphtype':'code','graphid':'g1',";
     "   'title':'T','description':'D',"]
    initial_state.

Definition sample_definition_line : string :=
  "// @@graph {'command':'definition','graphtype':'code','graphid':'g9','title':'T','description':'D','filenamesuffix':'_s'}".

Definition sample_closing_line : string := "'filenamesuffix':'_s'} */".

(** A line that closes the open comment and goes on with code. *)
Definition sample_trailing_line : string :=
  "'filenamesuffix':'_s'} */ s = " +:+ dq +:+ "x" +:+ dq +:+ ";".

(** The text of a line before the first occurrence of the terminator. *)
Definition text_before_terminator (bare_inputline : string) (st : state) : string :=
  match find (multiline_comment_terminator st) bare_inputline with
  | Some pos => take pos bare_inputline
  | None => EmptyString
  end.

(** ** The normalizer, as its description reads *)

Fixpoint count_char (c : ascii) (s : string) : nat :=
  match s with
  | EmptyString => 0
  | String d s' => (if Ascii.eqb c d then 1 else 0) + count_char c s'
  end.

(** The flag of the normalizer when it reaches position [i] of [s]: set
    when an odd number of double quotation marks precede the position. *)
Definition inside_double_quotes (s : string) (i : nat) : bool :=
  Nat.odd (count_char "034" (take i s)).

(** The character that the normalizer leaves at position [i], where it
    found [c]. *)
Definition normalized_char (s : string) (i : nat) (c : ascii) : ascii :=
  if Ascii.eqb c "'" && negb (inside_double_quotes s i) then "034"%char else c.

(** The payload of the example: braces, single and double quotation marks. *)
Definition sample_payload : string :=
  "{'a':" +:+ dq +:+ "it's" +:+ dq +:+ ", 'b':'c'}".

Definition sample_payload_normalized : string :=
  "{" +:+ dq +:+ "a" +:+ dq +:+ ":" +:+ dq +:+ "it's" +:+ dq +:+ ", "
  +:+ dq +:+ "b" +:+ dq +:+ ":" +:+ dq +:+ "c" +:+ dq +:+ "}".

(** ** An annotation split across lines *)

(** The concatenation of the fragments of a payload. *)
Definition concat_str (fragments : list string) : string :=
  foldr String.append EmptyString fragments.

(** A line of a single-line comment that carries a fragment. *)
Definition fragment_line (start_delim fragment : string) : string :=
  start_delim +:+ " " +:+ fragment.

(** The line that starts an annotation: the marker, then a fragment. *)
Definition graphtag_line (start_delim fragment : string) : string :=
  start_delim +:+ " " +:+ GRAPHTAG +:+ " " +:+ fragment.

(** The lines of an annotation split into [fragments]. *)
Definition annotation_lines (start_delim : string) (fragments : list string)
  : list string :=
  match fragments with
  | [] => []
  | f :: fs => graphtag_line start_delim f :: (fragment_line start_delim <$> fs)
  end.

(** The first line of an annotation in a block comment that stays open. *)
Definition block_graphtag_line (fragment : string) : string :=
  "/*" +:+ " " +:+ GRAPHTAG +:+ " " +:+ fragment.

(** A further line inside the block comment, indented. *)
Definition block_fragment_line (fragment : string) : string :=
  "    " +:+ fragment.

(** The lines of an annotation split into [fragments] in a block comment. *)
Definition block_annotation_lines (fragments : list string) : list string :=
  match fragments with
  | [] => []
  | f :: fs => block_graphtag_line f :: (block_fragment_line <$> fs)
  end.

(** The text of a comment line with the terminating delimiter of its
    comment: the trimmed line without the starting delimiter that it starts
    with, trimmed again. *)
Definition comment_text (inputline : string) : option (string * string) :=
  let bare_inputline := strip inputline in
  if decide (bare_inputline = "") then None
  else
    '(start_delim, end_delim) ← match_comment_start COMMENT_DELIMITERS bare_inputline;
    Some (strip (remove_first start_delim bare_inputline), end_delim).

(** The text after the marker of a text that starts with the marker,
    trimmed. *)
Definition marker_text (text : string) : option string :=
  if decide (find GRAPHTAG text = Some 0)
  then Some (strip (remove_first GRAPHTAG text)) else None.

(** The fragment of a comment line, whatever surrounds it on the line: the
    text of the line, for a comment with the terminating delimiter
    [end_delim]. *)
Definition comment_fragment (end_delim inputline : string) : option string :=
  '(text, e) ← comment_text inputline;
  if decide (e = end_delim) then Some text else None.

(** The fragment of a comment line that starts an annotation: the text
    after the marker. *)
Definition marker_fragment (end_delim inputline : string) : option string :=
  comment_fragment end_delim inputline ≫= marker_text.

(** The fragment of a text inside a block comment that ends on the line:
    the text without the terminators, trimmed. *)
Definition closed_comment_fragment (text : string) : option string :=
  match find "*/" text with
  | Some _ => Some (strip (remove_all "*/" text))
  | None => None
  end.

(** The same definition, each line a block comment of its own. *)
Definition sample_file_closed_lines : list string :=
  ["  /* @@graph {'command':'definition','graphtype':'code',   */" +:+ nl;
   String "009" "/*    'graphid':'g1','title':'my title', */" +:+ nl;
   "/*'description':'D','filenamesuffix':'_s'}*/  " +:+ nl].

(** Lines as a file has them: a definition split across the lines of
    single-line comments of both kinds, indented, with line ends. *)
Definition sample_file_lines : list string :=
  ["    //   @@graph   {'command':'definition','graphtype':'code',  " +:+ nl;
   String "009" "#'graphid':'g1','title':'my title'," +:+ nl;
   "  //      'description':'D','filenamesuffix':'_s'}" +:+ nl].

(** The same definition inside a block comment. *)
Definition sample_file_block_lines : list string :=
  ["  /*   @@graph {'command':'definition','graphtype':'code',  " +:+ nl;
   String "009" "'graphid':'g1','title':'my title'," +:+ nl;
   "     'description':'D','filenamesuffix':'_s'}" +:+ nl].

(** The fragments of a definition whose title is split at a space. *)
Definition sample_fragments : list string :=
  ["{'command':'definition','graphtype':'code','graphid':'g1','title':'my";
   " title','description':'D','filenamesuffix':'_s'}"].

(** The fragments of a payload whose first fragment ends in a closing
    brace inside a quoted value. *)
Definition sample_fragments_brace : list string :=
  ["{'command':'definition','graphtype':'code','graphid':'g1','title':'{t}";
   "','description':" +:+ dq +:+ "D" +:+ dq +:+ ",'filenamesuffix':'_s'}"].

(** The fragments of a definition split where no whitespace is lost. *)
Definition sample_fragments_trimmed : list string :=
  ["{'command':'definition','graphtype':'code',";
   "'graphid':'g1','title':'my title',";
   "'description':'D','filenamesuffix':'_s'}"].

(** Sample texts are written with a backquote where the source text has a
    double quotation mark. *)
Fixpoint with_dq (s : string) : string :=
  match s with
  | EmptyString => EmptyString
  | String c s' => String (if Ascii.eqb c "`" then "034"%char else c) (with_dq s')
  end.

(** The code graph of the examples of the module's documentation. *)
Definition doc_code_lines : list string :=
  with_dq <$>
  ["// @@graph { 'command':`definition`, 'graphtype':`code`, 'graphid':`code1`, 'title':`Code`, 'description':`Sample code graph`,";
   "//      'filenamesuffix':`_code_sample1` }";
   "// @@graph { 'graphid':`code1`, 'datatype':`node`, 'group':`gsc2app.Utilities`, 'nodename':`gsc2app.Utilities.generateUUID`, 'nodetype':`function` }";
   "// @@graph { 'graphid':`code1`, 'datatype':`node`, 'group':`gsc2app.Models`,";
   "//      'nodename':`gsc2app.Models.StringField`, 'nodetype':`class` }";
   "// @@graph";
   "//      { 'graphid':`code1`, 'datatype':`node`, 'group':`gsc2app.Collections`, 'nodename':`gsc2app.Collections.StringFields`, 'nodetype':`class` }";
   "// @@graph";
   "//      {";
   "//          'graphid': `code1`,";
   "//          'datatype': `edge`,";
   "//          'fromnodename': `gsc2app.Models.StringField`,";
   "//          'tonodename': `gsc2app.Collections.StringFields`,";
   "//          'edgetype': `normal`";
   "//      }"].

(** The workflow graph of the examples of the module's documentation. *)
Definition doc_workflow_lines : list string :=
  with_dq <$>
  ["/* @@graph { 'command':`definition`, 'graphtype':`workflow`, 'graphid':`workflow1`, 'title':`Flow`,";
   "        'description':`Sample workflow graph`, 'filenamesuffix':`_workflow_sample1` }";
   "*/";
   "/* @@graph { 'graphid':`workflow1`, 'datatype':`node`, 'nodename':`Enter Userspace`, 'nodetype':`state` } */";
   "/* @@graph {";
   "        'graphid':`workflow1`,";
   "        'datatype':`node`,";
   "        'nodename':`Select Course`,";
   "        'nodetype':`state`";
   "    }";
   "*/";
   "/* @@graph */";
   "/*  { */";
   "/*      'graphid': `workflow1`, 'datatype': `edge`, 'fromnodename': `Enter Userspace`, */";
   "/*      'tonodename': `Select Course`, 'edgetype': `transition`, */";
   "/*      'label': `Load Userspace Courses from Server` */";
   "/*  } */"].

(** A summary of a graph: the ids and names of its nodes, its groups, and
    the names and resolved ids of its edges. *)
Definition graph_summary (g : Graph)
  : list (string * string) * list string
    * list (string * string * string * string) :=
  ((λ n, (node_id n, node_name n)) <$> nodes g, groups g,
   (λ e, (from_node_name e, to_node_name e, from_node_id e, to_node_id e))
     <$> edges g).

(** A graph made by [Graph.__init__] and calls of [add_node] and
    [add_edge]. *)
Definition built (g : Graph) : Prop :=
  ∃ gt gi t d f ops, g = apply_ops ops (new_Graph gt gi t d f).

(** Every graph of the registry is built. *)
Definition registry_built (graphs : list (string * Graph)) : Prop :=
  ∀ gkey g, dict_get gkey graphs = Some g → built g.

(** ** A graph with a hundred nodes *)

Definition sample_node_line : string :=
  "// @@graph {'graphid':'g1','datatype':'node','nodename':'A','nodetype':'function'}".

(** A definition followed by a hundred node annotations. *)
Definition hundred_node_lines : list string :=
  "// @@graph {'command':'definition','graphtype':'code','graphid':'g1','title':'T','description':'D','filenamesuffix':'_s'}"
  :: replicate 100 sample_node_line.

(** ** A decoder of values *)

(** The value of an annotation. *)
Definition value_of (o : json_object) : json_value :=
  match o with
  | None => JNull
  | Some d => JObject (map_to_list (JString <$> d))
  end.

(** [Json.decode] as a decoder of values. *)
Definition sample_loads (s : string) : option json_value :=
  value_of <$> Json.decode s.

(** * Further definitions *)


(** ** Accepted annotations *)

(** The checks that [process_json] makes on a definition. *)
Definition definition_valid (o : json_object) : Prop :=
  (get_json_value o "graphtype" "" = GRAPHTYPE_CODE
   ∨ get_json_value o "graphtype" "" = GRAPHTYPE_WORKFLOW)
  ∧ get_json_value o "graphid" "" ≠ ""
  ∧ get_json_value o "title" "" ≠ ""
  ∧ get_json_value o "description" "" ≠ ""
  ∧ get_json_value o "filenamesuffix" "" ≠ "".

#[export] Instance definition_valid_dec o : Decision (definition_valid o).
Proof. unfold definition_valid. apply _. Defined.

(** The graph that a definition creates. *)
Definition defined_graph (o : json_object) : Graph :=
  new_Graph (get_json_value o "graphtype" "") (get_json_value o "graphid" "")
            (get_json_value o "title" "") (get_json_value o "description" "")
            (get_json_value o "filenamesuffix" "").

(** The checks that [process_json] makes on an edge annotation, but the one
    that its graph is registered. *)
Definition edge_valid (o : json_object) : Prop :=
  get_json_value o "fromnodename" "" ≠ ""
  ∧ get_json_value o "tonodename" "" ≠ ""
  ∧ (get_json_value o "edgetype" "" = ""
     ∨ is_Some (GraphVizEdgeTypes !! get_json_value o "edgetype" "")).

#[export] Instance edge_valid_dec o : Decision (edge_valid o).
Proof. unfold edge_valid. apply _. Defined.

(** The edge that an edge annotation creates. *)
Definition annotated_edge (o : json_object) : Edge :=
  new_Edge (get_json_value o "fromnodename" "") (get_json_value o "tonodename" "")
           (get_json_value o "label" "")
           (if decide (get_json_value o "edgetype" "" = "")
            then EDGETYPE_DEFAULT else get_json_value o "edgetype" "").

(** An accepted annotation with what the checks of [process_json] have
    established of it. *)
Inductive accepted_step (graphs : list (string * Graph))
  : list (string * Graph) → Prop :=
| accepted_definition gt gid t d f :
    gt = GRAPHTYPE_CODE ∨ gt = GRAPHTYPE_WORKFLOW →
    gid ≠ "" → t ≠ "" → d ≠ "" → f ≠ "" →
    accepted_step graphs (dict_set gid (new_Graph gt gid t d f) graphs)
| accepted_node gid g nodename nodetype grp :
    dict_get gid graphs = Some g →
    nodename ≠ "" → is_Some (GraphVizNodeTypes !! nodetype) →
    accepted_step graphs
      (dict_set gid
         (add_node ("n" +:+ format_02 (length (nodes g) + 1))
                   nodename nodetype grp g) graphs)
| accepted_edge gid g a b lbl ty :
    dict_get gid graphs = Some g →
    a ≠ "" → b ≠ "" → is_Some (GraphVizEdgeTypes !! ty) →
    accepted_step graphs (dict_set gid (add_edge a b lbl ty g) graphs).

(** What holds of every graph that the scanner registers under [key]. *)
Record graph_valid (key : string) (g : Graph) : Prop := {
  gv_id : graph_id g = key;
  gv_key : key ≠ "";
  gv_type : graph_type g = GRAPHTYPE_CODE ∨ graph_type g = GRAPHTYPE_WORKFLOW;
  gv_title : title g ≠ "";
  gv_description : description g ≠ "";
  gv_suffix : filename_suffix g ≠ "";
  gv_nodes : Forall (λ n, node_name n ≠ "" ∧ node_id n ≠ ""
                          ∧ is_Some (GraphVizNodeTypes !! node_type n)) (nodes g);
  gv_edges : Forall (λ e, from_node_name e ≠ "" ∧ to_node_name e ≠ ""
                          ∧ is_Some (GraphVizEdgeTypes !! edge_type e)) (edges g)
}.

Definition registry_valid (graphs : list (string * Graph)) : Prop :=
  NoDup (dict_keys graphs)
  ∧ ∀ key g, dict_get key graphs = Some g → graph_valid key g.

(** The nodes of a graph with the name [name] that were given an id, in
    insertion order. *)
Definition named_nodes (name : string) (g : Graph) : list Node :=
  filter (λ n, node_name n = name ∧ node_id n ≠ "") (nodes g).

(** The name-to-id map of a graph gives, for every name, the id of the last
    node that was added under that name with an id. *)
Definition map_of_last_nodes (g : Graph) : Prop :=
  ∀ name, node_name_to_id_map g !! name = node_id <$> last (named_nodes name g).

(** ** The text of a file *)

(** The nodes that the renderer writes: those with an id. *)
Definition visible (ns : list Node) : list Node :=
  filter (λ n, node_id n ≠ "") ns.

(** The edges that the renderer writes: those with two resolved ids. *)
Definition resolved_edges (es : list Edge) : list Edge :=
  filter (λ e, from_node_id e ≠ "" ∧ to_node_id e ≠ "") es.

(** The clusters of the groups [names], numbered from [index] + 1. *)
Fixpoint clusters_text (g : Graph) (index : nat) (names : list string)
  : list string :=
  match names with
  | [] => []
  | name :: rest =>
      cluster_text index name (visible (group_members name g))
      ++ clusters_text g (S index) rest
  end.

(** The file of a graph, as the documentation of the renderer describes
    it: a heading, the clusters of the groups in first-seen order or, when
    there is no group, the nodes in insertion order, then the edges in
    insertion order and the title. *)
Definition file_text (g : Graph) (output_path : string) : list string :=
  [ "// Graph file " +:+ dq +:+ full_output_path g output_path +:+ dq +:+ nl;
    "digraph {" +:+ nl ]
  ++ (if decide (groups g = [])
      then (indent +:+ "node [" +:+ DEFAULT_NODE_SETTINGS +:+ "];" +:+ nl)
           :: (node_statement indent <$> visible (nodes g))
      else clusters_text g 0 (groups g))
  ++ [ nl; indent +:+ "edge [" +:+ DEFAULT_EDGE_SETTINGS +:+ "];" +:+ nl ]
  ++ (edge_statement <$> resolved_edges (edges g))
  ++ [ nl;
       indent +:+ "// Graph title" +:+ nl;
       indent +:+ "labelloc = " +:+ dq +:+ "t" +:+ dq +:+ ";" +:+ nl;
       indent +:+ "label = " +:+ dq +:+ title g +:+ dq +:+ ";" +:+ nl;
       "}" +:+ nl ].

(** The names of the nodes of a graph. *)
Definition node_names (g : Graph) : list string := node_name <$> nodes g.

(** Both node names of an edge are names of nodes of the graph. *)
Definition endpoints_defined (g : Graph) (e : Edge) : Prop :=
  from_node_name e ∈ node_names g ∧ to_node_name e ∈ node_names g.

(** The number of node names of an edge that are no names of nodes. *)
Definition undefined_endpoints (g : Graph) (e : Edge) : nat :=
  (if decide (from_node_name e ∈ node_names g) then 0 else 1)
  + (if decide (to_node_name e ∈ node_names g) then 0 else 1).

(** Lines that define a graph with two nodes, an edge between them and an
    edge to a name that is no node. *)
Definition sample_edge_lines : list string :=
  sample_lines ++
  ["// @@graph {'graphid':'g1','datatype':'node','nodename':'B','nodetype':'class'}";
   "// @@graph {'graphid':'g1','datatype':'edge','fromnodename':'A','tonodename':'B'}";
   "// @@graph {'graphid':'g1','datatype':'edge','fromnodename':'B','tonodename':'Z','label':'calls'}"].

(** ** The registry after [process_graphs] *)





(** ** The state of the scanner between two lines *)

(** What holds of the scanner state after every line: the accumulator
    holds no closing brace that ends an annotation, it is empty unless an
    annotation is being read, and the recorded terminator is one of the
    table. *)
Definition scanner_settled (st : state) : Prop :=
  close_brace (graphtag_object_json st) = None
  ∧ (graphtag_object_json st ≠ "" → still_reading_graphtag_object st = true)
  ∧ (multiline_comment_terminator st = ""
     ∨ multiline_comment_terminator st = "*/").

(** ** Texts without a kind of quotation mark *)

(** [s] with every single quotation mark turned into a double one. *)
Fixpoint double_all_quotes (s : string) : string :=
  match s with
  | EmptyString => EmptyString
  | String c s' =>
      String (if Ascii.eqb c "'" then "034"%char else c) (double_all_quotes s')
  end.

(** ** The nodes, edges and groups that calls make *)

(** The nodes that the calls [ops] add, in order. *)
Definition op_nodes (ops : list graph_op) : list Node :=
  omap (λ op, match op with
              | OpAddNode i n t grp => Some (mkNode i n t grp)
              | OpAddEdge _ _ _ _ => None
              end) ops.

(** The edges that the calls [ops] add, in order. *)
Definition op_edges (ops : list graph_op) : list Edge :=
  omap (λ op, match op with
              | OpAddNode _ _ _ _ => None
              | OpAddEdge a b lbl ty => Some (new_Edge a b lbl ty)
              end) ops.

(** The distinct elements of a list in the order of their first
    occurrence. *)
Definition first_seen (l : list string) : list string :=
  reverse (remove_dups (reverse l)).

(** The group names of nodes, those that are not empty. *)
Definition group_names (ns : list Node) : list string :=
  filter (λ name, name ≠ "") (group <$> ns).

(** ** Comment styles *)

(** An annotation on one line of a block comment that ends on the line. *)
Definition block_single_line (fragment : string) : string :=
  "/*" +:+ " " +:+ GRAPHTAG +:+ " " +:+ fragment +:+ " " +:+ "*/".

(** A line of a block comment with a marker, in the usual layout. *)
Definition sample_star_line : string :=
  " * @@graph {'command':'definition','graphtype':'code','graphid':'g1','title':'T','description':'D','filenamesuffix':'_s'}".

(** ** Reading a number back *)

(** [int(s)] for a string of decimal digits; [None] where it raises. *)
Definition nat_of_str (s : string) : option nat :=
  Nat.of_uint <$> NilZero.uint_of_string s.

(** * Properties *)

(** ** The model on sample inputs *)

Example strip_example : strip "   // @@graph { 'a' }  " = "// @@graph { 'a' }".
Proof. reflexivity. Qed.

Example find_example :
  (find "*/" "ab */ c */", find "" "abc", find "#" "abc") = (Some 3, Some 0, None).
Proof. reflexivity. Qed.

Example remove_all_example :
  (remove_all "*/" "ab */ c */x", remove_all "*/" "a***/", remove_all "aa" "aaa",
   remove_all "" "abc")
  = ("ab  c x", "a**", "a", "abc").
Proof. reflexivity. Qed.

Example remove_first_example : remove_first "//" "// a // b" = " a // b".
Proof. reflexivity. Qed.

Example format_02_example :
  (format_02 3, format_02 42, format_02 100) = ("03", "42", "100").
Proof. reflexivity. Qed.

Example close_brace_example :
  (close_brace (with_dq "{`a`:`}`} x"), close_brace (with_dq "} `x` } y"),
   close_brace "abc", close_brace "}}", close_brace (with_dq "x}`"))
  = (Some (with_dq "{`a`:`}`}"), Some (with_dq "} `x` }"), None, Some "}", None).
Proof. reflexivity. Qed.

Example graphtag_regex_example :
  (graphtag_regex "* @@graph {x}", graphtag_regex "@@graph{",
   graphtag_regex "** @@graph", graphtag_regex "*@@graphx",
   graphtag_regex "x @@graph")
  = (Some " {x}", Some "{", None, Some "x", None).
Proof. reflexivity. Qed.

Example decode_example :
  (Json.decode (with_dq " {`a` : `x` , `a`:`y`} "), Json.decode "{}",
   Json.decode "null", Json.decode (with_dq "{`a`:`x`,}"),
   Json.decode (with_dq "{`a`:`x`} y"), Json.decode (with_dq "{`a`:`A\n`}"))
  = (Some (Some {["a" := "y"]}), Some (Some ∅), Some None, None, None,
     Some (Some {["a" := String "A" (String "010" "")]})).
Proof. vm_compute. reflexivity. Qed.

(** The code graph of the module's documentation: three nodes and an edge
    that the resolver binds. *)
Example doc_code_graph :
  let st := process_lines Json.decode doc_code_lines initial_state in
  let st' := (process_graphs (λ _, true) "out" st).1 in
  (num_errors st', num_graphtags st',
   graph_summary <$> dict_get "code1" (graphs st'))
  = (0, 5,
     Some ([("n01", "gsc2app.Utilities.generateUUID");
            ("n02", "gsc2app.Models.StringField");
            ("n03", "gsc2app.Collections.StringFields")],
           ["gsc2app.Utilities"; "gsc2app.Models"; "gsc2app.Collections"],
           [("gsc2app.Models.StringField", "gsc2app.Collections.StringFields",
             "n02", "n03")])).
Proof. vm_compute. reflexivity. Qed.

(** The workflow graph of the module's documentation. *)
Example doc_workflow_graph :
  let st := process_lines Json.decode doc_workflow_lines initial_state in
  let st' := (process_graphs (λ _, true) "out" st).1 in
  (num_errors st', num_graphtags st',
   graph_summary <$> dict_get "workflow1" (graphs st'))
  = (0, 4,
     Some ([("n01", "Enter Userspace"); ("n02", "Select Course")], [],
           [("Enter Userspace", "Select Course", "n01", "n02")])).
Proof. vm_compute. reflexivity. Qed.

(** The file written for the workflow graph holds two node statements and
    one edge statement. *)
Example doc_workflow_file :
  let st := process_lines Json.decode doc_workflow_lines initial_state in
  (process_graphs (λ _, true) "out" st).2
  = [("out_workflow_sample1_graphviz.txt",
      ["// Graph file " +:+ dq +:+ "out_workflow_sample1_graphviz.txt" +:+ dq +:+ nl;
       "digraph {" +:+ nl;
       indent +:+ "node [" +:+ DEFAULT_NODE_SETTINGS +:+ "];" +:+ nl;
       node_statement indent (mkNode "n01" "Enter Userspace" "state" "");
       node_statement indent (mkNode "n02" "Select Course" "state" "");
       nl;
       indent +:+ "edge [" +:+ DEFAULT_EDGE_SETTINGS +:+ "];" +:+ nl;
       edge_statement
         (mkEdge "Enter Userspace" "Select Course"
                 "Load Userspace Courses from Server" "transition" "n01" "n02");
       nl;
       indent +:+ "// Graph title" +:+ nl;
       indent +:+ "labelloc = " +:+ dq +:+ "t" +:+ dq +:+ ";" +:+ nl;
       indent +:+ "label = " +:+ dq +:+ "Flow" +:+ dq +:+ ";" +:+ nl;
       "}" +:+ nl])].
Proof. vm_compute. reflexivity. Qed.


(** ** The group tables of a graph *)

Lemma StronglySorted_snoc (l : list nat) (n : nat) :
  StronglySorted lt l → Forall (λ i, i < n) l → StronglySorted lt (l ++ [n]).
Proof.
  induction 1 as [|x l Hs IH Hx]; intros Hn; simpl.
  - repeat constructor.
  - inversion Hn; subst. constructor; [auto|].
    apply Forall_app; split; [done|]. by constructor.
Qed.

Lemma new_Graph_wf gt gi t d f : groups_wf (new_Graph gt gi t d f).
Proof.
  split; simpl.
  - intros name H. by apply elem_of_nil in H.
  - intros name l H. by rewrite lookup_empty in H.
  - intros name l H. by rewrite lookup_empty in H.
Qed.

Lemma add_edge_wf a b c d g : groups_wf g → groups_wf (add_edge a b c d g).
Proof. intros [H1 H2 H3]. split; simpl; auto. Qed.

Lemma add_node_wf nodeid nodename nodetype grp g :
  groups_wf g → groups_wf (add_node nodeid nodename nodetype grp g).
Proof.
  intros [H1 H2 H3]. unfold add_node.
  assert (Hlen : ∀ l, Forall (λ i, i < length (nodes g)) l →
                      Forall (λ i, i < length (nodes g ++ [mkNode nodeid nodename nodetype grp])) l).
  { intros l Hl. eapply Forall_impl; [exact Hl|]. intros i Hi. simpl in *. rewrite length_app. simpl. lia. }
  destruct (decide (grp ≠ "")) as [Hg|Hg]; split; simpl.
  - intros name Hin.
    destruct (decide (name = grp)) as [->|Hne].
    + destruct (group_nodes g !! grp); rewrite lookup_insert_eq; eauto.
    + assert (name ∈ groups g) as Hin'.
      { destruct (decide (grp ∈ groups g)); [done|].
        apply elem_of_app in Hin as [?|Hin]; [done|].
        apply list_elem_of_singleton in Hin. done. }
      destruct (group_nodes g !! grp); rewrite lookup_insert_ne; auto.
  - intros name l Hl.
    destruct (decide (name = grp)) as [->|Hne].
    + destruct (group_nodes g !! grp) as [l0|] eqn:E;
        rewrite lookup_insert_eq in Hl; injection Hl as <-.
      * apply Forall_app; split; [eauto|].
        constructor; [|constructor]. rewrite length_app. simpl. lia.
      * constructor; [|constructor]. rewrite length_app. simpl. lia.
    + destruct (group_nodes g !! grp); rewrite lookup_insert_ne in Hl by done; eauto.
  - intros name l Hl.
    destruct (decide (name = grp)) as [->|Hne].
    + destruct (group_nodes g !! grp) as [l0|] eqn:E;
        rewrite lookup_insert_eq in Hl; injection Hl as <-.
      * apply StronglySorted_snoc; eauto.
      * repeat constructor.
    + destruct (group_nodes g !! grp); rewrite lookup_insert_ne in Hl by done; eauto.
  - auto.
  - eauto.
  - eauto.
Qed.

Lemma apply_ops_wf ops g : groups_wf g → groups_wf (apply_ops ops g).
Proof.
  revert g. induction ops as [|op ops IH]; intros g Hg; [done|].
  simpl. apply IH. destruct op; [by apply add_node_wf | by apply add_edge_wf].
Qed.

(** The lookups of the renderer are in range on a well-formed graph. *)
Lemma groups_wf_lookup g name :
  groups_wf g → name ∈ groups g →
  ∃ l, group_nodes g !! name = Some l ∧ ∀ i, i ∈ l → is_Some (nodes g !! i).
Proof.
  intros [H1 H2 H3] Hin. destruct (H1 _ Hin) as [l Hl].
  exists l. split; [done|]. intros i Hi.
  apply lookup_lt_is_Some. specialize (H2 _ _ Hl).
  rewrite Forall_forall in H2. by apply H2.
Qed.

(** ** The writer monad *)

Lemma writer_bind_ok {A B} (o : list string) (x : A) (f : A → writer B) :
  ((o, Some x) : writer A) ≫= f = (o ++ (f x).1, (f x).2).
Proof. unfold mbind, writer_bind, w_bind. by destruct (f x). Qed.

Lemma writer_bind_eq {A B} (m : writer A) (f : A → writer B) o x o' r :
  m = (o, Some x) → f x = (o', r) → m ≫= f = (o ++ o', r).
Proof. intros -> Hf. by rewrite writer_bind_ok, Hf. Qed.

(** ** The renderer on one cluster *)

Lemma write_group_nodes_eq g l ns :
  Forall2 (λ i n, nodes g !! i = Some n) l ns →
  Forall (λ n, node_id n ≠ "") ns →
  write_group_nodes g l = (node_statement indent2 <$> ns, Some ()).
Proof.
  induction 1 as [|i n l ns Hi _ IH]; intros Hne; [done|].
  inversion Hne; subst. cbn [write_group_nodes]. rewrite Hi.
  rewrite decide_True by done.
  erewrite writer_bind_eq; [|reflexivity|by apply IH]. done.
Qed.

Lemma write_internal_edges_next g l ns last c :
  Forall2 (λ i n, nodes g !! i = Some n) l ns →
  Forall (λ n, node_id n ≠ "") ns →
  1 ≤ c →
  write_internal_edges g l last c
  = (internal_chain (last :: (node_id <$> ns)), Some ()).
Proof.
  intros H. revert last c.
  induction H as [|i n l ns Hi _ IH]; intros last c Hne Hc; [done|].
  inversion Hne; subst. cbn [write_internal_edges]. rewrite Hi.
  rewrite decide_True by done.
  rewrite decide_False by lia.
  erewrite writer_bind_eq; [|reflexivity|apply IH; [done|lia]]. done.
Qed.

Lemma write_internal_edges_eq g l ns :
  Forall2 (λ i n, nodes g !! i = Some n) l ns →
  Forall (λ n, node_id n ≠ "") ns →
  write_internal_edges g l "" 0 = (internal_chain (node_id <$> ns), Some ()).
Proof.
  destruct 1 as [|i n l ns Hi H]; intros Hne; [done|].
  inversion Hne; subst. cbn [write_internal_edges]. rewrite Hi.
  rewrite decide_True by done. rewrite decide_True by done.
  by apply write_internal_edges_next.
Qed.

Lemma write_cluster_eq g index name l ns :
  group_nodes g !! name = Some l →
  Forall2 (λ i n, nodes g !! i = Some n) l ns →
  Forall (λ n, node_id n ≠ "") ns →
  write_cluster g index name = (cluster_text index name ns, Some ()).
Proof.
  intros Hl H2 Hne. unfold write_cluster, cluster_text. rewrite Hl.
  rewrite (write_group_nodes_eq _ _ _ H2 Hne).
  rewrite (write_internal_edges_eq _ _ _ H2 Hne).
  reflexivity.
Qed.

Lemma internal_chain_length ids : length (internal_chain ids) = length ids - 1.
Proof.
  induction ids as [|a [|b ids] IH]; [done..|].
  change (S (length (internal_chain (b :: ids))) = length (a :: b :: ids) - 1).
  rewrite IH. simpl. lia.
Qed.

Lemma internal_chain_lookup ids j a b :
  ids !! j = Some a → ids !! S j = Some b →
  internal_chain ids !! j = Some (internal_edge_statement a b).
Proof.
  revert j. induction ids as [|x [|y ids] IH]; intros j Ha Hb; [done| |].
  - destruct j; simpl in *; done.
  - destruct j as [|j].
    + simpl in *. by simplify_eq.
    + change (internal_chain (y :: ids) !! j = Some (internal_edge_statement a b)).
      apply IH; done.
Qed.

(** ** The nodes of a group *)

Lemma new_Graph_members gt gi t d f : groups_members (new_Graph gt gi t d f).
Proof.
  split; simpl.
  - constructor.
  - intros name H. by apply elem_of_nil in H.
  - intros name _. rewrite lookup_empty. constructor.
Qed.

Lemma add_edge_members a b c d g :
  groups_members g → groups_members (add_edge a b c d g).
Proof. intros [H1 H2 H3]. split; simpl; auto. Qed.

Lemma add_node_members nodeid nodename nodetype grp g :
  groups_members g → groups_members (add_node nodeid nodename nodetype grp g).
Proof.
  intros [H1 H2 H3].
  set (new_node := mkNode nodeid nodename nodetype grp).
  assert (Hext : ∀ l ns,
            Forall2 (λ i n, nodes g !! i = Some n) l ns →
            Forall2 (λ i n, (nodes g ++ [new_node]) !! i = Some n) l ns).
  { intros l ns H. eapply Forall2_impl; [exact H|].
    intros i n Hi. by apply lookup_app_l_Some. }
  assert (Hlast : (nodes g ++ [new_node]) !! length (nodes g) = Some new_node).
  { by apply list_lookup_middle. }
  unfold add_node. fold new_node.
  destruct (decide (grp ≠ "")) as [Hg|Hg]; split; simpl.
  - destruct (decide (grp ∈ groups g)) as [|Hnin]; [done|].
    apply NoDup_app. split; [done|]. split; [|apply NoDup_singleton].
    intros x Hx Hx'. apply list_elem_of_singleton in Hx'. by subst.
  - intros name Hin. destruct (decide (name = grp)) as [->|Hne].
    + split; [done|].
      destruct (group_nodes g !! grp) as [l0|]; rewrite lookup_insert_eq.
      * exists (l0 ++ [length (nodes g)]). split; [done|]. by destruct l0.
      * by exists [length (nodes g)].
    + assert (name ∈ groups g) as Hin'.
      { destruct (decide (grp ∈ groups g)); [done|].
        apply elem_of_app in Hin as [?|Hin]; [done|].
        by apply list_elem_of_singleton in Hin. }
      destruct (H2 _ Hin') as [Hn (l & Hl & Hl')]. split; [done|].
      exists l. split; [|done].
      destruct (group_nodes g !! grp); by rewrite lookup_insert_ne.
  - intros name Hname. unfold group_members. simpl. rewrite filter_app.
    specialize (H3 name Hname). unfold group_members in H3.
    destruct (decide (name = grp)) as [->|Hne].
    + rewrite (filter_cons_True _ new_node) by done. rewrite filter_nil.
      assert (default [] (match group_nodes g !! grp with
                          | Some l => <[grp:=l ++ [length (nodes g)]]> (group_nodes g)
                          | None => <[grp:=[length (nodes g)]]> (group_nodes g)
                          end !! grp)
              = default [] (group_nodes g !! grp) ++ [length (nodes g)]) as ->.
      { destruct (group_nodes g !! grp); by rewrite lookup_insert_eq. }
      apply Forall2_app; [by apply Hext|]. by constructor.
    + rewrite (filter_cons_False _ new_node) by (simpl; congruence).
      rewrite filter_nil, app_nil_r.
      assert (match group_nodes g !! grp with
              | Some l => <[grp:=l ++ [length (nodes g)]]> (group_nodes g)
              | None => <[grp:=[length (nodes g)]]> (group_nodes g)
              end !! name = group_nodes g !! name) as ->.
      { destruct (group_nodes g !! grp); by rewrite lookup_insert_ne. }
      by apply Hext.
  - done.
  - done.
  - intros name Hname. unfold group_members. simpl. rewrite filter_app.
    rewrite (filter_cons_False _ new_node).
    2:{ simpl. intros ->. apply Hg. intros ->. done. }
    rewrite filter_nil, app_nil_r. by apply Hext, H3.
Qed.

Lemma apply_ops_members ops g : groups_members g → groups_members (apply_ops ops g).
Proof.
  revert g. induction ops as [|op ops IH]; intros g Hg; [done|].
  simpl. apply IH. destruct op; [by apply add_node_members | by apply add_edge_members].
Qed.

(** ** The renderer on a whole graph *)

Lemma writer_bind_written {A B} (m : writer A) (f : A → writer B) :
  ∃ post, written (m ≫= f) = written m ++ post.
Proof.
  destruct m as [o [x|]].
  - rewrite writer_bind_ok. by exists (f x).1.
  - exists []. by rewrite app_nil_r.
Qed.

Lemma written_write_bind {B} (s : string) (f : () → writer B) :
  written (write s ≫= f) = s :: written (f ()).
Proof. unfold write. by rewrite writer_bind_ok. Qed.

Lemma write_group_nodes_ok g l :
  Forall (λ i, i < length (nodes g)) l → (write_group_nodes g l).2 = Some ().
Proof.
  induction 1 as [|i l Hi _ IH]; [done|].
  cbn [write_group_nodes].
  destruct (lookup_lt_is_Some_2 _ _ Hi) as [n ->].
  destruct (write_group_nodes g l) as [o r]. simpl in IH. subst r.
  by destruct (decide (node_id n ≠ "")).
Qed.

Lemma write_internal_edges_ok g l last c :
  Forall (λ i, i < length (nodes g)) l →
  (write_internal_edges g l last c).2 = Some ().
Proof.
  intros H. revert last c.
  induction H as [|i l Hi _ IH]; intros last c; [done|].
  cbn [write_internal_edges].
  destruct (lookup_lt_is_Some_2 _ _ Hi) as [n ->].
  destruct (decide (node_id n ≠ "")); [|apply IH].
  destruct (decide (c + 1 = 1)); [apply IH|].
  specialize (IH (node_id n) (c + 1)).
  destruct (write_internal_edges g l (node_id n) (c + 1)) as [o r].
  simpl in IH. by subst r.
Qed.

Lemma write_cluster_ok g index name :
  groups_wf g → name ∈ groups g → (write_cluster g index name).2 = Some ().
Proof.
  intros Hwf Hin. destruct (wf_entry _ Hwf _ Hin) as [l Hl].
  pose proof (wf_range _ Hwf _ _ Hl) as Hr.
  unfold write_cluster. rewrite Hl.
  pose proof (write_group_nodes_ok g l Hr) as H1.
  pose proof (write_internal_edges_ok g l "" 0 Hr) as H2.
  destruct (write_group_nodes g l) as [o1 r1].
  destruct (write_internal_edges g l "" 0) as [o2 r2].
  simpl in H1, H2. by subst.
Qed.

Lemma write_clusters_segment g names k i name :
  (∀ j n, names !! j = Some n → (write_cluster g (k + j) n).2 = Some ()) →
  names !! i = Some name →
  ∃ pre post,
    written (write_clusters g k names)
    = pre ++ written (write_cluster g (k + i) name) ++ post.
Proof.
  revert k i. induction names as [|n names IH]; intros k i Hok Hi; [done|].
  cbn [write_clusters].
  pose proof (Hok 0 n eq_refl) as H0. rewrite Nat.add_0_r in H0.
  destruct (write_cluster g k n) as [o r] eqn:E. simpl in H0. subst r.
  rewrite writer_bind_ok. unfold written. simpl fst.
  destruct i as [|i].
  - simpl in Hi. injection Hi as <-. rewrite Nat.add_0_r, E.
    exists [], (write_clusters g (S k) names).1. done.
  - simpl in Hi. destruct (IH (S k) i) as (pre & post & Hseg); [|done|].
    { intros j n' Hj. specialize (Hok (S j) n' Hj).
      by rewrite Nat.add_succ_r in Hok. }
    rewrite Nat.add_succ_r. unfold written in Hseg. rewrite Hseg.
    exists (o ++ pre), post. by rewrite <- app_assoc.
Qed.

Lemma generate_cluster_segment g path index name :
  groups_wf g → groups g !! index = Some name →
  ∃ pre post,
    written (generate_graph_output_graphviz g path)
    = pre ++ written (write_cluster g index name) ++ post.
Proof.
  intros Hwf Hi.
  destruct (write_clusters_segment g (groups g) 0 index name) as (pre & post & Hseg);
    [|done|].
  { intros j n Hj. apply write_cluster_ok; [done|].
    by apply list_elem_of_lookup_2 in Hj. }
  unfold generate_graph_output_graphviz.
  rewrite decide_True by (apply lookup_lt_Some in Hi; lia).
  rewrite !written_write_bind. cbv beta.
  match goal with
  | |- context [ written (write_clusters g 0 (groups g) ≫= ?f) ] =>
      destruct (writer_bind_written (write_clusters g 0 (groups g)) f) as [post' Hp]
  end.
  rewrite Hp, Hseg.
  eexists (_ :: _ :: pre), (post ++ post').
  simpl. by rewrite <- !app_assoc.
Qed.

Lemma writer_bind_snd {A B} (m : writer A) (f : A → writer B) x y :
  m.2 = Some x → (f x).2 = Some y → (m ≫= f).2 = Some y.
Proof.
  intros Hm Hf. destruct m as [o r]. simpl in Hm. subst r.
  by rewrite writer_bind_ok.
Qed.

Lemma write_clusters_ok g names k :
  groups_wf g → (∀ n, n ∈ names → n ∈ groups g) →
  (write_clusters g k names).2 = Some ().
Proof.
  intros Hwf. revert k. induction names as [|n names IH]; intros k Hin; [done|].
  cbn [write_clusters]. eapply writer_bind_snd.
  - apply write_cluster_ok; [done|]. apply Hin. by left.
  - apply IH. intros n' Hn'. apply Hin. by right.
Qed.

Lemma write_flat_nodes_ok ns : (write_flat_nodes ns).2 = Some ().
Proof.
  induction ns as [|n ns IH]; [done|].
  cbn [write_flat_nodes]. eapply writer_bind_snd; [|exact IH].
  by destruct (decide (node_id n ≠ "")).
Qed.

Lemma write_edges_ok es : (write_edges es).2 = Some ().
Proof.
  induction es as [|e es IH]; [done|].
  cbn [write_edges]. eapply writer_bind_snd; [|exact IH].
  by destruct (decide (from_node_id e ≠ "" ∧ to_node_id e ≠ "")).
Qed.

(** On a well-formed graph the renderer raises no exception. *)
Lemma generate_ok g path :
  groups_wf g → (generate_graph_output_graphviz g path).2 = Some ().
Proof.
  intros Hwf. unfold generate_graph_output_graphviz.
  repeat (eapply writer_bind_snd; [first
    [ reflexivity
    | apply write_edges_ok
    | idtac ] |]); try reflexivity.
  destruct (decide (0 < length (groups g))).
  - by apply write_clusters_ok.
  - eapply writer_bind_snd; [reflexivity|apply write_flat_nodes_ok].
Qed.

(** ** The registry as an ordered dictionary *)

Section odict_facts.
Context {V : Type}.
Implicit Types (d : list (string * V)) (k : string) (v : V).

Lemma dict_get_set_eq k v d : dict_get k (dict_set k v d) = Some v.
Proof.
  induction d as [|[k' v'] d IH]; simpl.
  - by rewrite decide_True.
  - destruct (decide (k = k')) as [->|Hne]; simpl.
    + by rewrite decide_True.
    + by rewrite decide_False.
Qed.

Lemma dict_get_set_ne k k' v d :
  k ≠ k' → dict_get k' (dict_set k v d) = dict_get k' d.
Proof.
  intros Hne. induction d as [|[k0 v0] d IH]; simpl.
  - by rewrite decide_False.
  - destruct (decide (k = k0)) as [->|Hne0]; simpl.
    + by rewrite !decide_False by done.
    + destruct (decide (k' = k0)); [done|apply IH].
Qed.

Lemma dict_set_same k v d : dict_get k d = Some v → dict_set k v d = d.
Proof.
  induction d as [|[k0 v0] d IH]; simpl; [done|].
  destruct (decide (k = k0)) as [->|Hne]; intros H.
  - by injection H as ->.
  - by rewrite IH.
Qed.

Lemma dict_set_comm k1 k2 v1 v2 d :
  k1 ≠ k2 → is_Some (dict_get k1 d) → is_Some (dict_get k2 d) →
  dict_set k1 v1 (dict_set k2 v2 d) = dict_set k2 v2 (dict_set k1 v1 d).
Proof.
  intros Hne. induction d as [|[k0 v0] d IH]; simpl.
  - by intros [? ?].
  - intros H1 H2.
    destruct (decide (k1 = k0)) as [->|H10], (decide (k2 = k0)) as [->|H20]; simpl.
    + done.
    + by rewrite decide_True, decide_False.
    + by rewrite decide_False, decide_True.
    + rewrite !decide_False by done. f_equal. by apply IH.
Qed.

Lemma dict_keys_set k v d :
  is_Some (dict_get k d) → dict_keys (dict_set k v d) = dict_keys d.
Proof.
  unfold dict_keys. induction d as [|[k0 v0] d IH]; simpl.
  - by intros [? ?].
  - destruct (decide (k = k0)) as [->|Hne]; simpl; [done|].
    intros H. f_equal. by apply IH.
Qed.
End odict_facts.

(** ** The resolver *)

Lemma resolve_edge_unresolved m e :
  unresolved e → resolve_edge m e = (bind_edge m e, missing_endpoints m e).
Proof.
  destruct e as [fn tn lb ty fi ti]. intros [Hf Ht]. simpl in *. subst.
  unfold resolve_edge, bind_edge, missing_endpoints. cbn.
  rewrite decide_True by done.
  destruct (m !! fn); cbn; rewrite decide_True by done;
    destruct (m !! tn); reflexivity.
Qed.

Lemma resolve_edges_unresolved m es :
  Forall unresolved es →
  resolve_edges m es = (bind_edge m <$> es, sum_list (missing_endpoints m <$> es)).
Proof.
  induction 1 as [|e es He _ IH]; [done|].
  simpl. by rewrite (resolve_edge_unresolved _ _ He), IH.
Qed.

Lemma resolve_edge_fst m e :
  (resolve_edge m e).1
  = mkEdge (from_node_name e) (to_node_name e) (label e) (edge_type e)
      (if decide (from_node_id e = "")
       then default "" (m !! from_node_name e) else from_node_id e)
      (if decide (to_node_id e = "")
       then default "" (m !! to_node_name e) else to_node_id e).
Proof.
  destruct e as [fn tn lb ty fi ti]. unfold resolve_edge. cbn.
  destruct (decide (fi = "")) as [->|Hfi].
  - destruct (m !! fn); cbn;
      (destruct (decide (ti = "")) as [->|Hti]; [destruct (m !! tn)|]); reflexivity.
  - cbn. destruct (decide (ti = "")) as [->|Hti]; [destruct (m !! tn)|]; reflexivity.
Qed.

Lemma resolve_edge_idemp m e :
  (resolve_edge m (resolve_edge m e).1).1 = (resolve_edge m e).1.
Proof.
  rewrite (resolve_edge_fst m (resolve_edge m e).1).
  rewrite !resolve_edge_fst. cbn.
  f_equal; repeat case_decide; congruence.
Qed.

Lemma resolve_edges_fst m es :
  (resolve_edges m es).1 = (λ e, (resolve_edge m e).1) <$> es.
Proof.
  induction es as [|e es IH]; [done|]. simpl.
  destruct (resolve_edge m e), (resolve_edges m es). simpl in *. by rewrite IH.
Qed.

Lemma resolve_edge_node_ids_fst g :
  (resolve_edge_node_ids g).1
  = set_edges ((λ e, (resolve_edge (node_name_to_id_map g) e).1) <$> edges g) g.
Proof.
  unfold resolve_edge_node_ids. rewrite <- resolve_edges_fst.
  by destruct (resolve_edges _ _).
Qed.

Lemma resolve_edge_node_ids_idemp g :
  (resolve_edge_node_ids (resolve_edge_node_ids g).1).1
  = (resolve_edge_node_ids g).1.
Proof.
  rewrite !resolve_edge_node_ids_fst. simpl. unfold set_edges. simpl. f_equal.
  rewrite <- list_fmap_compose. apply list_fmap_ext.
  intros i e _. simpl. apply resolve_edge_idemp.
Qed.

Lemma resolve_graph_Some gkey g st :
  dict_get gkey (graphs st) = Some g →
  resolve_graph gkey st
  = add_errors (resolve_edge_node_ids g).2
      (set_graphs (dict_set gkey (resolve_edge_node_ids g).1 (graphs st)) st).
Proof.
  intros H. unfold resolve_graph. rewrite H.
  by destruct (resolve_edge_node_ids g).
Qed.

Lemma resolve_graph_None gkey st :
  dict_get gkey (graphs st) = None → resolve_graph gkey st = st.
Proof. intros H. unfold resolve_graph. by rewrite H. Qed.

Lemma resolve_graph_comm k1 k2 st :
  resolve_graph k1 (resolve_graph k2 st) = resolve_graph k2 (resolve_graph k1 st).
Proof.
  destruct (decide (k1 = k2)) as [->|Hne]; [done|].
  destruct (dict_get k1 (graphs st)) as [g1|] eqn:E1,
           (dict_get k2 (graphs st)) as [g2|] eqn:E2.
  - rewrite (resolve_graph_Some k2 g2 st E2), (resolve_graph_Some k1 g1 st E1).
    rewrite (resolve_graph_Some k1 g1), (resolve_graph_Some k2 g2);
      [|cbn; by rewrite dict_get_set_ne|cbn; by rewrite dict_get_set_ne].
    unfold add_errors, set_graphs. cbn. f_equal; [lia|].
    apply dict_set_comm; [done|by rewrite E1|by rewrite E2].
  - rewrite (resolve_graph_None k2 st E2), (resolve_graph_Some k1 g1 st E1).
    rewrite resolve_graph_None; [done|]. cbn. by rewrite dict_get_set_ne.
  - rewrite (resolve_graph_None k1 st E1), (resolve_graph_Some k2 g2 st E2).
    rewrite resolve_graph_None; [done|]. cbn. by rewrite dict_get_set_ne.
  - by rewrite (resolve_graph_None k1 st E1), (resolve_graph_None k2 st E2),
      (resolve_graph_None k1 st E1).
Qed.

Lemma resolve_graphs_perm ks ks' st :
  ks ≡ₚ ks' → resolve_graphs ks st = resolve_graphs ks' st.
Proof.
  intros H. revert st. unfold resolve_graphs.
  induction H as [|k ks ks' _ IH|k1 k2 ks|ks1 ks2 ks3 _ IH1 _ IH2]; intros st; simpl.
  - done.
  - apply IH.
  - by rewrite resolve_graph_comm.
  - by rewrite IH1.
Qed.

(** The graph stored under a key after the first loop of [process_graphs]
    depends on the graph that was stored under that key only. *)
Lemma resolve_graph_lookup k gkey st :
  dict_get k (graphs (resolve_graph gkey st))
  = (if decide (k = gkey) then λ g, (resolve_edge_node_ids g).1 else id)
      <$> dict_get k (graphs st).
Proof.
  destruct (dict_get gkey (graphs st)) as [g|] eqn:E.
  - rewrite (resolve_graph_Some _ _ _ E). cbn.
    destruct (decide (k = gkey)) as [->|Hne].
    + by rewrite dict_get_set_eq, E.
    + rewrite dict_get_set_ne by done. by destruct (dict_get k (graphs st)).
  - rewrite (resolve_graph_None _ _ E).
    destruct (decide (k = gkey)) as [->|Hne].
    + by rewrite E.
    + by destruct (dict_get k (graphs st)).
Qed.

Lemma resolve_graphs_lookup k ks st :
  dict_get k (graphs (resolve_graphs ks st))
  = (if decide (k ∈ ks) then λ g, (resolve_edge_node_ids g).1 else id)
      <$> dict_get k (graphs st).
Proof.
  revert st. unfold resolve_graphs.
  induction ks as [|gkey ks IH]; intros st; cbn [foldl].
  - rewrite decide_False by apply not_elem_of_nil.
    by destruct (dict_get k (graphs st)).
  - rewrite IH, resolve_graph_lookup.
    destruct (dict_get k (graphs st)) as [g|]; [|done]. cbn [fmap option_fmap option_map]. f_equal.
    destruct (decide (k = gkey)) as [->|Hne].
    + rewrite (decide_True (P := gkey ∈ gkey :: ks)) by left.
      destruct (decide (gkey ∈ ks)); [apply resolve_edge_node_ids_idemp|done].
    + destruct (decide (k ∈ ks)) as [Hin|Hnin].
      * by rewrite decide_True by (by right).
      * rewrite decide_False; [done|]. intros [?|?]%elem_of_cons; done.
Qed.

Lemma resolve_graph_stable gkey st :
  (∀ g, dict_get gkey (graphs st) = Some g → (resolve_edge_node_ids g).1 = g) →
  graphs (resolve_graph gkey st) = graphs st.
Proof.
  intros H. destruct (dict_get gkey (graphs st)) as [g|] eqn:E.
  - rewrite (resolve_graph_Some _ _ _ E). cbn. rewrite (H g eq_refl).
    by apply dict_set_same.
  - by rewrite (resolve_graph_None _ _ E).
Qed.

Lemma resolve_graphs_stable ks st :
  (∀ k g, k ∈ ks → dict_get k (graphs st) = Some g →
          (resolve_edge_node_ids g).1 = g) →
  graphs (resolve_graphs ks st) = graphs st.
Proof.
  revert st. unfold resolve_graphs.
  induction ks as [|gkey ks IH]; intros st H; simpl; [done|].
  assert (Hst : graphs (resolve_graph gkey st) = graphs st).
  { apply resolve_graph_stable. intros g. apply H. by left. }
  rewrite IH; [done|]. intros k g Hk. rewrite Hst. apply H. by right.
Qed.

Lemma resolve_graphs_idemp ks st :
  graphs (resolve_graphs ks (resolve_graphs ks st)) = graphs (resolve_graphs ks st).
Proof.
  apply resolve_graphs_stable. intros k g Hk.
  rewrite resolve_graphs_lookup, decide_True by done.
  destruct (dict_get k (graphs st)) as [g0|]; [|done].
  simpl. intros [= <-]. apply resolve_edge_node_ids_idemp.
Qed.

Lemma resolve_graph_keys gkey st :
  dict_keys (graphs (resolve_graph gkey st)) = dict_keys (graphs st).
Proof.
  destruct (dict_get gkey (graphs st)) as [g|] eqn:E.
  - rewrite (resolve_graph_Some _ _ _ E). cbn. apply dict_keys_set. by rewrite E.
  - by rewrite (resolve_graph_None _ _ E).
Qed.

Lemma resolve_graphs_keys ks st :
  dict_keys (graphs (resolve_graphs ks st)) = dict_keys (graphs st).
Proof.
  revert st. unfold resolve_graphs.
  induction ks as [|gkey ks IH]; intros st; simpl; [done|].
  by rewrite IH, resolve_graph_keys.
Qed.

(** ** Decoded annotations *)

Lemma raise_if_bind {A} (P : Prop) `{Decision P} (e : exn) (k : result A) :
  (raise_if P e;; k) = if decide P then Raise e else k.
Proof. unfold raise_if. by destruct (decide P). Qed.

Lemma process_json_object_step graphs o graphs' :
  process_json_object graphs o = Ok graphs' → registry_step graphs graphs'.
Proof.
  unfold process_json_object. cbv zeta.
  generalize (if decide (get_json_value o "command" "" = "")
              then COMMAND_DEFAULT else get_json_value o "command" "").
  intros command. rewrite raise_if_bind.
  destruct (decide (command ≠ COMMAND_DATA ∧ command ≠ COMMAND_DEFINITION));
    [done|].
  destruct (decide (command = COMMAND_DEFINITION)).
  - unfold process_definition. cbv zeta. rewrite !raise_if_bind.
    repeat (case_decide; [done|]). cbv [mret result_ret]; intros [= <-].
    constructor.
  - destruct (decide (command = COMMAND_DATA)); [|exfalso; auto].
    unfold process_data. cbv zeta. rewrite raise_if_bind. case_decide; [done|].
    destruct (dict_get _ graphs) as [g|] eqn:Eg; [|done].
    rewrite !raise_if_bind. repeat (case_decide; [done|]).
    case_decide.
    + unfold process_node. cbv zeta. rewrite !raise_if_bind.
      repeat (case_decide; [done|]). cbv [mret result_ret]; intros [= <-].
      by constructor.
    + case_decide; [|done]. unfold process_edge. cbv zeta.
      rewrite !raise_if_bind. repeat (case_decide; [done|]).
      destruct (decide (get_json_value o "edgetype" "" = "")).
      * cbv [mret result_ret mbind result_bind]; intros [= <-]. by constructor.
      * case_decide; [done|].
        cbv [mret result_ret mbind result_bind]; intros [= <-]. by constructor.
Qed.

Lemma data_command o :
  is_data_annotation o →
  (if decide (get_json_value o "command" "" = "")
   then COMMAND_DEFAULT else get_json_value o "command" "") = COMMAND_DATA.
Proof. intros [H|H]; case_decide; done. Qed.

Lemma process_json_object_data graphs o :
  is_data_annotation o → process_json_object graphs o = process_data graphs o.
Proof.
  intros Hd. unfold process_json_object. cbv zeta. rewrite (data_command o Hd).
  reflexivity.
Qed.

Lemma process_data_undefined graphs o :
  dict_get (get_json_value o "graphid" "") graphs = None →
  ∃ e, process_data graphs o = Raise e.
Proof.
  intros Hg. unfold process_data. cbv zeta. rewrite raise_if_bind, Hg.
  case_decide; eauto.
Qed.

Lemma process_node_annotation graphs o gid nodename nodetype grp g :
  is_node_annotation o gid nodename nodetype grp →
  dict_get gid graphs = Some g →
  process_json_object graphs o
  = Ok (dict_set gid
          (add_node ("n" +:+ format_02 (length (nodes g) + 1))
                    nodename nodetype grp g) graphs).
Proof.
  intros (Hd & Hgid & Hne & Hdt & Hnn & Hnne & Hnt & Hty & Hgrp) Hg.
  rewrite (process_json_object_data _ _ Hd).
  unfold process_data. cbv zeta. rewrite Hgid, Hg, Hdt.
  rewrite !raise_if_bind. rewrite decide_False by done.
  rewrite decide_False by done. rewrite decide_False by (intros [? _]; done).
  rewrite decide_True by done.
  unfold process_node. cbv zeta. rewrite Hnn, Hnt, Hgrp.
  rewrite !raise_if_bind. rewrite decide_False by done.
  rewrite decide_False by (intros ->; by destruct Hty).
  rewrite decide_False by (intros E; rewrite E in Hty; by destruct Hty).
  reflexivity.
Qed.

(** ** What the scanner does to the registry *)

Lemma process_json_graphs decode inputjson st :
  graphs (process_json decode inputjson st) = graphs st
  ∨ registry_step (graphs st) (graphs (process_json decode inputjson st)).
Proof.
  unfold process_json, process_json_try. cbn.
  destruct (decode _) as [o|]; [|by left].
  destruct (process_json_object (graphs st) o) as [gs|e] eqn:E; [|by left].
  right. cbn. by eapply process_json_object_step.
Qed.

Lemma scan_comment_line_graphs bare st :
  graphs (scan_state (scan_comment_line bare st)) = graphs st.
Proof.
  unfold scan_comment_line.
  repeat (case_decide || case_match); reflexivity.
Qed.

Lemma scan_open_comment_graphs bare st :
  graphs (scan_state (scan_open_comment bare st)) = graphs st.
Proof.
  unfold scan_open_comment.
  repeat (case_decide || case_match); reflexivity.
Qed.

Lemma scan_line_graphs inputline st :
  graphs (scan_state (scan_line inputline st)) = graphs st.
Proof.
  unfold scan_line. case_decide; [done|].
  destruct (match_comment_start _ _) as [[s e]|].
  - by rewrite scan_comment_line_graphs.
  - destruct (multiline_comment_active st); [|done].
    apply scan_open_comment_graphs.
Qed.

Lemma assemble_graphs decode b st :
  graphs (assemble decode b st) = graphs st
  ∨ registry_step (graphs st) (graphs (assemble decode b st)).
Proof.
  unfold assemble. case_decide.
  - left. by destruct b.
  - destruct (close_brace _) as [closed|]; [|by left]. cbn.
    apply (process_json_graphs decode (strip closed)
             (set_still_reading false (set_json (strip closed) st))).
Qed.

Lemma process_line_graphs decode inputline st :
  graphs (process_line decode inputline st) = graphs st
  ∨ registry_step (graphs st) (graphs (process_line decode inputline st)).
Proof.
  unfold process_line.
  pose proof (scan_line_graphs inputline st) as H.
  destruct (scan_line inputline st) as [st'|st' b]; simpl in H.
  - by left.
  - rewrite <- H. apply assemble_graphs.
Qed.

(** A property of the registry that every accepted annotation preserves
    holds in every state that the scanner reaches. *)
Lemma process_lines_invariant (P : list (string * Graph) → Prop) decode lines st :
  (∀ gs gs', P gs → registry_step gs gs' → P gs') →
  P (graphs st) → P (graphs (process_lines decode lines st)).
Proof.
  intros Hstep. revert st. unfold process_lines.
  induction lines as [|l lines IH]; intros st HP; [done|].
  simpl. apply IH.
  destruct (process_line_graphs decode l st) as [->|H]; eauto.
Qed.

(** ** Node ids *)

Lemma add_node_nodes nodeid nodename nodetype grp g :
  nodes (add_node nodeid nodename nodetype grp g)
  = nodes g ++ [mkNode nodeid nodename nodetype grp].
Proof. unfold add_node. by case_decide. Qed.

Lemma ids_sequential_step gs gs' :
  ids_sequential gs → registry_step gs gs' → ids_sequential gs'.
Proof.
  intros Hseq Hstep gid' g' i node Hg' Hi.
  destruct Hstep as [gt gid t d f|gid g nodename nodetype grp Hg|gid g a b c d Hg];
    (destruct (decide (gid = gid')) as [->|Hne];
     [rewrite dict_get_set_eq in Hg'; injection Hg' as <-
     |rewrite dict_get_set_ne in Hg' by done; by eapply Hseq]).
  - done.
  - rewrite add_node_nodes in Hi.
    apply lookup_app_Some in Hi as [Hi|[Hlen Hi]]; [by eapply Hseq|].
    destruct (i - length (nodes g)) as [|k] eqn:Ek; [|done].
    simpl in Hi. injection Hi as <-. simpl.
    by replace i with (length (nodes g)) by lia.
  - by eapply Hseq.
Qed.

Lemma ids_sequential_reachable decode lines :
  ids_sequential (graphs (process_lines decode lines initial_state)).
Proof.
  apply (process_lines_invariant ids_sequential).
  - apply ids_sequential_step.
  - intros gid g i node H. done.
Qed.

Lemma to_uint_nonnil n : Nat.to_uint n ≠ Decimal.Nil.
Proof.
  intros H. pose proof (DecimalNat.Unsigned.of_to n) as E. rewrite H in E.
  cbn in E. subst n. discriminate.
Qed.

Lemma nat_of_str_of_nat n : nat_of_str (str_of_nat n) = Some n.
Proof.
  unfold nat_of_str, str_of_nat.
  rewrite NilZero.usu by apply to_uint_nonnil.
  cbn. by rewrite DecimalNat.Unsigned.of_to.
Qed.

Lemma nat_of_str_format_02 n : nat_of_str (format_02 n) = Some n.
Proof.
  unfold format_02. cbv zeta.
  destruct (String.length (str_of_nat n) <? 2); [|apply nat_of_str_of_nat].
  pose proof (nat_of_str_of_nat n) as H. unfold nat_of_str in *.
  destruct (str_of_nat n) as [|c s] eqn:E; [done|].
  change ("0" +:+ String c s) with (String "0" (String c s)).
  cbn [NilZero.uint_of_string] in *.
  change (NilEmpty.uint_of_string (String "0" (String c s)))
    with (Decimal.D0 <$> NilEmpty.uint_of_string (String c s)).
  destruct (NilEmpty.uint_of_string (String c s)) as [d|]; [|done].
  cbn in *. exact H.
Qed.

Lemma uint_of_char_digit c d d' :
  uint_of_char c (Some d) = Some d' →
  d' ∈ [Decimal.D0 d; Decimal.D1 d; Decimal.D2 d; Decimal.D3 d; Decimal.D4 d;
        Decimal.D5 d; Decimal.D6 d; Decimal.D7 d; Decimal.D8 d; Decimal.D9 d].
Proof.
  destruct c as [[] [] [] [] [] [] [] []]; cbn; try discriminate;
    intros [= <-]; set_solver.
Qed.

Lemma nat_of_two_chars a b n :
  nat_of_str (String a (String b "")) = Some n → n < 100.
Proof.
  unfold nat_of_str. cbn [NilZero.uint_of_string NilEmpty.uint_of_string].
  destruct (uint_of_char b (Some Decimal.Nil)) as [d1|] eqn:E1; [|done].
  destruct (uint_of_char a (Some d1)) as [d2|] eqn:E2; [|done].
  apply uint_of_char_digit in E1, E2. cbn. intros [= <-].
  repeat (apply elem_of_cons in E1 as [->|E1]);
    [..|by apply elem_of_nil in E1];
    (repeat (apply elem_of_cons in E2 as [->|E2]);
     [..|by apply elem_of_nil in E2]); vm_compute; lia.
Qed.

Lemma format_02_width num : 2 ≤ String.length (format_02 num).
Proof.
  unfold format_02. cbv zeta.
  destruct (String.length (str_of_nat num) <? 2) eqn:E.
  - pose proof (nat_of_str_of_nat num) as H.
    destruct (str_of_nat num); [done|]. simpl. lia.
  - apply Nat.ltb_ge in E. lia.
Qed.

Lemma format_02_two_digits num :
  num < 100 →
  format_02 num = String (digit (num / 10)) (String (digit (num mod 10)) "").
Proof.
  intros H.
  do 100 (destruct num as [|num]; [vm_compute; reflexivity|]).
  lia.
Qed.

Lemma add_node_edges nodeid nodename nodetype grp g :
  edges (add_node nodeid nodename nodetype grp g) = edges g.
Proof. unfold add_node. by case_decide. Qed.

Lemma add_node_map nodeid nodename nodetype grp g :
  node_name_to_id_map (add_node nodeid nodename nodetype grp g)
  = if decide (nodeid ≠ "") then <[nodename := nodeid]> (node_name_to_id_map g)
    else node_name_to_id_map g.
Proof. unfold add_node. by case_decide. Qed.

(** C3, as stated, fails: the index is not always written with two digits.
    The hundredth node of a graph gets the id made of the letter n and
    three digits. *)
Lemma node_id_two_digits_counterexample :
  let st := process_lines Json.decode hundred_node_lines initial_state in
  ∃ g node,
    dict_get "g1" (graphs st) = Some g
    ∧ nodes g !! 99 = Some node
    ∧ node_id node = "n100"
    ∧ ¬ ∃ a b : ascii, node_id node = String "n" (String a (String b "")).
Proof.
  intros st.
  assert (H : (λ g, node_id <$> nodes g !! 99) <$> dict_get "g1" (graphs st)
              = Some (Some "n100")) by (vm_compute; reflexivity).
  destruct (dict_get "g1" (graphs st)) as [g|]; [|discriminate].
  simpl in H. destruct (nodes g !! 99) as [node|] eqn:En; [|discriminate].
  simpl in H. assert (Hid : node_id node = "n100") by congruence.
  exists g, node. split; [done|]. split; [done|]. split; [done|].
  rewrite Hid. intros (a & b & E). discriminate.
Qed.

(** C3, amended: a node annotation that is decoded and accepted adds to the
    nodes of its graph, as the last one, a node with the given name, type
    and group and the id made of the letter n and the graph's current number
    of nodes plus one, written in decimal and padded with a zero to at
    least two digits: exactly two digits up to 99, more from 100 on; the
    number can be read back from the id.  The name-to-id map then gives
    that id for the name; the edges of the graph and every other graph stay
    as they were.  In every state that the scanner reaches, the node at
    position i of every graph has the id of index i + 1, so the ids of each
    graph run n01, n02, ... whatever the other graphs hold. *)
Theorem node_ids_sequential (decode : string → option json_object)
    (inputlines : list string) (inputjson : string) (o : json_object)
    (gid nodename nodetype grp : string) (g : Graph) :
  let st := process_lines decode inputlines initial_state in
  decode (sanitize_quotes false inputjson) = Some o →
  is_node_annotation o gid nodename nodetype grp →
  dict_get gid (graphs st) = Some g →
  let num := get_num_nodes g + 1 in
  let nodeid := "n" +:+ format_02 num in
  let st' := process_json decode inputjson st in
  graphs st'
  = dict_set gid (add_node nodeid nodename nodetype grp g) (graphs st)
  ∧ (∃ g', dict_get gid (graphs st') = Some g'
       ∧ nodes g' = nodes g ++ [mkNode nodeid nodename nodetype grp]
       ∧ nodes g' !! (num - 1) = Some (mkNode nodeid nodename nodetype grp)
       ∧ get_num_nodes g' = num
       ∧ node_name_to_id_map g' !! nodename = Some nodeid
       ∧ edges g' = edges g)
  ∧ (∀ gid', gid' ≠ gid → dict_get gid' (graphs st') = dict_get gid' (graphs st))
  ∧ nat_of_str (format_02 num) = Some num
  ∧ 2 ≤ String.length (format_02 num)
  ∧ (num < 100 ↔ String.length (format_02 num) = 2)
  ∧ (num < 100 →
     format_02 num = String (digit (num / 10)) (String (digit (num mod 10)) ""))
  ∧ (∀ gid' g' i node,
       dict_get gid' (graphs st') = Some g' → nodes g' !! i = Some node →
       node_id node = "n" +:+ format_02 (i + 1))
  ∧ (∀ gid' g' node,
       dict_get gid' (graphs st') = Some g' → nodes g' !! 0 = Some node →
       node_id node = "n01").
Proof.
  intros st Hdec Hnode Hg num nodeid st'.
  assert (Hst' : graphs st'
    = dict_set gid (add_node nodeid nodename nodetype grp g) (graphs st)).
  { unfold st', process_json, process_json_try. cbn. rewrite Hdec.
    by rewrite (process_node_annotation _ _ _ _ _ _ _ Hnode Hg). }
  assert (Hseq : ids_sequential (graphs st')).
  { rewrite Hst'. eapply ids_sequential_step.
    - apply ids_sequential_reachable.
    - by apply step_node. }
  split; [done|]. split.
  { exists (add_node nodeid nodename nodetype grp g).
    rewrite Hst', dict_get_set_eq. split; [done|].
    unfold get_num_nodes. rewrite add_node_nodes, add_node_edges.
    split; [done|]. split.
    { unfold num, get_num_nodes.
      replace (length (nodes g) + 1 - 1) with (length (nodes g) + 0) by lia.
      by rewrite lookup_app_r, Nat.add_0_r, Nat.sub_diag by lia. }
    split; [rewrite length_app; simpl; unfold num, get_num_nodes; lia|].
    split; [|done].
    rewrite add_node_map. rewrite decide_True by done.
    apply lookup_insert_eq. }
  split.
  { intros gid' Hne. rewrite Hst'. by apply dict_get_set_ne. }
  split; [apply nat_of_str_format_02|].
  split; [apply format_02_width|].
  split.
  { split.
    - intros Hlt. by rewrite format_02_two_digits.
    - intros Hlen. pose proof (nat_of_str_format_02 num) as Hn.
      destruct (format_02 num) as [|a [|b [|c r]]]; try done.
      by eapply nat_of_two_chars. }
  split; [apply format_02_two_digits|]. split; [exact Hseq|].
  intros gid' g' node Hg' H0. by rewrite (Hseq _ _ _ _ Hg' H0).
Qed.

Lemma node_ids_sequential_witness :
  let st := process_lines Json.decode sample_lines initial_state in
  graphs (process_json Json.decode sample_node_json st)
  = dict_set "g2"
      (add_node "n01" "S" "state" "" (new_Graph "workflow" "g2" "T2" "D2" "_w"))
      (graphs st).
Proof.
  refine (proj1 (node_ids_sequential Json.decode sample_lines sample_node_json
                   (Some (list_to_map [("graphid", "g2"); ("datatype", "node");
                                       ("nodename", "S"); ("nodetype", "state")]))
                   "g2" "S" "state" ""
                   (new_Graph "workflow" "g2" "T2" "D2" "_w") _ _ _)).
  - vm_compute. reflexivity.
  - split; [by left|].
    repeat split; try discriminate; try (vm_compute; reflexivity).
    by eexists.
  - vm_compute. reflexivity.
Defined.

(** C4: a data annotation whose [graphid] names no registered graph adds
    exactly one to the error counter and leaves the registry, that is every
    registered graph with its nodes, edges, groups and name-to-id map, as it
    was. *)
Theorem undefined_graph_reference (decode : string → option json_object)
    (inputjson : string) (o : json_object) (st : state) :
  decode (sanitize_quotes false inputjson) = Some o →
  is_data_annotation o →
  dict_get (get_json_value o "graphid" "") (graphs st) = None →
  let st' := process_json decode inputjson st in
  num_errors st' = num_errors st + 1
  ∧ graphs st' = graphs st
  ∧ st' = write_error_msg (count_graphtag st).
Proof.
  intros Hdec Hd Hg st'.
  assert (Hst' : st' = write_error_msg (count_graphtag st)).
  { unfold st', process_json, process_json_try. cbn. rewrite Hdec.
    rewrite (process_json_object_data _ _ Hd).
    destruct (process_data_undefined (graphs st) o Hg) as [e ->]. done. }
  rewrite Hst'. done.
Qed.

Lemma undefined_graph_reference_witness :
  let st := process_lines Json.decode sample_lines initial_state in
  let st' := process_json Json.decode sample_undefined_json st in
  num_errors st' = num_errors st + 1 ∧ graphs st' = graphs st.
Proof.
  intros st st'.
  destruct (undefined_graph_reference Json.decode sample_undefined_json
              (Some (list_to_map [("graphid", "nope"); ("datatype", "node");
                                  ("nodename", "S"); ("nodetype", "state")]))
              st) as (H1 & H2 & _).
  - vm_compute. reflexivity.
  - by left.
  - vm_compute. reflexivity.
  - split; [exact H1 | exact H2].
Defined.

(** ** The graphs of the registry are built by the calls of the model *)

Lemma apply_ops_snoc ops op g : apply_ops (ops ++ [op]) g = apply_op (apply_ops ops g) op.
Proof. unfold apply_ops. by rewrite foldl_app. Qed.

Lemma registry_built_step gs gs' :
  registry_built gs → registry_step gs gs' → registry_built gs'.
Proof.
  intros Hb Hstep gkey g' Hg'.
  destruct Hstep as [gt gid t d f|gid g nodename nodetype grp Hg|gid g a b c e Hg];
    (destruct (decide (gid = gkey)) as [->|Hne];
     [rewrite dict_get_set_eq in Hg'; injection Hg' as <-
     |rewrite dict_get_set_ne in Hg' by done; by eapply Hb]).
  - by exists gt, gkey, t, d, f, [].
  - destruct (Hb _ _ Hg) as (gt & gi & t & d & f & ops & ->).
    exists gt, gi, t, d, f,
      (ops ++ [OpAddNode ("n" +:+ format_02 (length (nodes (apply_ops ops
                 (new_Graph gt gi t d f))) + 1)) nodename nodetype grp]).
    by rewrite apply_ops_snoc.
  - destruct (Hb _ _ Hg) as (gt & gi & t & d & f & ops & ->).
    exists gt, gi, t, d, f, (ops ++ [OpAddEdge a b c e]).
    by rewrite apply_ops_snoc.
Qed.

Lemma registry_built_reachable decode lines :
  registry_built (graphs (process_lines decode lines initial_state)).
Proof.
  apply (process_lines_invariant registry_built).
  - apply registry_built_step.
  - intros gkey g H. done.
Qed.

Lemma ids_sequential_nonempty gs gkey g :
  ids_sequential gs → dict_get gkey gs = Some g →
  Forall (λ n, node_id n ≠ "") (nodes g).
Proof.
  intros Hseq Hg. apply Forall_lookup. intros i n Hi.
  by rewrite (Hseq _ _ _ _ Hg Hi).
Qed.

(** C10: for every graph reached from [Graph.__init__] by calls of
    [add_node] and [add_edge], every group name in [groups] has an entry in
    [group_nodes], every stored position is a valid index into [nodes],
    every position list is strictly increasing, and so the lookups of the
    renderer by group name and by position are in range: it raises no
    exception.  Every graph of a registry that the scanner reaches through
    annotations that keep to the declared types is such a graph. *)
Theorem group_tables_invariant (gt gi t d f : string) (ops : list graph_op) :
  let g := apply_ops ops (new_Graph gt gi t d f) in
  (∀ name, name ∈ groups g → is_Some (group_nodes g !! name)) ∧
  (∀ name l i, group_nodes g !! name = Some l → i ∈ l → i < length (nodes g)) ∧
  (∀ name l, group_nodes g !! name = Some l → StronglySorted lt l) ∧
  (∀ name, name ∈ groups g →
     ∃ l, group_nodes g !! name = Some l ∧ ∀ i, i ∈ l → is_Some (nodes g !! i)) ∧
  (∀ path, (generate_graph_output_graphviz g path).2 = Some ()) ∧
  (∀ loads lines gkey g',
     annotations_typed loads lines →
     dict_get gkey (graphs (process_lines (record_decoder loads) lines
                              initial_state)) = Some g' →
     built g').
Proof.
  intros g.
  assert (Hwf : groups_wf g) by apply apply_ops_wf, new_Graph_wf.
  split; [apply Hwf|]. split.
  { intros name l i Hl Hi. pose proof (wf_range _ Hwf _ _ Hl) as Hr.
    rewrite Forall_forall in Hr. by apply Hr. }
  split; [apply Hwf|]. split.
  { intros name Hin. by apply groups_wf_lookup. }
  split; [intros path; by apply generate_ok|].
  intros loads lines gkey g' _. apply registry_built_reachable.
Qed.

Lemma cluster_text_lines index name ns :
  length (cluster_text index name ns) = 10 + length ns + (length ns - 1)
  ∧ (∀ j n, ns !! j = Some n →
       cluster_text index name ns !! (8 + j) = Some (node_statement indent2 n))
  ∧ cluster_text index name ns !! (8 + length ns) = Some invis_edge_settings
  ∧ (∀ j a b, ns !! j = Some a → ns !! S j = Some b →
       cluster_text index name ns !! (9 + length ns + j)
       = Some (internal_edge_statement (node_id a) (node_id b))).
Proof.
  unfold cluster_text.
  assert (Hh : length (cluster_header index name) = 8) by reflexivity.
  pose proof (internal_chain_length (node_id <$> ns)) as Hc.
  rewrite length_fmap in Hc.
  split; [|split; [|split]].
  - rewrite !length_app, length_fmap, Hh, Hc. simpl. lia.
  - intros j n Hj. rewrite lookup_app_r by (rewrite Hh; lia).
    rewrite Hh. replace (8 + j - 8) with j by lia.
    rewrite lookup_app_l
      by (rewrite length_fmap; by apply lookup_lt_Some in Hj).
    by rewrite list_lookup_fmap, Hj.
  - rewrite lookup_app_r by (rewrite Hh; lia).
    rewrite Hh. replace (8 + length ns - 8) with (length ns) by lia.
    rewrite lookup_app_r by (by rewrite length_fmap).
    by rewrite length_fmap, Nat.sub_diag.
  - intros j a b Ha Hb. rewrite lookup_app_r by (rewrite Hh; lia).
    rewrite Hh. replace (9 + length ns + j - 8) with (length ns + S j) by lia.
    rewrite lookup_app_r by (rewrite length_fmap; lia).
    rewrite length_fmap. replace (length ns + S j - length ns) with (S j) by lia.
    assert (Hlt : j < length (internal_chain (node_id <$> ns))).
    { rewrite Hc. apply lookup_lt_Some in Hb. lia. }
    change (([invis_edge_settings] ++ internal_chain (node_id <$> ns)
             ++ [cluster_footer]) !! S j)
      with ((internal_chain (node_id <$> ns) ++ [cluster_footer]) !! j).
    rewrite lookup_app_l by done.
    apply internal_chain_lookup; rewrite list_lookup_fmap.
    + by rewrite Ha.
    + by rewrite Hb.
Qed.

(** C8: in a graph built by [add_node] and [add_edge], a group whose k
    nodes (k ≥ 1) all have non-empty ids is rendered as one cluster that
    holds the k node statements in insertion order, followed by the
    max(0, k-1) invisible edges that chain consecutive nodes: after the
    eight lines of the heading, line j of the cluster is the statement of
    the j-th node of the group, with its id, type and name, and after the
    setting of the invisible edges, line j is the edge from the id of the
    j-th node to the id of the next; the cluster is part of the file written
    for the graph, and no other cluster is written for that group.  In a
    registry that the scanner reaches through annotations that keep to the
    declared types every node has a non-empty id, so every group of every
    graph is rendered that way. *)
Theorem cluster_rendering (gt gi t d f : string) (ops : list graph_op)
    (index : nat) (name path : string) :
  let g := apply_ops ops (new_Graph gt gi t d f) in
  let ns := group_members name g in
  groups g !! index = Some name →
  Forall (λ n, node_id n ≠ "") ns →
  1 ≤ length ns ∧
  write_cluster g index name = (cluster_text index name ns, Some ()) ∧
  length (internal_chain (node_id <$> ns)) = Nat.max 0 (length ns - 1) ∧
  (∀ j a b, ns !! j = Some a → ns !! S j = Some b →
     internal_chain (node_id <$> ns) !! j
     = Some (internal_edge_statement (node_id a) (node_id b))) ∧
  (∀ j, groups g !! j = Some name → j = index) ∧
  (∃ pre post,
    written (generate_graph_output_graphviz g path)
    = pre ++ cluster_text index name ns ++ post) ∧
  length (written (write_cluster g index name))
  = 10 + length ns + (length ns - 1) ∧
  (∀ j n, ns !! j = Some n →
     written (write_cluster g index name) !! (8 + j)
     = Some (indent2 +:+ node_id n +:+ " [" +:+ node_attributes (node_type n)
             +:+ "label=" +:+ dq +:+ node_type n +:+ ":\n" +:+ node_name n
             +:+ dq +:+ "];" +:+ nl)) ∧
  written (write_cluster g index name) !! (8 + length ns)
  = Some (indent2 +:+ "edge [style=" +:+ dq +:+ "invis" +:+ dq +:+ "];" +:+ nl) ∧
  (∀ j a b, ns !! j = Some a → ns !! S j = Some b →
     written (write_cluster g index name) !! (9 + length ns + j)
     = Some (indent2 +:+ node_id a +:+ " -> " +:+ node_id b +:+ ";" +:+ nl)) ∧
  (∀ loads lines gkey g' i' name',
     annotations_typed loads lines →
     dict_get gkey (graphs (process_lines (record_decoder loads) lines
                              initial_state)) = Some g' →
     groups g' !! i' = Some name' →
     write_cluster g' i' name'
     = (cluster_text i' name' (group_members name' g'), Some ())).
Proof.
  assert (Hcluster : ∀ g0 i0 name0, built g0 →
            groups g0 !! i0 = Some name0 →
            Forall (λ n, node_id n ≠ "") (group_members name0 g0) →
            ∃ l, group_nodes g0 !! name0 = Some l ∧ l ≠ [] ∧ name0 ≠ "" ∧
                 Forall2 (λ i n, nodes g0 !! i = Some n) l (group_members name0 g0) ∧
                 write_cluster g0 i0 name0
                 = (cluster_text i0 name0 (group_members name0 g0), Some ())).
  { intros g0 i0 name0 (gt0 & gi0 & t0 & d0 & f0 & ops0 & ->) Hi0 Hne0.
    assert (Hgm : groups_members (apply_ops ops0 (new_Graph gt0 gi0 t0 d0 f0)))
      by apply apply_ops_members, new_Graph_members.
    assert (Hin : name0 ∈ groups (apply_ops ops0 (new_Graph gt0 gi0 t0 d0 f0)))
      by (by apply list_elem_of_lookup_2 in Hi0).
    destruct (gm_entry _ Hgm _ Hin) as [Hname (l & Hl & Hl')].
    pose proof (gm_members _ Hgm _ Hname) as H2. rewrite Hl in H2. simpl in H2.
    exists l. repeat split; try done. by eapply write_cluster_eq. }
  intros g ns Hi Hne.
  assert (Hwf : groups_wf g) by apply apply_ops_wf, new_Graph_wf.
  assert (Hgm : groups_members g) by apply apply_ops_members, new_Graph_members.
  destruct (Hcluster g index name) as (l & Hl & Hl' & Hname & H2 & Hcl);
    [by exists gt, gi, t, d, f, ops|done|done|].
  fold ns in H2, Hcl.
  split.
  { destruct H2; [done|simpl; lia]. }
  split; [done|]. split.
  { rewrite internal_chain_length, length_fmap. lia. }
  split.
  { intros j a b Ha Hb. apply internal_chain_lookup; rewrite list_lookup_fmap.
    - by rewrite Ha.
    - by rewrite Hb. }
  split.
  { intros j Hj. eapply NoDup_lookup; [apply Hgm|exact Hj|exact Hi]. }
  split.
  { destruct (generate_cluster_segment g path index name Hwf Hi)
      as (pre & post & Hseg).
    exists pre, post. by rewrite Hseg, Hcl. }
  destruct (cluster_text_lines index name ns) as (Hlen & Hnode & Hinv & Hchain).
  rewrite Hcl. cbn [written fst].
  split; [exact Hlen|]. split; [exact Hnode|]. split; [exact Hinv|].
  split; [exact Hchain|].
  intros loads lines gkey g' i' name' _ Hg' Hi'.
  destruct (Hcluster g' i' name') as (_ & _ & _ & _ & _ & Hcl'); [|done| |done].
  - by eapply registry_built_reachable.
  - unfold group_members. apply Forall_forall. intros n [_ Hn]%list_elem_of_filter.
    pose proof (ids_sequential_nonempty _ _ _
                  (ids_sequential_reachable (record_decoder loads) lines) Hg')
      as Hall.
    rewrite Forall_forall in Hall. by apply Hall.
Qed.

Lemma cluster_rendering_witness :
  let g := apply_ops [OpAddNode "n01" "A" "function" "G";
                      OpAddEdge "A" "B" "" "normal";
                      OpAddNode "n02" "B" "class" "G"]
                     (new_Graph "code" "g1" "T" "D" "_s") in
  write_cluster g 0 "G" = (cluster_text 0 "G" (group_members "G" g), Some ()).
Proof.
  refine (proj1 (proj2 (cluster_rendering "code" "g1" "T" "D" "_s"
            [OpAddNode "n01" "A" "function" "G";
             OpAddEdge "A" "B" "" "normal";
             OpAddNode "n02" "B" "class" "G"] 0 "G" "out" _ _))).
  - reflexivity.
  - vm_compute. repeat constructor; discriminate.
Defined.

(** ** The resolver on the registry of the scanner *)

Lemma edges_unresolved_step gs gs' :
  edges_unresolved gs → registry_step gs gs' → edges_unresolved gs'.
Proof.
  intros Hun Hstep gkey g' Hg'.
  destruct Hstep as [gt gid t d f|gid g nodename nodetype grp Hg|gid g a b c d Hg];
    (destruct (decide (gid = gkey)) as [->|Hne];
     [rewrite dict_get_set_eq in Hg'; injection Hg' as <-
     |rewrite dict_get_set_ne in Hg' by done; by eapply Hun]).
  - constructor.
  - rewrite add_node_edges. by eapply Hun.
  - simpl. apply Forall_app. split; [by eapply Hun|]. by repeat constructor.
Qed.

(** Before the resolver runs, no edge of the registry has a resolved id. *)
Lemma edges_unresolved_reachable decode lines :
  edges_unresolved (graphs (process_lines decode lines initial_state)).
Proof.
  apply (process_lines_invariant edges_unresolved).
  - apply edges_unresolved_step.
  - intros gkey g H. done.
Qed.

(** C7: the resolver stores, for each graph and for each edge in insertion
    order, as the resolved from-id and to-id of the edge the ids that the
    graph's name-to-id map gives for [fromnodename] and [tonodename]; an
    absent name counts one error and leaves the id empty.  The names, the
    label and the type of an edge, the number and the order of the edges
    and the rest of the graph stay as they were, and the resolved graph is
    stored under its key.  A second run leaves every edge as the first run
    left it, and the state after the loop over the graphs does not depend
    on the order in which the keys are visited.  The edges are taken with
    empty resolved ids, as they are in every state that the scanner
    reaches. *)
Theorem resolver_properties (g : Graph) (gkey : string) (ks ks' : list string)
    (st : state) :
  Forall unresolved (edges g) →
  dict_get gkey (graphs st) = Some g →
  ks ≡ₚ ks' →
  let m := node_name_to_id_map g in
  let g' := (resolve_edge_node_ids g).1 in
  let n := (resolve_edge_node_ids g).2 in
  length (edges g') = length (edges g) ∧
  (∀ i e, edges g !! i = Some e →
     ∃ e', edges g' !! i = Some e'
       ∧ from_node_id e' = default "" (m !! from_node_name e)
       ∧ to_node_id e' = default "" (m !! to_node_name e)
       ∧ from_node_name e' = from_node_name e
       ∧ to_node_name e' = to_node_name e
       ∧ label e' = label e ∧ edge_type e' = edge_type e) ∧
  n = sum_list ((λ e, match m !! from_node_name e with Some _ => 0 | None => 1 end
                      + match m !! to_node_name e with Some _ => 0 | None => 1 end)
                  <$> edges g) ∧
  (nodes g' = nodes g ∧ node_name_to_id_map g' = m ∧ groups g' = groups g
   ∧ group_nodes g' = group_nodes g ∧ graph_id g' = graph_id g
   ∧ graph_type g' = graph_type g ∧ title g' = title g
   ∧ description g' = description g ∧ filename_suffix g' = filename_suffix g) ∧
  g' = set_edges (bind_edge m <$> edges g) g ∧
  (resolve_edge_node_ids g').1 = g' ∧
  resolve_graph gkey st = add_errors n (set_graphs (dict_set gkey g' (graphs st)) st) ∧
  dict_get gkey (graphs (resolve_graph gkey st)) = Some g' ∧
  num_errors (resolve_graph gkey st) = num_errors st + n ∧
  (gkey ∈ ks → dict_get gkey (graphs (resolve_graphs ks st)) = Some g') ∧
  graphs (resolve_graphs ks (resolve_graphs ks st)) = graphs (resolve_graphs ks st) ∧
  dict_keys (graphs (resolve_graphs ks st)) = dict_keys (graphs st) ∧
  resolve_graphs ks st = resolve_graphs ks' st ∧
  (∀ decode lines, edges_unresolved (graphs (process_lines decode lines initial_state))).
Proof.
  intros Hun Hg Hperm m g' n.
  assert (Hr : resolve_edge_node_ids g
               = (set_edges (bind_edge m <$> edges g) g,
                  sum_list (missing_endpoints m <$> edges g))).
  { unfold resolve_edge_node_ids. fold m.
    by rewrite (resolve_edges_unresolved m _ Hun). }
  assert (Hg' : g' = set_edges (bind_edge m <$> edges g) g)
    by (unfold g'; by rewrite Hr).
  assert (Hn : n = sum_list (missing_endpoints m <$> edges g))
    by (unfold n; by rewrite Hr).
  assert (Hst : resolve_graph gkey st
                = add_errors n (set_graphs (dict_set gkey g' (graphs st)) st))
    by (by rewrite (resolve_graph_Some _ _ _ Hg)).
  split; [rewrite Hg'; cbn [edges set_edges]; by rewrite length_fmap|].
  split.
  { intros i e He. exists (bind_edge m e). rewrite Hg'. cbn [edges set_edges].
    rewrite list_lookup_fmap, He. done. }
  split.
  { rewrite Hn. reflexivity. }
  split; [by rewrite Hg'|]. split; [done|].
  split; [apply resolve_edge_node_ids_idemp|].
  split; [done|]. split.
  { rewrite Hst. cbn [graphs add_errors set_graphs]. apply dict_get_set_eq. }
  split; [by rewrite Hst|].
  split.
  { intros Hin. rewrite resolve_graphs_lookup, decide_True, Hg by done. done. }
  split; [apply resolve_graphs_idemp|].
  split; [apply resolve_graphs_keys|].
  split; [by apply resolve_graphs_perm|].
  apply edges_unresolved_reachable.
Qed.

Lemma resolver_properties_witness :
  (λ g, (λ e, (from_node_name e, to_node_name e, from_node_id e, to_node_id e))
          <$> edges g)
    <$> dict_get "g1" (graphs (resolve_graph "g1" sample_registry))
  = Some [("A", "B", "n01", "n02"); ("B", "Z", "n02", "")]
  ∧ num_errors (resolve_graph "g1" sample_registry)
    = num_errors sample_registry + 1
  ∧ resolve_graphs ["g1"; "g2"] sample_registry
    = resolve_graphs ["g2"; "g1"] sample_registry.
Proof.
  pose proof (resolver_properties sample_graph "g1" ["g1"; "g2"] ["g2"; "g1"]
                sample_registry) as H.
  destruct H as (_ & _ & _ & _ & _ & _ & _ & H8 & H9 & _ & _ & _ & H13 & _).
  - vm_compute. repeat constructor.
  - reflexivity.
  - apply perm_swap.
  - split; [by rewrite H8|]. split; [exact H9|exact H13].
Defined.

(** ** Strings *)

Lemma app_cons c s t : String c s +:+ t = String c (s +:+ t).
Proof. reflexivity. Qed.

Lemma app_empty_l s : "" +:+ s = s.
Proof. reflexivity. Qed.

Lemma app_empty_r s : s +:+ "" = s.
Proof. induction s as [|c s IH]; [done|]. by rewrite app_cons, IH. Qed.

Lemma app_assoc_str s t u : (s +:+ t) +:+ u = s +:+ (t +:+ u).
Proof. induction s as [|c s IH]; [done|]. by rewrite !app_cons, IH. Qed.

Lemma find_zero sub s : find sub s = Some 0 ↔ String.prefix sub s = true.
Proof.
  destruct s as [|c s]; cbn [find].
  - destruct (String.prefix sub ""); split; done.
  - destruct (String.prefix sub (String c s)); [split; done|].
    split; [|done]. destruct (find sub s); done.
Qed.

Lemma match_comment_start_first delims line s e :
  match_comment_start delims line = Some (s, e) →
  ∃ pre post, delims = pre ++ (s, e) :: post
              ∧ String.prefix s line = true
              ∧ ∀ p, p ∈ pre → String.prefix p.1 line = false.
Proof.
  induction delims as [|[s0 e0] delims IH]; simpl; [done|].
  destruct (decide (find s0 line = Some 0)) as [H0|H0].
  - intros [= -> ->]. exists [], delims. split; [done|].
    split; [by apply find_zero|]. intros p Hp. by apply elem_of_nil in Hp.
  - intros H. destruct (IH H) as (pre & post & -> & Hs & Hpre).
    exists ((s0, e0) :: pre), post. split; [done|]. split; [done|].
    intros p [->|Hp]%elem_of_cons; [|by apply Hpre].
    simpl. destruct (String.prefix s0 line) eqn:E; [|done].
    by apply find_zero in E.
Qed.

(** ** The scanner and the table of delimiters *)

Lemma scan_comment_line_active bare e st :
  scan_comment_line bare (set_terminator e (set_active true st))
  = scan_map (set_active true)
      (scan_comment_line bare (set_terminator e (set_active false st))).
Proof.
  unfold scan_comment_line. destruct st as [a t j r ne nw ng gs]. cbn.
  repeat (case_decide || case_match); try done; cbn in *; congruence.
Qed.

Lemma scan_line_matched inputline st s e :
  strip inputline ≠ "" →
  match_comment_start COMMENT_DELIMITERS (strip inputline) = Some (s, e) →
  scan_line inputline st
  = scan_comment_line (strip (remove_first s (strip inputline)))
                      (set_terminator e st).
Proof. intros Hne Hm. unfold scan_line. by rewrite decide_False, Hm. Qed.

Lemma scan_line_unmatched inputline st :
  strip inputline ≠ "" →
  match_comment_start COMMENT_DELIMITERS (strip inputline) = None →
  scan_line inputline st
  = if multiline_comment_active st
    then scan_open_comment (strip inputline) st else Returned st.
Proof. intros Hne Hm. unfold scan_line. by rewrite decide_False, Hm. Qed.

(** C9, as stated, fails: a line that starts with no delimiter of the table
    closes the open comment, completes the annotation that was being read
    and registers its graph. *)
Lemma no_marker_line_counterexample :
  let st := sample_open_state in
  let st' := process_line Json.decode sample_closing_line st in
  match_comment_start COMMENT_DELIMITERS (strip sample_closing_line) = None
  ∧ multiline_comment_active st' ≠ multiline_comment_active st
  ∧ graphtag_object_json st' ≠ graphtag_object_json st
  ∧ still_reading_graphtag_object st' ≠ still_reading_graphtag_object st
  ∧ length (graphs st') ≠ length (graphs st)
  ∧ ¬ same_scanner_and_registry st st'.
Proof.
  intros st st'.
  assert (Ha : multiline_comment_active st' ≠ multiline_comment_active st)
    by (vm_compute; discriminate).
  split; [reflexivity|]. split; [exact Ha|].
  split; [vm_compute; discriminate|]. split; [vm_compute; discriminate|].
  split; [vm_compute; discriminate|].
  intros (H & _). by apply Ha.
Qed.

(** C9, amended: a line whose trimmed text starts with no delimiter of the
    table, read while no multi-line comment is open, leaves the whole state
    unchanged: the scanner state, the counters and the registry. *)
Theorem no_marker_line_closed (decode : string → option json_object)
    (inputline : string) (st : state) :
  match_comment_start COMMENT_DELIMITERS (strip inputline) = None →
  multiline_comment_active st = false →
  process_line decode inputline st = st
  ∧ same_scanner_and_registry st (process_line decode inputline st).
Proof.
  intros Hm Ha.
  assert (H : process_line decode inputline st = st).
  { unfold process_line, scan_line. case_decide; [done|]. by rewrite Hm, Ha. }
  rewrite H. by repeat split.
Qed.

Lemma no_marker_line_closed_witness :
  process_line Json.decode "  x = 1;  " initial_state = initial_state.
Proof.
  refine (proj1 (no_marker_line_closed Json.decode "  x = 1;  " initial_state _ _));
    reflexivity.
Defined.

(** C5, as stated, fails: while a multi-line comment is open, a line that
    starts with a delimiter of the table is handled as the start of a
    comment, here one that holds a whole annotation, and not by the logic
    for the open comment, which would ignore it. *)
Lemma delimiter_table_counterexample :
  let st := process_line Json.decode "/*" initial_state in
  multiline_comment_active st = true
  ∧ process_line Json.decode sample_definition_line st
    ≠ process_open_comment Json.decode sample_definition_line st
  ∧ length (graphs (process_line Json.decode sample_definition_line st)) = 1
  ∧ length (graphs (process_open_comment Json.decode sample_definition_line st)) = 0.
Proof.
  intros st. split; [reflexivity|].
  assert (H1 : length (graphs (process_line Json.decode sample_definition_line st)) = 1)
    by (vm_compute; reflexivity).
  assert (H0 : length (graphs (process_open_comment Json.decode sample_definition_line st)) = 0)
    by (vm_compute; reflexivity).
  split; [|done]. intros H. rewrite H, H0 in H1. discriminate.
Qed.

(** C5, amended: the ordered table of delimiters is consulted for every line
    that is not blank, whether or not a multi-line comment is open; the
    first pair whose starting delimiter is at position 0 of the trimmed line
    wins, and the line is then handled as a comment line in the same way
    with the comment open or closed.  The terminator search and the
    continuation logic of an open comment handle exactly the lines on which
    no pair matched. *)
Theorem delimiter_table_always_consulted (decode : string → option json_object)
    (inputline : string) (st : state) :
  let bare := strip inputline in
  bare ≠ "" →
  (∀ s e, match_comment_start COMMENT_DELIMITERS bare = Some (s, e) →
     (∃ pre post, COMMENT_DELIMITERS = pre ++ (s, e) :: post
                  ∧ find s bare = Some 0
                  ∧ ∀ p, p ∈ pre → find p.1 bare ≠ Some 0)
     ∧ scan_line inputline st
       = scan_comment_line (strip (remove_first s bare)) (set_terminator e st)
     ∧ scan_line inputline (set_active true st)
       = scan_map (set_active true) (scan_line inputline (set_active false st)))
  ∧ (match_comment_start COMMENT_DELIMITERS bare = None →
     process_line decode inputline st
     = if multiline_comment_active st
       then process_open_comment decode inputline st else st).
Proof.
  intros bare Hne. split.
  - intros s e Hm. split; [|split].
    + destruct (match_comment_start_first _ _ _ _ Hm) as (pre & post & E & Hs & Hp).
      exists pre, post. split; [done|]. split; [by apply find_zero|].
      intros p Hin H0. apply find_zero in H0. by rewrite (Hp p Hin) in H0.
    + by apply scan_line_matched.
    + rewrite !(scan_line_matched _ _ s e) by done.
      apply scan_comment_line_active.
  - intros Hm. unfold process_line, process_open_comment.
    rewrite (scan_line_unmatched _ _ Hne Hm). fold bare.
    rewrite decide_False by done. by destruct (multiline_comment_active st).
Qed.

Lemma delimiter_table_always_consulted_witness :
  let st := process_line Json.decode "/*" initial_state in
  scan_line "# note" st
  = scan_comment_line "note" (set_terminator "" st).
Proof.
  intros st.
  destruct (delimiter_table_always_consulted Json.decode "# note" st) as [H _].
  - discriminate.
  - destruct (H "#" "" eq_refl) as (_ & H2 & _). exact H2.
Defined.

(** ** The terminator of an open comment *)

Lemma remove_all_go_skip old k s :
  remove_all_go old k s = remove_all_go old 0 (drop k s).
Proof.
  revert k. induction s as [|c s IH]; intros k.
  - by destruct k.
  - destruct k as [|k]; [done|]. cbn [remove_all_go drop]. apply IH.
Qed.

Lemma prefix_not_empty old s :
  old ≠ "" → String.prefix old s = true → ∃ c s', s = String c s'.
Proof. destruct old, s; try done. eauto. Qed.

(** Removing every occurrence of a non-empty [old] keeps the text before
    its first occurrence and goes on after that occurrence. *)
Lemma remove_all_find old s pos :
  old ≠ "" → find old s = Some pos →
  remove_all old s
  = take pos s +:+ remove_all old (drop (pos + String.length old) s).
Proof.
  intros Hold. unfold remove_all. destruct old as [|o old]; [done|].
  set (t := String o old) in *. revert pos.
  induction s as [|c s IH]; intros pos; cbn [find].
  - destruct (String.prefix t "") eqn:E; [|done].
    by destruct (prefix_not_empty t "" Hold E) as (? & ? & ?).
  - destruct (String.prefix t (String c s)) eqn:E.
    + intros [= <-]. cbn [remove_all_go take]. rewrite E, app_empty_l.
      rewrite remove_all_go_skip.
      replace (0 + String.length t) with (S (String.length t - 1))
        by (subst t; simpl; lia).
      reflexivity.
    + destruct (find t s) as [p|] eqn:Ef; [|done]. intros [= <-].
      cbn [remove_all_go take drop]. rewrite E, app_cons.
      by rewrite (IH p eq_refl).
Qed.

Lemma scan_line_open_terminated inputline st pos :
  strip inputline ≠ "" →
  match_comment_start COMMENT_DELIMITERS (strip inputline) = None →
  multiline_comment_active st = true →
  find (multiline_comment_terminator st) (strip inputline) = Some pos →
  scan_line inputline st
  = let fragment :=
      strip (remove_all (multiline_comment_terminator st) (strip inputline)) in
    if still_reading_graphtag_object st
    then Scanned (append_json fragment (set_active false st)) false
    else Returned (set_active false st).
Proof.
  intros Hne Hm Ha Hf. rewrite (scan_line_unmatched _ _ Hne Hm), Ha.
  unfold scan_open_comment. by rewrite Hf.
Qed.

(** C6, as stated, fails: the fragment of a line that closes the open
    comment is not the text before the terminator; the text after the
    terminator is part of it, and here it keeps the annotation from being
    completed on this line. *)
Lemma terminator_fragment_counterexample :
  let st := sample_open_state in
  let bare := strip sample_trailing_line in
  let st' := scan_state (scan_line sample_trailing_line st) in
  multiline_comment_active st = true
  ∧ still_reading_graphtag_object st = true
  ∧ match_comment_start COMMENT_DELIMITERS bare = None
  ∧ find (multiline_comment_terminator st) bare = Some 23
  ∧ text_before_terminator bare st = "'filenamesuffix':'_s'} "
  ∧ graphtag_object_json st'
    ≠ graphtag_object_json st +:+ text_before_terminator bare st
  ∧ graphtag_object_json st'
    ≠ graphtag_object_json st +:+ strip (text_before_terminator bare st)
  ∧ graphtag_object_json st'
    = graphtag_object_json st +:+ "'filenamesuffix':'_s'}  s = "
      +:+ dq +:+ "x" +:+ dq +:+ ";"
  ∧ graphs (process_line Json.decode sample_trailing_line st) = [].
Proof.
  repeat split; try (vm_compute; reflexivity); vm_compute; discriminate.
Qed.

(** C6, amended: a line that starts no comment and holds the terminator of
    the open multi-line comment closes the comment; when an annotation is
    being read, its fragment is the trimmed line with every occurrence of
    the terminator removed, trimmed again, that is the text before the
    first terminator followed by what is left of the text after it; this
    is the text before the terminator when the terminator ends the line.
    When no annotation is being read the line contributes nothing. *)
Theorem open_comment_terminated (inputline : string) (st : state) (pos : nat) :
  let bare := strip inputline in
  let term := multiline_comment_terminator st in
  let fragment := strip (remove_all term bare) in
  bare ≠ "" →
  match_comment_start COMMENT_DELIMITERS bare = None →
  multiline_comment_active st = true →
  find term bare = Some pos →
  scan_line inputline st
  = (if still_reading_graphtag_object st
     then Scanned (append_json fragment (set_active false st)) false
     else Returned (set_active false st))
  ∧ multiline_comment_active (scan_state (scan_line inputline st)) = false
  ∧ (term ≠ "" →
     remove_all term bare
     = take pos bare +:+ remove_all term (drop (pos + String.length term) bare))
  ∧ (term ≠ "" → drop (pos + String.length term) bare = "" →
     fragment = strip (take pos bare)).
Proof.
  intros bare term fragment Hne Hm Ha Hf.
  pose proof (scan_line_open_terminated inputline st pos Hne Hm Ha Hf) as Hs.
  cbv zeta in Hs. fold bare term fragment in Hs.
  split; [exact Hs|]. split.
  { rewrite Hs. by destruct (still_reading_graphtag_object st). }
  split.
  { intros Ht. by apply remove_all_find. }
  intros Ht Hd. unfold fragment.
  rewrite (remove_all_find term bare pos Ht Hf), Hd.
  assert (remove_all term "" = "") as -> by (unfold remove_all; by destruct term).
  by rewrite app_empty_r.
Qed.

Lemma open_comment_terminated_witness :
  scan_line sample_closing_line sample_open_state
  = Scanned (append_json "'filenamesuffix':'_s'}"
               (set_active false sample_open_state)) false.
Proof.
  refine (proj1 (open_comment_terminated sample_closing_line sample_open_state 23
                   _ _ _ _)).
  - discriminate.
  - reflexivity.
  - reflexivity.
  - reflexivity.
Defined.

(** ** The normalizer *)

Lemma sanitize_quotes_length b s :
  String.length (sanitize_quotes b s) = String.length s.
Proof.
  revert b. induction s as [|c s IH]; intros b; [done|].
  cbn [sanitize_quotes].
  destruct (Ascii.eqb c "034"); [by cbn; rewrite IH|].
  destruct (Ascii.eqb c "'"); [destruct b|]; cbn; by rewrite IH.
Qed.

Lemma sanitize_quotes_get b s i c :
  String.get i s = Some c →
  String.get i (sanitize_quotes b s)
  = Some (if Ascii.eqb c "'" && negb (xorb b (inside_double_quotes s i))
          then "034"%char else c).
Proof.
  revert b i. induction s as [|c0 s IH]; intros b i; [done|].
  destruct i as [|i].
  - cbn [String.get]. intros [= ->]. unfold inside_double_quotes.
    cbn [take count_char Nat.odd sanitize_quotes]. rewrite xorb_false_r.
    destruct (Ascii.eqb c "034") eqn:E1.
    + apply Ascii.eqb_eq in E1 as ->. done.
    + destruct (Ascii.eqb c "'"); by destruct b.
  - cbn [String.get]. intros Hc.
    assert (Hin : inside_double_quotes (String c0 s) (S i)
                  = xorb (Ascii.eqb "034" c0) (inside_double_quotes s i)).
    { unfold inside_double_quotes. cbn [take count_char].
      rewrite Nat.odd_add. by destruct (Ascii.eqb "034" c0). }
    rewrite Hin. cbn [sanitize_quotes]. rewrite (Ascii.eqb_sym "034" c0).
    destruct (Ascii.eqb c0 "034") eqn:E1.
    + cbn [String.get]. rewrite (IH (negb b) i Hc).
      by destruct b, (inside_double_quotes s i).
    + assert (∀ x, String.get (S i) (String x (sanitize_quotes b s))
                   = String.get i (sanitize_quotes b s)) as Hget by done.
      destruct (Ascii.eqb c0 "'"); [destruct (negb b)|];
        rewrite Hget, (IH b i Hc); by destruct b, (inside_double_quotes s i).
Qed.

(** C2: the normalizer keeps the length of the text; at every position it
    leaves the character it found, except that a single quotation mark
    found while the flag is false, the flag being toggled by every double
    quotation mark before the position, becomes a double quotation mark.
    On the payload of the example it yields the text of the example, which
    decodes to the record with the two keys a and b. *)
Theorem normalizer_correct :
  (∀ s, String.length (sanitize_quotes false s) = String.length s)
  ∧ (∀ s i c, String.get i s = Some c →
       String.get i (sanitize_quotes false s) = Some (normalized_char s i c))
  ∧ (∀ s i, String.get i s = Some "'"%char →
       String.get i (sanitize_quotes false s)
       = Some (if inside_double_quotes s i then "'"%char else "034"%char))
  ∧ sanitize_quotes false sample_payload = sample_payload_normalized
  ∧ Json.decode (sanitize_quotes false sample_payload)
    = Some (Some (list_to_map [("a", "it's"); ("b", "c")]))
  ∧ (∀ o, Json.decode (sanitize_quotes false sample_payload) = Some o →
       get_json_value o "a" "" = "it's" ∧ get_json_value o "b" "" = "c").
Proof.
  split; [apply sanitize_quotes_length|]. split.
  { intros s i c Hc. by rewrite (sanitize_quotes_get false s i c Hc). }
  split.
  { intros s i Hc. rewrite (sanitize_quotes_get false s i _ Hc).
    by destruct (inside_double_quotes s i). }
  split; [vm_compute; reflexivity|].
  assert (Hd : Json.decode (sanitize_quotes false sample_payload)
               = Some (Some (list_to_map [("a", "it's"); ("b", "c")])))
    by (vm_compute; reflexivity).
  split; [exact Hd|].
  intros o Ho. rewrite Hd in Ho. injection Ho as <-.
  split; vm_compute; reflexivity.
Qed.

(** ** Trimming *)

Lemma rstrip_cons c s :
  isspace c = false → rstrip (String c s) = String c (rstrip s).
Proof. intros H. cbn [rstrip]. rewrite H. by destruct (rstrip s). Qed.

Lemma rstrip_idemp s : rstrip (rstrip s) = rstrip s.
Proof.
  induction s as [|c s IH]; [done|]. cbn [rstrip].
  destruct (rstrip s) as [|d r] eqn:E.
  - destruct (isspace c) eqn:Ec; [done|]. cbn [rstrip]. by rewrite Ec.
  - cbn [rstrip]. cbn [rstrip] in IH. by rewrite IH.
Qed.

Lemma lstrip_rstrip s : lstrip (rstrip s) = rstrip (lstrip s).
Proof.
  induction s as [|c s IH]; [done|].
  destruct (isspace c) eqn:Ec.
  - cbn [lstrip]. rewrite Ec, <- IH. cbn [rstrip]. rewrite Ec.
    destruct (rstrip s) as [|d r]; [done|]. cbn [lstrip]. by rewrite Ec.
  - rewrite (rstrip_cons c s Ec). cbn [lstrip]. rewrite Ec.
    by rewrite (rstrip_cons c s Ec).
Qed.

Lemma strip_rstrip s : strip (rstrip s) = strip s.
Proof. unfold strip. by rewrite lstrip_rstrip, rstrip_idemp. Qed.

Lemma strip_space c s : isspace c = true → strip (String c s) = strip s.
Proof. intros H. unfold strip. cbn [lstrip]. by rewrite H. Qed.

Lemma strip_cons c s :
  isspace c = false → strip (String c s) = String c (rstrip s).
Proof. intros H. unfold strip. cbn [lstrip]. rewrite H. by apply rstrip_cons. Qed.

Lemma lstrip_length s : String.length (lstrip s) ≤ String.length s.
Proof.
  induction s as [|c s IH]; [done|]. cbn [lstrip].
  destruct (isspace c); simpl in *; lia.
Qed.

Lemma rstrip_length s : String.length (rstrip s) ≤ String.length s.
Proof.
  induction s as [|c s IH]; [done|]. cbn [rstrip].
  destruct (rstrip s); [destruct (isspace c)|]; simpl in *; lia.
Qed.

(** A text that trimming leaves alone is left alone on both sides. *)
Lemma strip_fixed s : strip s = s → lstrip s = s ∧ rstrip s = s.
Proof.
  intros H. assert (Hl : lstrip s = s).
  { destruct s as [|c s]; [done|]. cbn [lstrip].
    destruct (isspace c) eqn:Ec; [|done]. exfalso.
    apply (f_equal String.length) in H. unfold strip in H.
    cbn [lstrip] in H. rewrite Ec in H.
    pose proof (rstrip_length (lstrip s)). pose proof (lstrip_length s).
    simpl in H. lia. }
  split; [done|]. unfold strip in H. by rewrite Hl in H.
Qed.

Lemma rstrip_fixed_tail c s : rstrip (String c s) = String c s → rstrip s = s.
Proof.
  cbn [rstrip]. destruct (rstrip s) as [|d r] eqn:E.
  - destruct (isspace c); [done|]. by intros [= <-].
  - by intros [= <-].
Qed.

Lemma lstrip_app a b : lstrip a = a → lstrip b = b → lstrip (a +:+ b) = a +:+ b.
Proof.
  destruct a as [|c a]; [done|]. rewrite app_cons. cbn [lstrip].
  destruct (isspace c) eqn:Ec; [|done]. intros H _. exfalso.
  apply (f_equal String.length) in H. pose proof (lstrip_length a).
  simpl in H. lia.
Qed.

Lemma rstrip_app a b : rstrip a = a → rstrip b = b → rstrip (a +:+ b) = a +:+ b.
Proof.
  intros Ha Hb. induction a as [|c a IH]; [done|].
  specialize (IH (rstrip_fixed_tail _ _ Ha)).
  rewrite app_cons. cbn [rstrip]. rewrite IH.
  destruct (a +:+ b) as [|d r] eqn:E; [|done].
  destruct a; [|done]. rewrite app_empty_l in E. subst b.
  cbn [rstrip] in Ha. by destruct (isspace c).
Qed.

Lemma strip_app a b : strip a = a → strip b = b → strip (a +:+ b) = a +:+ b.
Proof.
  intros [Ha1 Ha2]%strip_fixed [Hb1 Hb2]%strip_fixed. unfold strip.
  rewrite lstrip_app by done. by apply rstrip_app.
Qed.

Lemma strip_concat_str fs :
  Forall (λ f, strip f = f) fs → strip (concat_str fs) = concat_str fs.
Proof.
  induction 1 as [|f fs Hf _ IH]; [done|]. simpl. by apply strip_app.
Qed.

Lemma prefix_app_self p s : String.prefix p (p +:+ s) = true.
Proof.
  induction p as [|c p IH]; [by destruct s|].
  rewrite app_cons. cbn [String.prefix]. by destruct (ascii_dec c c).
Qed.

Lemma drop_app_length p s : drop (String.length p) (p +:+ s) = s.
Proof. induction p as [|c p IH]; [by destruct s|]. by rewrite app_cons. Qed.

Lemma remove_first_prefix p s : remove_first p (p +:+ s) = s.
Proof.
  destruct (p +:+ s) as [|c r] eqn:E; cbn [remove_first]; rewrite <- E.
  - by rewrite prefix_app_self, drop_app_length.
  - by rewrite prefix_app_self, drop_app_length.
Qed.

(** ** Lines of a single-line comment *)

Lemma strip_single_line start x :
  start ∈ ["//"; "#"] → strip (start +:+ x) = start +:+ rstrip x.
Proof.
  intros [->|[->|[]%elem_of_nil]%elem_of_cons]%elem_of_cons.
  - change ("//" +:+ x) with (String "/" (String "/" x)).
    rewrite strip_cons by done. by rewrite rstrip_cons by done.
  - change ("#" +:+ x) with (String "#" x). by rewrite strip_cons by done.
Qed.

Lemma match_single_line start y :
  start ∈ ["//"; "#"] →
  start +:+ y ≠ ""
  ∧ match_comment_start COMMENT_DELIMITERS (start +:+ y) = Some (start, "").
Proof.
  intros [->|[->|[]%elem_of_nil]%elem_of_cons]%elem_of_cons.
  - change ("//" +:+ y) with (String "/" (String "/" y)). split; [done|].
    unfold COMMENT_DELIMITERS. cbn [match_comment_start fst].
    rewrite decide_False by (rewrite find_zero; by cbn).
    by rewrite decide_True by (rewrite find_zero; cbn; by destruct y).
  - change ("#" +:+ y) with (String "#" y). split; [done|].
    unfold COMMENT_DELIMITERS. cbn [match_comment_start fst].
    rewrite decide_False by (rewrite find_zero; by cbn).
    rewrite decide_False by (rewrite find_zero; by cbn).
    by rewrite decide_True by (rewrite find_zero; cbn; by destruct y).
Qed.

Lemma strip_graphtag x : strip (GRAPHTAG +:+ x) = GRAPHTAG +:+ rstrip x.
Proof.
  change (GRAPHTAG +:+ x)
    with (String "@" (String "@" (String "g" (String "r" (String "a"
            (String "p" (String "h" x))))))).
  rewrite strip_cons by done. by rewrite !rstrip_cons by done.
Qed.

Lemma strip_space_app x : strip (" " +:+ x) = strip x.
Proof. change (" " +:+ x) with (String " " x). by apply strip_space. Qed.

(** The line that starts an annotation seeds the accumulator with its
    fragment. *)
Lemma scan_graphtag_line start f st :
  start ∈ ["//"; "#"] → strip f = f →
  scan_line (graphtag_line start f) st
  = Scanned (set_json f (set_terminator "" st)) true.
Proof.
  intros Hs Hf. unfold scan_line, graphtag_line.
  rewrite (strip_single_line _ _ Hs).
  destruct (match_single_line start (rstrip (" " +:+ GRAPHTAG +:+ " " +:+ f)) Hs)
    as [Hne ->].
  rewrite decide_False by done.
  rewrite remove_first_prefix, strip_rstrip, strip_space_app, strip_graphtag.
  unfold scan_comment_line.
  rewrite bool_decide_eq_true_2 by (apply find_zero, prefix_app_self).
  rewrite remove_first_prefix, strip_rstrip, strip_space_app, Hf.
  by rewrite decide_True by done.
Qed.

(** A further line appends its fragment when an annotation is being read. *)
Lemma scan_fragment_line start f st :
  start ∈ ["//"; "#"] → strip f = f → String.prefix GRAPHTAG f = false →
  scan_line (fragment_line start f) st
  = if still_reading_graphtag_object st
    then Scanned (append_json f (set_terminator "" st)) false
    else Returned (set_terminator "" st).
Proof.
  intros Hs Hf Hp. unfold scan_line, fragment_line.
  rewrite (strip_single_line _ _ Hs).
  destruct (match_single_line start (rstrip (" " +:+ f)) Hs) as [Hne ->].
  rewrite decide_False by done.
  rewrite remove_first_prefix, strip_rstrip, strip_space_app, Hf.
  unfold scan_comment_line.
  rewrite bool_decide_eq_false_2 by (rewrite find_zero; by rewrite Hp).
  by rewrite decide_True by done.
Qed.

(** ** The assembler *)

Lemma assemble_continue decode st :
  assemble decode false (set_still_reading true st) = assemble decode true st.
Proof.
  unfold assemble. destruct st as [a t j r ne nw ng gs]. cbn.
  case_decide; [done|]. by destruct (close_brace j).
Qed.

Lemma assemble_open decode st :
  close_brace (graphtag_object_json st) = None →
  assemble decode true st = set_still_reading true st.
Proof. intros H. unfold assemble. rewrite H. by case_decide. Qed.

(** ** An annotation split across lines *)

(** The lines that follow the first line of an annotation append their
    fragments to the accumulator, as long as the text read so far holds
    no closing brace that ends the annotation. *)
Lemma process_fragment_lines decode (mk : string → string) (ok : string → Prop)
    (s1 : state) fs acc :
  (∀ f acc, ok f →
     scan_line (mk f) (set_still_reading true (set_json acc s1))
     = Scanned (set_still_reading true (set_json (acc +:+ f) s1)) false) →
  Forall ok fs →
  (∀ k, k < length fs → close_brace (acc +:+ concat_str (firstn k fs)) = None) →
  process_lines decode (mk <$> fs) (assemble decode true (set_json acc s1))
  = assemble decode true (set_json (acc +:+ concat_str fs) s1).
Proof.
  intros Hscan Hok. revert acc.
  induction Hok as [|f fs Hf _ IH]; intros acc Hclose.
  - simpl. by rewrite app_empty_r.
  - assert (H0 : close_brace acc = None).
    { specialize (Hclose 0 ltac:(simpl; lia)). simpl in Hclose.
      by rewrite app_empty_r in Hclose. }
    rewrite assemble_open by (by destruct s1).
    change (process_lines decode (mk <$> f :: fs) ?s)
      with (process_lines decode (mk <$> fs) (process_line decode (mk f) s)).
    unfold process_line at 1. rewrite (Hscan f acc Hf).
    rewrite assemble_continue, (IH (acc +:+ f)).
    + simpl. by rewrite app_assoc_str.
    + intros k Hk. specialize (Hclose (S k) ltac:(simpl; lia)).
      simpl in Hclose. by rewrite app_assoc_str.
Qed.

Lemma scan_fragment_line_reading start f acc st :
  start ∈ ["//"; "#"] →
  strip f = f ∧ String.prefix GRAPHTAG f = false →
  scan_line (fragment_line start f)
    (set_still_reading true (set_json acc (set_terminator "" st)))
  = Scanned (set_still_reading true
               (set_json (acc +:+ f) (set_terminator "" st))) false.
Proof.
  intros Hs [Hf Hp]. rewrite (scan_fragment_line _ _ _ Hs Hf Hp).
  by destruct st.
Qed.

(** ** Lines of a block comment *)

Lemma scan_block_graphtag_line f st :
  strip f = f → find "*/" f = None →
  still_reading_graphtag_object st = false →
  scan_line (block_graphtag_line f) st
  = Scanned (set_json f (set_active true (set_terminator "*/" st))) true.
Proof.
  intros Hf Ht Hr. unfold scan_line, block_graphtag_line.
  change ("/*" +:+ ?x) with (String "/" (String "*" x)).
  rewrite strip_cons by done. rewrite rstrip_cons by done.
  rewrite decide_False by done.
  unfold COMMENT_DELIMITERS. cbn [match_comment_start fst].
  rewrite decide_True
    by (rewrite find_zero; cbn; by destruct (rstrip _)).
  change (String "/" (String "*" ?x)) with ("/*" +:+ x).
  rewrite remove_first_prefix, strip_rstrip, strip_space_app, strip_graphtag.
  unfold scan_comment_line.
  rewrite bool_decide_eq_true_2 by (apply find_zero, prefix_app_self).
  rewrite remove_first_prefix, strip_rstrip, strip_space_app, Hf.
  cbn [multiline_comment_terminator set_terminator].
  rewrite decide_False by done. rewrite Ht.
  cbn [still_reading_graphtag_object set_active set_terminator]. rewrite Hr.
  by destruct st.
Qed.

Lemma scan_block_fragment_line f acc st :
  strip f = f ∧ f ≠ ""
  ∧ match_comment_start COMMENT_DELIMITERS f = None ∧ find "*/" f = None →
  scan_line (block_fragment_line f)
    (set_still_reading true
       (set_json acc (set_active true (set_terminator "*/" st))))
  = Scanned (set_still_reading true
               (set_json (acc +:+ f)
                  (set_active true (set_terminator "*/" st)))) false.
Proof.
  intros (Hf & Hne & Hm & Ht). unfold scan_line, block_fragment_line.
  change ("    " +:+ f) with (String " " (String " " (String " " (String " " f)))).
  rewrite !strip_space by done. rewrite Hf, Hm.
  rewrite decide_False by done.
  cbn [multiline_comment_active set_still_reading set_json set_active].
  unfold scan_open_comment.
  cbn [multiline_comment_terminator set_still_reading set_json set_active
       set_terminator].
  rewrite Ht. by destruct st.
Qed.

(** C1, as stated, fails: a payload with its closing brace outside every
    quoted text, split inside a quoted value at a space, loses that space,
    because every fragment is trimmed before it is appended; the graph gets
    another title than from the payload on one line. *)
Lemma split_annotation_counterexample :
  let payload := concat_str sample_fragments in
  let split :=
    process_lines Json.decode (annotation_lines "//" sample_fragments) initial_state in
  let single :=
    process_line Json.decode (graphtag_line "//" payload) initial_state in
  close_brace payload = Some payload
  ∧ title <$> dict_get "g1" (graphs split) = Some "mytitle"
  ∧ title <$> dict_get "g1" (graphs single) = Some "my title"
  ∧ graphs split ≠ graphs single.
Proof.
  intros payload split single.
  assert (H1 : title <$> dict_get "g1" (graphs split) = Some "mytitle")
    by (vm_compute; reflexivity).
  assert (H2 : title <$> dict_get "g1" (graphs single) = Some "my title")
    by (vm_compute; reflexivity).
  split; [vm_compute; reflexivity|]. split; [done|]. split; [done|].
  intros H. rewrite H, H2 in H1. discriminate.
Qed.

(** Fragments that are trimmed do not suffice: when the text read so far
    ends in a closing brace that no double quotation mark follows, here a
    brace inside a quoted value, the annotation is handed to the decoder
    early and is rejected, while the payload on one line is accepted. *)
Lemma split_annotation_early_brace :
  let payload := concat_str sample_fragments_brace in
  let split :=
    process_lines Json.decode (annotation_lines "//" sample_fragments_brace)
                  initial_state in
  let single :=
    process_line Json.decode (graphtag_line "//" payload) initial_state in
  Forall (λ f, strip f = f) sample_fragments_brace
  ∧ (num_errors split, length (graphs split)) = (1, 0)
  ∧ (num_errors single, length (graphs single)) = (0, 1).
Proof.
  split; [repeat constructor|]. split; vm_compute; reflexivity.
Qed.

(** *** Lines as a file has them *)

Lemma comment_fragment_text end_delim inputline text :
  comment_fragment end_delim inputline = Some text →
  comment_text inputline = Some (text, end_delim).
Proof.
  unfold comment_fragment.
  destruct (comment_text inputline) as [[t e]|]; [|done]. cbn.
  case_decide; [|done]. intros [= ->]. by subst.
Qed.

Lemma marker_fragment_text end_delim inputline f :
  marker_fragment end_delim inputline = Some f →
  ∃ text, comment_text inputline = Some (text, end_delim)
          ∧ marker_text text = Some f.
Proof.
  unfold marker_fragment.
  destruct (comment_fragment end_delim inputline) as [text|] eqn:E; [|done].
  cbn. intros H. exists text. split; [by apply comment_fragment_text|done].
Qed.

(** A comment line is handled by the branch for comment lines, with its
    text and the terminating delimiter of its comment. *)
Lemma scan_line_comment_text inputline text end_delim st :
  comment_text inputline = Some (text, end_delim) →
  scan_line inputline st = scan_comment_line text (set_terminator end_delim st).
Proof.
  unfold comment_text, scan_line. cbv zeta.
  case_decide; [done|].
  destruct (match_comment_start COMMENT_DELIMITERS (strip inputline))
    as [[start_delim e]|]; [|done].
  cbn. by intros [= <- <-].
Qed.

Lemma scan_comment_marker text f st :
  marker_text text = Some f → multiline_comment_terminator st = "" →
  scan_comment_line text st = Scanned (set_json f st) true.
Proof.
  unfold marker_text, scan_comment_line. case_decide as Hm; [|done].
  intros [= <-] Ht. rewrite bool_decide_eq_true_2 by done.
  by rewrite decide_True by done.
Qed.

Lemma scan_comment_fragment text st :
  String.prefix GRAPHTAG text = false → multiline_comment_terminator st = "" →
  scan_comment_line text st
  = if still_reading_graphtag_object st
    then Scanned (append_json text st) false else Returned st.
Proof.
  intros Hp Ht. unfold scan_comment_line.
  rewrite bool_decide_eq_false_2 by (rewrite find_zero; by rewrite Hp).
  by rewrite decide_True by done.
Qed.

Lemma scan_comment_block_marker text f st :
  marker_text text = Some f → multiline_comment_terminator st = "*/" →
  find "*/" f = None → still_reading_graphtag_object st = false →
  scan_comment_line text st = Scanned (set_json f (set_active true st)) true.
Proof.
  unfold marker_text, scan_comment_line. case_decide as Hm; [|done].
  intros [= <-] Ht Hf Hr. rewrite bool_decide_eq_true_2 by done.
  rewrite Ht. rewrite decide_False by done. rewrite Hf.
  cbn [still_reading_graphtag_object set_active]. by rewrite Hr.
Qed.

Lemma scan_block_continuation inputline f acc st :
  strip inputline = f ∧ f ≠ ""
  ∧ match_comment_start COMMENT_DELIMITERS f = None ∧ find "*/" f = None →
  scan_line inputline
    (set_still_reading true
       (set_json acc (set_active true (set_terminator "*/" st))))
  = Scanned (set_still_reading true
               (set_json (acc +:+ f)
                  (set_active true (set_terminator "*/" st)))) false.
Proof.
  intros (Hf & Hne & Hm & Ht). unfold scan_line. rewrite Hf, Hm.
  rewrite decide_False by done.
  cbn [multiline_comment_active set_still_reading set_json set_active].
  unfold scan_open_comment.
  cbn [multiline_comment_terminator set_still_reading set_json set_active
       set_terminator].
  rewrite Ht. by destruct st.
Qed.

Lemma scan_single_continuation inputline f acc st :
  comment_fragment "" inputline = Some f ∧ String.prefix GRAPHTAG f = false →
  scan_line inputline
    (set_still_reading true (set_json acc (set_terminator "" st)))
  = Scanned (set_still_reading true
               (set_json (acc +:+ f) (set_terminator "" st))) false.
Proof.
  intros [Hc Hp]. apply comment_fragment_text in Hc.
  rewrite (scan_line_comment_text _ _ _ _ Hc).
  rewrite scan_comment_fragment by (done || by destruct st).
  by destruct st.
Qed.

Lemma scan_comment_closed_marker text t f st :
  marker_text text = Some t → closed_comment_fragment t = Some f →
  multiline_comment_terminator st = "*/" →
  scan_comment_line text st = Scanned (set_json f st) true.
Proof.
  unfold marker_text, closed_comment_fragment, scan_comment_line.
  case_decide as Hm; [|done]. intros [= <-] Hf Ht.
  rewrite bool_decide_eq_true_2 by done.
  rewrite Ht. rewrite decide_False by done.
  destruct (find "*/" (strip (remove_first GRAPHTAG text))); [|done].
  by injection Hf as <-.
Qed.

Lemma scan_closed_continuation inputline f acc st :
  (∃ text, comment_fragment "*/" inputline = Some text
           ∧ String.prefix GRAPHTAG text = false
           ∧ closed_comment_fragment text = Some f) →
  scan_line inputline
    (set_still_reading true (set_json acc (set_terminator "*/" st)))
  = Scanned (set_still_reading true
               (set_json (acc +:+ f) (set_terminator "*/" st))) false.
Proof.
  intros (text & Hc & Hp & Hf). apply comment_fragment_text in Hc.
  rewrite (scan_line_comment_text _ _ _ _ Hc).
  unfold scan_comment_line, closed_comment_fragment in *.
  rewrite bool_decide_eq_false_2 by (rewrite find_zero; by rewrite Hp).
  cbn [multiline_comment_terminator set_terminator].
  rewrite decide_False by done.
  destruct (find "*/" text); [|done]. injection Hf as <-.
  by destruct st.
Qed.

(** The lines that follow the first line of an annotation append their
    fragments to the accumulator, as long as the text read so far holds
    no closing brace that ends the annotation. *)
Lemma process_related_lines decode (R : string → string → Prop)
    (s1 : state) inputlines fs acc :
  (∀ l f acc, R l f →
     scan_line l (set_still_reading true (set_json acc s1))
     = Scanned (set_still_reading true (set_json (acc +:+ f) s1)) false) →
  Forall2 R inputlines fs →
  (∀ k, k < length fs → close_brace (acc +:+ concat_str (firstn k fs)) = None) →
  process_lines decode inputlines (assemble decode true (set_json acc s1))
  = assemble decode true (set_json (acc +:+ concat_str fs) s1).
Proof.
  intros Hscan Hrel. revert acc.
  induction Hrel as [|l f ls fs Hlf _ IH]; intros acc Hclose.
  - simpl. by rewrite app_empty_r.
  - assert (H0 : close_brace acc = None).
    { specialize (Hclose 0 ltac:(simpl; lia)). simpl in Hclose.
      by rewrite app_empty_r in Hclose. }
    rewrite assemble_open by (by destruct s1).
    change (process_lines decode (l :: ls) ?s)
      with (process_lines decode ls (process_line decode l s)).
    unfold process_line at 1. rewrite (Hscan l f acc Hlf).
    rewrite assemble_continue, (IH (acc +:+ f)).
    + simpl. by rewrite app_assoc_str.
    + intros k Hk. specialize (Hclose (S k) ltac:(simpl; lia)).
      simpl in Hclose. by rewrite app_assoc_str.
Qed.

(** C1, amended: an annotation payload split across N lines, the first line
    carrying the marker, is read as the same payload given on one line, and
    so handed to the decoder as the same text, when the fragments are the
    trimmed texts of the lines and the text of the first k fragments, for
    0 < k < N, holds no closing brace that no double quotation mark
    follows.  The lines are lines as a file has them: whatever whitespace
    surrounds the line, the delimiter, the marker and the text.  This holds
    for the lines of single-line comments, of either kind on each line,
    whose fragments after the first do not start with the marker, for the
    lines of a block comment opened while no annotation is being read,
    whose text holds no terminator and whose lines after the first are not
    blank and start no comment, and for lines that are each a block comment
    ended on the line, whose texts after the first do not start with the
    marker.  The scanner state, the counters and the registry are then the
    same after the N lines as after the one line. *)
Theorem split_annotation_lines (decode : string → option json_object)
    (fragment : string) (fragments : list string)
    (inputline : string) (inputlines : list string) (single_line : string)
    (st : state) :
  let payload := concat_str (fragment :: fragments) in
  (∀ k, 0 < k < length (fragment :: fragments) →
        close_brace (concat_str (firstn k (fragment :: fragments))) = None) →
  (marker_fragment "" inputline = Some fragment →
   Forall2 (λ l f, comment_fragment "" l = Some f
                   ∧ String.prefix GRAPHTAG f = false)
           inputlines fragments →
   marker_fragment "" single_line = Some payload →
   process_lines decode (inputline :: inputlines) st
   = process_line decode single_line st
   ∧ ∀ closed, close_brace payload = Some closed →
       process_lines decode (inputline :: inputlines) st
       = set_json ""
           (process_json decode (strip closed)
              (set_still_reading false
                 (set_json (strip closed) (set_terminator "" st)))))
  ∧ (still_reading_graphtag_object st = false →
     marker_fragment "*/" inputline = Some fragment →
     find "*/" fragment = None →
     Forall2 (λ l f, strip l = f ∧ f ≠ ""
                     ∧ match_comment_start COMMENT_DELIMITERS f = None
                     ∧ find "*/" f = None)
             inputlines fragments →
     marker_fragment "*/" single_line = Some payload →
     find "*/" payload = None →
     process_lines decode (inputline :: inputlines) st
     = process_line decode single_line st)
  ∧ (marker_fragment "*/" inputline ≫= closed_comment_fragment = Some fragment →
     Forall2 (λ l f, ∃ text, comment_fragment "*/" l = Some text
                             ∧ String.prefix GRAPHTAG text = false
                             ∧ closed_comment_fragment text = Some f)
             inputlines fragments →
     marker_fragment "*/" single_line ≫= closed_comment_fragment = Some payload →
     process_lines decode (inputline :: inputlines) st
     = process_line decode single_line st).
Proof.
  intros payload Hclose.
  assert (Hclose' : ∀ k, k < length fragments →
            close_brace (fragment +:+ concat_str (firstn k fragments)) = None).
  { intros k Hk. apply (Hclose (S k)). simpl. lia. }
  split; [|split].
  - intros Hl Hls Hs.
    destruct (marker_fragment_text _ _ _ Hl) as (text & Hct & Hmt).
    destruct (marker_fragment_text _ _ _ Hs) as (text' & Hct' & Hmt').
    assert (Hsingle : process_line decode single_line st
                      = assemble decode true
                          (set_json payload (set_terminator "" st))).
    { unfold process_line. rewrite (scan_line_comment_text _ _ _ _ Hct').
      by rewrite (scan_comment_marker _ _ _ Hmt'). }
    assert (Hsplit : process_lines decode (inputline :: inputlines) st
                     = assemble decode true
                         (set_json payload (set_terminator "" st))).
    { change (process_lines decode (inputline :: inputlines) st)
        with (process_lines decode inputlines (process_line decode inputline st)).
      unfold process_line at 1. rewrite (scan_line_comment_text _ _ _ _ Hct).
      rewrite (scan_comment_marker _ _ _ Hmt) by done.
      apply (process_related_lines decode
               (λ l f, comment_fragment "" l = Some f
                       ∧ String.prefix GRAPHTAG f = false)); [|done|done].
      intros l f acc Hlf. by apply scan_single_continuation. }
    split; [by rewrite Hsplit, Hsingle|].
    intros closed Hc. rewrite Hsplit. unfold assemble.
    cbn [graphtag_object_json set_json]. rewrite Hc.
    rewrite decide_False; [done|]. intros E. by rewrite E in Hc.
  - intros Hr Hl Hterm Hls Hs Hpterm.
    destruct (marker_fragment_text _ _ _ Hl) as (text & Hct & Hmt).
    destruct (marker_fragment_text _ _ _ Hs) as (text' & Hct' & Hmt').
    unfold process_line. rewrite (scan_line_comment_text _ _ _ _ Hct').
    rewrite (scan_comment_block_marker _ _ _ Hmt') by done.
    change (process_lines decode (inputline :: inputlines) st)
      with (process_lines decode inputlines (process_line decode inputline st)).
    unfold process_line at 1. rewrite (scan_line_comment_text _ _ _ _ Hct).
    rewrite (scan_comment_block_marker _ _ _ Hmt) by done.
    apply (process_related_lines decode
             (λ l f, strip l = f ∧ f ≠ ""
                     ∧ match_comment_start COMMENT_DELIMITERS f = None
                     ∧ find "*/" f = None)); [|done|done].
    intros l f acc Hlf. by apply scan_block_continuation.
  - intros Hl Hls Hs.
    destruct (marker_fragment "*/" inputline) as [t|] eqn:El; [|done].
    destruct (marker_fragment "*/" single_line) as [t'|] eqn:Es; [|done].
    cbn in Hl, Hs.
    destruct (marker_fragment_text _ _ _ El) as (text & Hct & Hmt).
    destruct (marker_fragment_text _ _ _ Es) as (text' & Hct' & Hmt').
    unfold process_line. rewrite (scan_line_comment_text _ _ _ _ Hct').
    rewrite (scan_comment_closed_marker _ _ _ _ Hmt' Hs) by done.
    change (process_lines decode (inputline :: inputlines) st)
      with (process_lines decode inputlines (process_line decode inputline st)).
    unfold process_line at 1. rewrite (scan_line_comment_text _ _ _ _ Hct).
    rewrite (scan_comment_closed_marker _ _ _ _ Hmt Hl) by done.
    apply (process_related_lines decode
             (λ l f, ∃ text, comment_fragment "*/" l = Some text
                             ∧ String.prefix GRAPHTAG text = false
                             ∧ closed_comment_fragment text = Some f));
      [|done|done].
    intros l f acc Hlf. by apply scan_closed_continuation.
Qed.

Lemma split_annotation_lines_witness :
  process_lines Json.decode sample_file_lines initial_state
  = process_line Json.decode
      (String "009" "# @@graph " +:+ concat_str sample_fragments_trimmed +:+ nl)
      initial_state
  ∧ process_lines Json.decode sample_file_block_lines initial_state
    = process_line Json.decode
        ("  /* @@graph   " +:+ concat_str sample_fragments_trimmed +:+ nl)
        initial_state
  ∧ process_lines Json.decode sample_file_closed_lines initial_state
    = process_line Json.decode
        ("/* @@graph " +:+ concat_str sample_fragments_trimmed +:+ " */" +:+ nl)
        initial_state.
Proof.
  split; [|split].
  - refine (proj1 (proj1 (split_annotation_lines Json.decode
              "{'command':'definition','graphtype':'code',"
              ["'graphid':'g1','title':'my title',";
               "'description':'D','filenamesuffix':'_s'}"]
              _ [_; _] _ initial_state _) _ _ _)).
    + intros k [H1 H2]. destruct k as [|[|[|k]]]; [lia|reflexivity|reflexivity|].
      simpl in H2. lia.
    + vm_compute. reflexivity.
    + repeat constructor; vm_compute; reflexivity.
    + vm_compute. reflexivity.
  - refine (proj1 (proj2 (split_annotation_lines Json.decode
              "{'command':'definition','graphtype':'code',"
              ["'graphid':'g1','title':'my title',";
               "'description':'D','filenamesuffix':'_s'}"]
              _ [_; _] _ initial_state _)) _ _ _ _ _ _).
    + intros k [H1 H2]. destruct k as [|[|[|k]]]; [lia|reflexivity|reflexivity|].
      simpl in H2. lia.
    + reflexivity.
    + vm_compute. reflexivity.
    + vm_compute. reflexivity.
    + repeat constructor; try (vm_compute; reflexivity); discriminate.
    + vm_compute. reflexivity.
    + vm_compute. reflexivity.
  - refine (proj2 (proj2 (split_annotation_lines Json.decode
              "{'command':'definition','graphtype':'code',"
              ["'graphid':'g1','title':'my title',";
               "'description':'D','filenamesuffix':'_s'}"]
              _ [_; _] _ initial_state _)) _ _ _).
    + intros k [H1 H2]. destruct k as [|[|[|k]]]; [lia|reflexivity|reflexivity|].
      simpl in H2. lia.
    + vm_compute. reflexivity.
    + constructor; [|constructor; [|constructor]].
      * eexists. split; [vm_compute; reflexivity|].
        split; vm_compute; reflexivity.
      * eexists. split; [vm_compute; reflexivity|].
        split; vm_compute; reflexivity.
    + vm_compute. reflexivity.
Defined.


(** * Further properties *)

(** ** The outcome of [process_json] *)

Lemma process_json_cases decode inputjson st :
  (∃ o gs', decode (sanitize_quotes false inputjson) = Some o
            ∧ process_json_object (graphs st) o = Ok gs'
            ∧ process_json decode inputjson st = set_graphs gs' (count_graphtag st))
  ∨ process_json decode inputjson st = write_error_msg (count_graphtag st).
Proof.
  unfold process_json, process_json_try. cbn.
  destruct (decode _) as [o|] eqn:Ed; [|by right].
  destruct (process_json_object (graphs st) o) as [gs|e] eqn:E; [|by right].
  left. by exists o, gs.
Qed.

(** X1: on an annotation that keeps to the declared types, that is, when
    the decoder raises on its text or returns [None] or a [dict] of [str],
    [process_json] counts one tag, leaves the scanner state and the warning
    counter alone, and either accepts the annotation, with the error counter
    unchanged and one step of the registry, or rejects it, with one more
    error and the registry unchanged. *)
Theorem process_json_outcome (loads : string → option json_value)
    (inputjson : string) (st : state) :
  typed_annotation loads inputjson →
  let st' := process_json (record_decoder loads) inputjson st in
  multiline_comment_active st' = multiline_comment_active st
  ∧ multiline_comment_terminator st' = multiline_comment_terminator st
  ∧ graphtag_object_json st' = graphtag_object_json st
  ∧ still_reading_graphtag_object st' = still_reading_graphtag_object st
  ∧ num_warnings st' = num_warnings st
  ∧ num_graphtags st' = num_graphtags st + 1
  ∧ ((num_errors st' = num_errors st
      ∧ registry_step (graphs st) (graphs st'))
     ∨ (num_errors st' = num_errors st + 1 ∧ graphs st' = graphs st)).
Proof.
  intros _ st'. unfold st'.
  destruct (process_json_cases (record_decoder loads) inputjson st)
    as [(o & gs' & _ & Ho & ->)| ->].
  - repeat split; try done. left. split; [done|].
    by apply (process_json_object_step _ o).
  - repeat split; try done. by right.
Qed.

Lemma process_json_outcome_witness :
  let st := process_lines Json.decode sample_lines initial_state in
  let st' := process_json (record_decoder sample_loads) sample_undefined_json st in
  typed_annotation sample_loads sample_undefined_json
  ∧ num_graphtags st' = num_graphtags st + 1.
Proof.
  intros st st'.
  assert (H : typed_annotation sample_loads sample_undefined_json)
    by (vm_compute; eauto).
  split; [exact H|].
  exact (proj1 (proj2 (proj2 (proj2 (proj2 (proj2
           (process_json_outcome sample_loads sample_undefined_json st H))))))).
Defined.

Lemma not_both_ne (s a b : string) : ¬ (s ≠ a ∧ s ≠ b) → s = a ∨ s = b.
Proof.
  intros H. destruct (decide (s = a)); [by left|].
  destruct (decide (s = b)); [by right|]. exfalso. by apply H.
Qed.

Lemma process_definition_valid graphs o :
  definition_valid o →
  process_definition graphs o
  = Ok (dict_set (get_json_value o "graphid" "") (defined_graph o) graphs).
Proof.
  intros (Hty & Hid & Ht & Hd & Hf). unfold process_definition. cbv zeta.
  rewrite !raise_if_bind.
  rewrite decide_False by (intros E; rewrite E in Hty; by destruct Hty).
  rewrite decide_False by (intros [H1 H2]; by destruct Hty).
  by rewrite !decide_False by done.
Qed.

Lemma process_definition_invalid graphs o :
  ¬ definition_valid o → ∃ e, process_definition graphs o = Raise e.
Proof.
  intros Hn. unfold process_definition. cbv zeta. rewrite !raise_if_bind.
  destruct (decide (get_json_value o "graphtype" "" = "")); [eauto|].
  destruct (decide (get_json_value o "graphtype" "" ≠ GRAPHTYPE_CODE
                    ∧ get_json_value o "graphtype" "" ≠ GRAPHTYPE_WORKFLOW))
    as [|Hty%not_both_ne]; [eauto|].
  destruct (decide (get_json_value o "graphid" "" = "")); [eauto|].
  destruct (decide (get_json_value o "title" "" = "")); [eauto|].
  destruct (decide (get_json_value o "description" "" = "")); [eauto|].
  destruct (decide (get_json_value o "filenamesuffix" "" = "")); [eauto|].
  exfalso. apply Hn. by repeat split.
Qed.

Lemma process_json_object_definition graphs o :
  get_json_value o "command" "" = COMMAND_DEFINITION →
  process_json_object graphs o = process_definition graphs o.
Proof.
  intros Hc. unfold process_json_object. cbv zeta.
  assert ((if decide (get_json_value o "command" "" = "")
           then COMMAND_DEFAULT else get_json_value o "command" "")
          = COMMAND_DEFINITION) as -> by (rewrite Hc; by case_decide).
  rewrite raise_if_bind.
  rewrite decide_False by (intros [_ H]; done).
  by rewrite decide_True by done.
Qed.

Lemma process_edge_valid graphs gid g o :
  edge_valid o →
  process_edge graphs gid g o
  = Ok (dict_set gid
          (add_edge (from_node_name (annotated_edge o))
                    (to_node_name (annotated_edge o))
                    (label (annotated_edge o))
                    (edge_type (annotated_edge o)) g) graphs).
Proof.
  intros (Hf & Ht & Hty). unfold process_edge. cbv zeta.
  rewrite !raise_if_bind. rewrite !decide_False by done.
  unfold annotated_edge. cbn [from_node_name to_node_name label edge_type new_Edge].
  destruct (decide (get_json_value o "edgetype" "" = "")) as [E|E]; [done|].
  destruct Hty as [?|Hty]; [done|].
  rewrite decide_False; [done|]. intros E'. rewrite E' in Hty. by destruct Hty.
Qed.

Lemma process_edge_invalid graphs gid g o :
  ¬ edge_valid o → ∃ e, process_edge graphs gid g o = Raise e.
Proof.
  intros Hn. unfold process_edge. cbv zeta. rewrite !raise_if_bind.
  destruct (decide (get_json_value o "fromnodename" "" = "")); [eauto|].
  destruct (decide (get_json_value o "tonodename" "" = "")); [eauto|].
  destruct (decide (get_json_value o "edgetype" "" = "")) as [E|E].
  { exfalso. apply Hn. repeat split; try done. by left. }
  destruct (decide (GraphVizEdgeTypes !! get_json_value o "edgetype" "" = None))
    as [E'|E']; [cbn; eauto|].
  exfalso. apply Hn. repeat split; try done. right.
  by destruct (GraphVizEdgeTypes !! get_json_value o "edgetype" "").
Qed.

Lemma process_data_edge graphs o g :
  dict_get (get_json_value o "graphid" "") graphs = Some g →
  get_json_value o "graphid" "" ≠ "" →
  get_json_value o "datatype" "" = DATATYPE_EDGE →
  process_data graphs o
  = process_edge graphs (get_json_value o "graphid" "") g o.
Proof.
  intros Hg Hid Hdt. unfold process_data. cbv zeta.
  rewrite raise_if_bind, decide_False by done. rewrite Hg, Hdt.
  rewrite !raise_if_bind. rewrite decide_False by done.
  rewrite decide_False by (intros [_ H]; done).
  rewrite decide_False by done. by rewrite decide_True by done.
Qed.

Lemma dict_get_None_keys {V} k (d : list (string * V)) :
  dict_get k d = None ↔ k ∉ dict_keys d.
Proof.
  unfold dict_keys. induction d as [|[k' v] d IH]; simpl.
  - split; [intros _; apply not_elem_of_nil|done].
  - destruct (decide (k = k')) as [->|Hne].
    + split; [done|]. intros H. exfalso. apply H. by left.
    + rewrite IH. split.
      * intros H [?|?]%elem_of_cons; done.
      * intros H Hin. apply H. by right.
Qed.

Lemma dict_keys_set_new {V} k (v : V) (d : list (string * V)) :
  dict_get k d = None → dict_keys (dict_set k v d) = dict_keys d ++ [k].
Proof.
  unfold dict_keys. induction d as [|[k' v'] d IH]; simpl; [done|].
  destruct (decide (k = k')) as [->|Hne]; [done|].
  intros H. simpl. f_equal. by apply IH.
Qed.

(** X2: a decoded annotation whose command is [definition] is accepted
    exactly when its graph type is [code] or [workflow] and its id, title,
    description and file name suffix are not empty.  It then registers a
    new graph without nodes, edges or groups under its id: a graph that was
    registered under that id is replaced in place, with all it held, a new
    id is added after the registered ones, and no other graph changes.  A
    rejected definition counts one error and changes no graph. *)
Theorem definition_annotation (decode : string → option json_object)
    (inputjson : string) (o : json_object) (st : state) :
  decode (sanitize_quotes false inputjson) = Some o →
  get_json_value o "command" "" = COMMAND_DEFINITION →
  let gid := get_json_value o "graphid" "" in
  let st' := process_json decode inputjson st in
  st' = (if decide (definition_valid o)
         then set_graphs (dict_set gid (defined_graph o) (graphs st))
                         (count_graphtag st)
         else write_error_msg (count_graphtag st))
  ∧ (definition_valid o →
     dict_get gid (graphs st') = Some (defined_graph o)
     ∧ (∀ key, key ≠ gid → dict_get key (graphs st') = dict_get key (graphs st))
     ∧ dict_keys (graphs st')
       = (if dict_get gid (graphs st) is Some _ then dict_keys (graphs st)
          else dict_keys (graphs st) ++ [gid])
     ∧ nodes (defined_graph o) = [] ∧ edges (defined_graph o) = []
     ∧ groups (defined_graph o) = []).
Proof.
  intros Hdec Hc gid st'.
  assert (Hst' : st' = (if decide (definition_valid o)
         then set_graphs (dict_set gid (defined_graph o) (graphs st))
                         (count_graphtag st)
         else write_error_msg (count_graphtag st))).
  { unfold st', process_json, process_json_try. cbn. rewrite Hdec.
    rewrite (process_json_object_definition _ _ Hc).
    destruct (decide (definition_valid o)) as [Hv|Hv].
    - by rewrite (process_definition_valid _ _ Hv).
    - by destruct (process_definition_invalid (graphs st) o Hv) as [e ->]. }
  split; [done|]. intros Hv. rewrite Hst', decide_True by done. cbn.
  split; [apply dict_get_set_eq|]. split.
  { intros key Hne. by apply dict_get_set_ne. }
  split; [|done].
  destruct (dict_get gid (graphs st)) as [g|] eqn:Eg.
  - apply dict_keys_set. by rewrite Eg.
  - by apply dict_keys_set_new.
Qed.

Lemma definition_annotation_witness :
  let st := process_lines Json.decode sample_lines initial_state in
  let st' := process_json Json.decode
               "{'command':'definition','graphtype':'workflow','graphid':'g1','title':'New','description':'D','filenamesuffix':'_n'}"
               st in
  dict_get "g1" (graphs st') = Some (new_Graph "workflow" "g1" "New" "D" "_n")
  ∧ dict_keys (graphs st') = dict_keys (graphs st).
Proof.
  intros st st'.
  destruct (definition_annotation Json.decode
    "{'command':'definition','graphtype':'workflow','graphid':'g1','title':'New','description':'D','filenamesuffix':'_n'}"
    (Some (list_to_map [("command", "definition"); ("graphtype", "workflow");
                        ("graphid", "g1"); ("title", "New");
                        ("description", "D"); ("filenamesuffix", "_n")]))
    st) as [_ H].
  - vm_compute. reflexivity.
  - vm_compute. reflexivity.
  - destruct H as (H1 & _ & H3 & H4 & _).
    + repeat split; try discriminate. by right.
    + split; [exact H1|exact H3].
Defined.

(** X3: a decoded data annotation of type [edge] for a registered graph is
    accepted exactly when its two node names are not empty and its edge
    type is absent, empty, [normal] or [transition]; whether the names are
    names of nodes of the graph is not looked at.  The edge is appended to
    the edges of the graph with empty resolved ids, its type being [normal]
    when none is given; the nodes, the groups and the name-to-id map of the
    graph stay as they were. *)
Theorem edge_annotation (decode : string → option json_object)
    (inputjson : string) (o : json_object) (st : state) (g : Graph) :
  let gid := get_json_value o "graphid" "" in
  decode (sanitize_quotes false inputjson) = Some o →
  is_data_annotation o →
  gid ≠ "" →
  dict_get gid (graphs st) = Some g →
  get_json_value o "datatype" "" = DATATYPE_EDGE →
  let e := annotated_edge o in
  let g' := add_edge (from_node_name e) (to_node_name e) (label e) (edge_type e) g in
  let st' := process_json decode inputjson st in
  st' = (if decide (edge_valid o)
         then set_graphs (dict_set gid g' (graphs st)) (count_graphtag st)
         else write_error_msg (count_graphtag st))
  ∧ edges g' = edges g ++ [e]
  ∧ unresolved e
  ∧ nodes g' = nodes g ∧ groups g' = groups g
  ∧ group_nodes g' = group_nodes g
  ∧ node_name_to_id_map g' = node_name_to_id_map g
  ∧ (get_json_value o "edgetype" "" = "" → edge_type e = EDGETYPE_DEFAULT).
Proof.
  intros gid Hdec Hd Hid Hg Hdt e g' st'.
  split; [|repeat split; try done].
  - unfold st', process_json, process_json_try. cbn. rewrite Hdec.
    rewrite (process_json_object_data _ _ Hd).
    rewrite (process_data_edge _ _ _ Hg Hid Hdt).
    destruct (decide (edge_valid o)) as [Hv|Hv].
    + by rewrite (process_edge_valid _ _ _ _ Hv).
    + by destruct (process_edge_invalid (graphs st)
                     (get_json_value o "graphid" "") g o Hv) as [x ->].
  - intros E. unfold e, annotated_edge. cbn. by rewrite decide_True.
Qed.

Lemma edge_annotation_witness :
  let st := process_lines Json.decode sample_lines initial_state in
  let st' := process_json Json.decode
               "{'graphid':'g1','datatype':'edge','fromnodename':'A','tonodename':'nowhere'}"
               st in
  (λ g, (λ e, (from_node_name e, to_node_name e, edge_type e, from_node_id e))
          <$> edges g) <$> dict_get "g1" (graphs st')
  = Some [("A", "nowhere", "normal", "")].
Proof.
  intros st st'.
  destruct (edge_annotation Json.decode
    "{'graphid':'g1','datatype':'edge','fromnodename':'A','tonodename':'nowhere'}"
    (Some (list_to_map [("graphid", "g1"); ("datatype", "edge");
                        ("fromnodename", "A"); ("tonodename", "nowhere")]))
    st (add_node "n01" "A" "function" "" (new_Graph "code" "g1" "T" "D" "_s")))
    as [H _].
  - vm_compute. reflexivity.
  - by left.
  - discriminate.
  - vm_compute. reflexivity.
  - reflexivity.
  - fold st' in H. rewrite H. reflexivity.
Defined.

(** ** The registry that the scanner builds *)

Lemma not_None_is_Some {A} (x : option A) : x ≠ None → is_Some x.
Proof. destruct x; [eauto|done]. Qed.

Lemma process_json_object_accepted graphs o graphs' :
  process_json_object graphs o = Ok graphs' → accepted_step graphs graphs'.
Proof.
  unfold process_json_object. cbv zeta.
  generalize (if decide (get_json_value o "command" "" = "")
              then COMMAND_DEFAULT else get_json_value o "command" "").
  intros command. rewrite raise_if_bind.
  destruct (decide (command ≠ COMMAND_DATA ∧ command ≠ COMMAND_DEFINITION));
    [done|].
  destruct (decide (command = COMMAND_DEFINITION)).
  - unfold process_definition. cbv zeta. rewrite !raise_if_bind.
    repeat (case_decide; [done|]). cbv [mret result_ret]; intros [= <-].
    constructor; first [done|by apply not_both_ne].
  - destruct (decide (command = COMMAND_DATA)); [|exfalso; auto].
    unfold process_data. cbv zeta. rewrite raise_if_bind. case_decide; [done|].
    destruct (dict_get _ graphs) as [g|] eqn:Eg; [|done].
    rewrite !raise_if_bind. repeat (case_decide; [done|]).
    case_decide.
    + unfold process_node. cbv zeta. rewrite !raise_if_bind.
      repeat (case_decide; [done|]). cbv [mret result_ret]; intros [= <-].
      constructor; first [done|by apply not_None_is_Some].
    + case_decide; [|done]. unfold process_edge. cbv zeta.
      rewrite !raise_if_bind. repeat (case_decide; [done|]).
      destruct (decide (get_json_value o "edgetype" "" = "")).
      * cbv [mret result_ret mbind result_bind]; intros [= <-].
        constructor; first [done|by eexists].
      * case_decide; [done|].
        cbv [mret result_ret mbind result_bind]; intros [= <-].
        constructor; first [done|by apply not_None_is_Some].
Qed.

Lemma process_line_accepted decode inputline st :
  graphs (process_line decode inputline st) = graphs st
  ∨ accepted_step (graphs st) (graphs (process_line decode inputline st)).
Proof.
  unfold process_line.
  pose proof (scan_line_graphs inputline st) as H.
  destruct (scan_line inputline st) as [st'|st' b]; simpl in H; [by left|].
  rewrite <- H. unfold assemble. case_decide; [left; by destruct b|].
  destruct (close_brace _) as [closed|]; [|by left]. cbn.
  destruct (process_json_cases decode (strip closed)
              (set_still_reading false (set_json (strip closed) st')))
    as [(o & gs' & _ & Ho & ->)| ->]; [|by left].
  right. cbn. by apply (process_json_object_accepted _ o).
Qed.

(** A property of the registry that every accepted annotation preserves
    holds in every state that the scanner reaches. *)
Lemma process_lines_accepted (P : list (string * Graph) → Prop) decode lines st :
  (∀ gs gs', P gs → accepted_step gs gs' → P gs') →
  P (graphs st) → P (graphs (process_lines decode lines st)).
Proof.
  intros Hstep. revert st. unfold process_lines.
  induction lines as [|l lines IH]; intros st HP; [done|].
  simpl. apply IH.
  destruct (process_line_accepted decode l st) as [->|H]; eauto.
Qed.

Lemma dict_keys_set_NoDup {V} k (v : V) (d : list (string * V)) :
  NoDup (dict_keys d) → NoDup (dict_keys (dict_set k v d)).
Proof.
  intros Hnd. destruct (dict_get k d) as [x|] eqn:E.
  - rewrite dict_keys_set; [done|by rewrite E].
  - rewrite dict_keys_set_new by done. apply NoDup_app.
    split; [done|]. split; [|apply NoDup_singleton].
    intros y Hy ->%list_elem_of_singleton. by apply dict_get_None_keys in E.
Qed.

Lemma add_node_fields nodeid nodename nodetype grp g :
  let g' := add_node nodeid nodename nodetype grp g in
  graph_type g' = graph_type g ∧ graph_id g' = graph_id g
  ∧ title g' = title g ∧ description g' = description g
  ∧ filename_suffix g' = filename_suffix g.
Proof. unfold add_node. by case_decide. Qed.

Lemma registry_valid_step gs gs' :
  registry_valid gs → accepted_step gs gs' → registry_valid gs'.
Proof.
  intros [Hnd Hv] Hstep.
  destruct Hstep as [gt gid t d f Hgt Hgid Ht Hd Hf
                    |gid g nodename nodetype grp Hg Hn Hty
                    |gid g a b lbl ty Hg Ha Hb Hty];
    (split; [by apply dict_keys_set_NoDup|]); intros key g' Hg';
    (destruct (decide (gid = key)) as [->|Hne];
     [rewrite dict_get_set_eq in Hg'; injection Hg' as <-
     |rewrite dict_get_set_ne in Hg' by done; by apply Hv]).
  - by split.
  - destruct (Hv _ _ Hg) as [H1 H2 H3 H4 H5 H6 H7 H8].
    destruct (add_node_fields ("n" +:+ format_02 (length (nodes g) + 1))
                nodename nodetype grp g) as (E1 & E2 & E3 & E4 & E5).
    split; rewrite ?E1, ?E2, ?E3, ?E4, ?E5; try done.
    + rewrite add_node_nodes. apply Forall_app. split; [done|].
      by repeat constructor.
    + by rewrite add_node_edges.
  - destruct (Hv _ _ Hg) as [H1 H2 H3 H4 H5 H6 H7 H8].
    split; try done. simpl. apply Forall_app. split; [done|].
    by repeat constructor.
Qed.

Lemma registry_valid_lines decode lines :
  registry_valid (graphs (process_lines decode lines initial_state)).
Proof.
  apply (process_lines_accepted registry_valid).
  - apply registry_valid_step.
  - split; [constructor|]. intros key g H. done.
Qed.

(** X4: in every state that the scanner reaches, the keys of the registry
    are distinct and not empty, and the graph under a key has that key as
    its id, the type [code] or [workflow], a title, a description and a file
    name suffix that are not empty, nodes with a name, an id and one of the
    node types, and edges with two node names and one of the edge types. *)
Theorem registry_valid_reachable (decode : string → option json_object)
    (inputlines : list string) :
  registry_valid (graphs (process_lines decode inputlines initial_state)).
Proof. apply registry_valid_lines. Qed.

(** ** The name-to-id map *)

Lemma add_node_map_of_last nodeid nodename nodetype grp g :
  map_of_last_nodes g →
  map_of_last_nodes (add_node nodeid nodename nodetype grp g).
Proof.
  intros H name. unfold named_nodes.
  rewrite add_node_map, add_node_nodes, filter_app.
  specialize (H name). unfold named_nodes in H.
  destruct (decide (nodeid ≠ "")) as [Hid|Hid].
  - destruct (decide (nodename = name)) as [->|Hne].
    + rewrite lookup_insert_eq, filter_cons_True by done.
      rewrite filter_nil. by rewrite last_snoc.
    + rewrite lookup_insert_ne by done.
      rewrite filter_cons_False by (simpl; intros [? _]; done).
      by rewrite filter_nil, app_nil_r.
  - rewrite filter_cons_False by (simpl; intros [_ ?]; done).
    by rewrite filter_nil, app_nil_r.
Qed.

Lemma apply_ops_map_of_last ops g :
  map_of_last_nodes g → map_of_last_nodes (apply_ops ops g).
Proof.
  revert g. induction ops as [|op ops IH]; intros g Hg; [done|].
  simpl. apply IH. destruct op; [by apply add_node_map_of_last|done].
Qed.

(** X5: in a graph made by [Graph.__init__] and calls of [add_node] and
    [add_edge], the name-to-id map gives for every name the id of the last
    node that was added under that name with a non-empty id, so that a name
    that is defined again maps to the later id; a name has an entry exactly
    when such a node exists. *)
Theorem name_to_id_map_last (gt gi t d f : string) (ops : list graph_op) :
  let g := apply_ops ops (new_Graph gt gi t d f) in
  (∀ name, node_name_to_id_map g !! name = node_id <$> last (named_nodes name g))
  ∧ (∀ name, is_Some (node_name_to_id_map g !! name)
             ↔ ∃ n, n ∈ nodes g ∧ node_name n = name ∧ node_id n ≠ "")
  ∧ (∀ name i, node_name_to_id_map g !! name = Some i → i ≠ "")
  ∧ (∀ nodeid nodename nodetype grp, nodeid ≠ "" →
       node_name_to_id_map (add_node nodeid nodename nodetype grp g) !! nodename
       = Some nodeid).
Proof.
  intros g.
  assert (H : map_of_last_nodes g).
  { apply apply_ops_map_of_last. intros name.
    change (node_name_to_id_map (new_Graph gt gi t d f)) with (∅ : gmap string string).
    by rewrite lookup_empty. }
  split; [exact H|]. split; [|split].
  - intros name. rewrite (H name). split.
    + intros [i Hi]. destruct (last (named_nodes name g)) as [n|] eqn:E; [|done].
      apply last_Some_elem_of in E. apply list_elem_of_filter in E as [[? ?] ?].
      by exists n.
    + intros (n & Hn & Hname & Hid).
      assert (Hin : n ∈ named_nodes name g)
        by (apply list_elem_of_filter; by repeat split).
      destruct (named_nodes name g) as [|x l] using rev_ind;
        [by apply elem_of_nil in Hin|].
      rewrite last_snoc. by eexists.
  - intros name i. rewrite (H name).
    destruct (last (named_nodes name g)) as [n|] eqn:E; [|done].
    apply last_Some_elem_of in E. apply list_elem_of_filter in E as [[? ?] ?].
    by intros [= <-].
  - intros nodeid nodename nodetype grp Hid.
    by rewrite add_node_map, decide_True, lookup_insert_eq.
Qed.

(** ** The whole file of a graph *)

Lemma write_flat_nodes_eq ns :
  write_flat_nodes ns = (node_statement indent <$> visible ns, Some ()).
Proof.
  induction ns as [|n ns IH]; [done|].
  cbn [write_flat_nodes]. rewrite IH. unfold visible.
  destruct (decide (node_id n ≠ "")) as [H|H].
  - by rewrite filter_cons_True by done.
  - by rewrite filter_cons_False by done.
Qed.

Lemma write_edges_eq es :
  write_edges es = (edge_statement <$> resolved_edges es, Some ()).
Proof.
  induction es as [|e es IH]; [done|].
  cbn [write_edges]. rewrite IH. unfold resolved_edges.
  destruct (decide (from_node_id e ≠ "" ∧ to_node_id e ≠ "")) as [H|H].
  - by rewrite filter_cons_True by done.
  - by rewrite filter_cons_False by done.
Qed.

Lemma write_group_nodes_visible g l ns :
  Forall2 (λ i n, nodes g !! i = Some n) l ns →
  write_group_nodes g l = (node_statement indent2 <$> visible ns, Some ()).
Proof.
  induction 1 as [|i n l ns Hi _ IH]; [done|].
  cbn [write_group_nodes]. rewrite Hi, IH. unfold visible.
  destruct (decide (node_id n ≠ "")) as [H|H].
  - by rewrite filter_cons_True by done.
  - by rewrite filter_cons_False by done.
Qed.

Lemma write_internal_edges_visible_next g l ns last c :
  Forall2 (λ i n, nodes g !! i = Some n) l ns →
  1 ≤ c →
  write_internal_edges g l last c
  = (internal_chain (last :: (node_id <$> visible ns)), Some ()).
Proof.
  intros H. revert last c.
  induction H as [|i n l ns Hi _ IH]; intros last c Hc; [done|].
  cbn [write_internal_edges]. rewrite Hi. unfold visible.
  destruct (decide (node_id n ≠ "")) as [H|H].
  - rewrite filter_cons_True by done. rewrite decide_False by lia.
    rewrite (IH (node_id n) (c + 1)) by lia. done.
  - rewrite filter_cons_False by done. by apply IH.
Qed.

Lemma write_internal_edges_visible g l ns :
  Forall2 (λ i n, nodes g !! i = Some n) l ns →
  write_internal_edges g l "" 0
  = (internal_chain (node_id <$> visible ns), Some ()).
Proof.
  induction 1 as [|i n l ns Hi Hl IH]; [done|].
  cbn [write_internal_edges]. rewrite Hi. unfold visible.
  destruct (decide (node_id n ≠ "")) as [H|H].
  - rewrite filter_cons_True by done. rewrite decide_True by done.
    by apply write_internal_edges_visible_next.
  - rewrite filter_cons_False by done. exact IH.
Qed.

Lemma write_cluster_visible g index name :
  groups_members g → name ∈ groups g →
  write_cluster g index name
  = (cluster_text index name (visible (group_members name g)), Some ()).
Proof.
  intros Hgm Hin.
  destruct (gm_entry _ Hgm _ Hin) as [Hname (l & Hl & _)].
  pose proof (gm_members _ Hgm _ Hname) as H2. rewrite Hl in H2. simpl in H2.
  unfold write_cluster, cluster_text. rewrite Hl.
  rewrite (write_group_nodes_visible _ _ _ H2).
  rewrite (write_internal_edges_visible _ _ _ H2).
  reflexivity.
Qed.

Lemma write_clusters_eq g index names :
  groups_members g → (∀ n, n ∈ names → n ∈ groups g) →
  write_clusters g index names = (clusters_text g index names, Some ()).
Proof.
  intros Hgm. revert index.
  induction names as [|name names IH]; intros index Hin; [done|].
  cbn [write_clusters clusters_text].
  rewrite write_cluster_visible by (by try apply Hin; try left).
  rewrite IH by (intros n Hn; apply Hin; by right).
  reflexivity.
Qed.

Lemma generate_file_text g output_path :
  groups_members g →
  generate_graph_output_graphviz g output_path
  = (file_text g output_path, Some ()).
Proof.
  intros Hgm. unfold generate_graph_output_graphviz, file_text.
  rewrite write_edges_eq.
  destruct (groups g) as [|name names] eqn:Eg.
  - rewrite decide_False by (simpl; lia). rewrite decide_True by done.
    rewrite write_flat_nodes_eq. reflexivity.
  - rewrite decide_True by (simpl; lia). rewrite decide_False by done.
    rewrite <- Eg. rewrite write_clusters_eq by done. reflexivity.
Qed.

(** X6: the renderer writes, for every graph made by [Graph.__init__] and
    calls of [add_node] and [add_edge], the file that its documentation
    describes and raises no exception: the heading, then one cluster for
    each group in first-seen order, holding the nodes of the group that have
    an id in insertion order and the invisible edges that chain them, or,
    without groups, the nodes that have an id in insertion order, then the
    edges with two resolved ids in insertion order, then the title. *)
Theorem graph_file (gt gi t d f : string) (ops : list graph_op)
    (output_path : string) :
  let g := apply_ops ops (new_Graph gt gi t d f) in
  generate_graph_output_graphviz g output_path = (file_text g output_path, Some ())
  ∧ (∀ es, generate_graph_output_graphviz (set_edges es g) output_path
           = (file_text (set_edges es g) output_path, Some ())).
Proof.
  intros g.
  assert (Hgm : groups_members g) by apply apply_ops_members, new_Graph_members.
  split; [by apply generate_file_text|].
  intros es. apply generate_file_text. by destruct Hgm.
Qed.

(** ** Edges and the names of nodes *)

Lemma map_defined_iff g name :
  map_of_last_nodes g → Forall (λ n, node_id n ≠ "") (nodes g) →
  is_Some (node_name_to_id_map g !! name) ↔ name ∈ node_names g.
Proof.
  intros Hm Hid. rewrite (Hm name). unfold node_names. split.
  - intros [i Hi]. destruct (last (named_nodes name g)) as [n|] eqn:E; [|done].
    apply last_Some_elem_of in E. apply list_elem_of_filter in E as [[<- _] Hn].
    apply list_elem_of_fmap. by exists n.
  - intros (n & -> & Hn)%list_elem_of_fmap.
    assert (Hin : n ∈ named_nodes (node_name n) g).
    { apply list_elem_of_filter. split; [|done]. split; [done|].
      rewrite Forall_forall in Hid. by apply Hid. }
    destruct (named_nodes (node_name n) g) as [|x l] using rev_ind;
      [by apply elem_of_nil in Hin|].
    rewrite last_snoc. by eexists.
Qed.

Lemma map_value_nonempty g name i :
  map_of_last_nodes g → node_name_to_id_map g !! name = Some i → i ≠ "".
Proof.
  intros Hm. rewrite (Hm name).
  destruct (last (named_nodes name g)) as [n|] eqn:E; [|done].
  apply last_Some_elem_of in E. apply list_elem_of_filter in E as [[? ?] ?].
  by intros [= <-].
Qed.

Lemma bound_id_nonempty g name :
  map_of_last_nodes g → Forall (λ n, node_id n ≠ "") (nodes g) →
  default "" (node_name_to_id_map g !! name) ≠ "" ↔ name ∈ node_names g.
Proof.
  intros Hm Hid. rewrite <- (map_defined_iff g name Hm Hid).
  destruct (node_name_to_id_map g !! name) as [i|] eqn:E; simpl.
  - split; [by eexists|]. intros _. by eapply map_value_nonempty.
  - split; [done|]. by intros [? ?].
Qed.

Lemma resolved_edges_bind g es :
  map_of_last_nodes g → Forall (λ n, node_id n ≠ "") (nodes g) →
  resolved_edges (bind_edge (node_name_to_id_map g) <$> es)
  = bind_edge (node_name_to_id_map g) <$> filter (endpoints_defined g) es.
Proof.
  intros Hm Hid. unfold resolved_edges.
  induction es as [|e es IH]; [done|]. rewrite fmap_cons.
  destruct (decide (endpoints_defined g e)) as [[H1 H2]|H].
  - rewrite filter_cons_True.
    + rewrite (filter_cons_True (endpoints_defined g)) by done.
      by rewrite fmap_cons, IH.
    + cbn. split; by apply bound_id_nonempty.
  - rewrite filter_cons_False.
    + by rewrite (filter_cons_False (endpoints_defined g)) by done.
    + cbn. intros [H1 H2]. apply H. split; by eapply bound_id_nonempty.
Qed.

Lemma missing_endpoints_undefined g e :
  map_of_last_nodes g → Forall (λ n, node_id n ≠ "") (nodes g) →
  missing_endpoints (node_name_to_id_map g) e = undefined_endpoints g e.
Proof.
  intros Hm Hid. unfold missing_endpoints, undefined_endpoints.
  pose proof (map_defined_iff g (from_node_name e) Hm Hid) as H1.
  pose proof (map_defined_iff g (to_node_name e) Hm Hid) as H2.
  f_equal.
  - destruct (node_name_to_id_map g !! from_node_name e); case_decide; try done.
    + exfalso. apply H. apply H1. by eexists.
    + apply H1 in H. by destruct H.
  - destruct (node_name_to_id_map g !! to_node_name e); case_decide; try done.
    + exfalso. apply H. apply H2. by eexists.
    + apply H2 in H. by destruct H.
Qed.

Lemma map_of_last_reachable decode lines gkey g :
  dict_get gkey (graphs (process_lines decode lines initial_state)) = Some g →
  map_of_last_nodes g.
Proof.
  intros Hg.
  destruct (registry_built_reachable decode lines _ _ Hg)
    as (gt & gi & t & d & f & ops & ->).
  apply apply_ops_map_of_last. intros name.
  change (node_name_to_id_map (new_Graph gt gi t d f)) with (∅ : gmap string string).
  by rewrite lookup_empty.
Qed.

(** X7: for every graph of a state that the scanner reaches through
    annotations that keep to the declared types, the resolver gives two
    resolved ids to exactly the edges whose two node names are names of
    nodes of the graph, and these are the edges that the renderer writes,
    in insertion order; it counts one error for every node name of an edge
    that is no name of a node, and an edge with one such name keeps the id
    of its other name. *)
Theorem edges_with_defined_endpoints (loads : string → option json_value)
    (inputlines : list string) (gkey : string) (g : Graph) :
  annotations_typed loads inputlines →
  let decode := record_decoder loads in
  dict_get gkey (graphs (process_lines decode inputlines initial_state)) = Some g →
  let m := node_name_to_id_map g in
  let g' := (resolve_edge_node_ids g).1 in
  edges g' = bind_edge m <$> edges g
  ∧ resolved_edges (edges g') = bind_edge m <$> filter (endpoints_defined g) (edges g)
  ∧ write_edges (edges g')
    = (edge_statement <$> (bind_edge m <$> filter (endpoints_defined g) (edges g)),
       Some ())
  ∧ (resolve_edge_node_ids g).2 = sum_list (undefined_endpoints g <$> edges g)
  ∧ (∀ e, e ∈ edges g →
       (from_node_id (bind_edge m e) ≠ "" ↔ from_node_name e ∈ node_names g)
       ∧ (to_node_id (bind_edge m e) ≠ "" ↔ to_node_name e ∈ node_names g)).
Proof.
  intros _ decode Hg m g'. subst m.
  pose proof (map_of_last_reachable _ _ _ _ Hg) as Hm.
  pose proof (ids_sequential_nonempty _ _ _
                (ids_sequential_reachable decode inputlines) Hg) as Hid.
  pose proof (edges_unresolved_reachable decode inputlines _ _ Hg) as Hun.
  assert (Hr : resolve_edge_node_ids g
               = (set_edges (bind_edge (node_name_to_id_map g) <$> edges g) g,
                  sum_list (missing_endpoints (node_name_to_id_map g) <$> edges g))).
  { unfold resolve_edge_node_ids.
    by rewrite (resolve_edges_unresolved _ _ Hun). }
  assert (He : edges g' = bind_edge (node_name_to_id_map g) <$> edges g)
    by (unfold g'; by rewrite Hr).
  split; [done|]. split; [rewrite He; by apply resolved_edges_bind|].
  split; [rewrite write_edges_eq, He; by rewrite resolved_edges_bind|].
  split.
  - rewrite Hr. simpl. f_equal. apply list_fmap_ext.
    intros i e _. by apply missing_endpoints_undefined.
  - intros e _. split; by apply bound_id_nonempty.
Qed.

(** ** [process_graphs] on the registry of the scanner *)

Section odict_app.
Context {V : Type}.
Implicit Types (d pre suf : list (string * V)) (k : string) (v : V).



End odict_app.












(** ** The scanner between two lines *)

Lemma match_comment_start_end line s e :
  match_comment_start COMMENT_DELIMITERS line = Some (s, e) → e = "" ∨ e = "*/".
Proof.
  unfold COMMENT_DELIMITERS. cbn [match_comment_start fst].
  repeat case_decide; intros [= <- <-]; auto.
Qed.

Lemma scan_comment_line_fields bare st :
  let st' := scan_state (scan_comment_line bare st) in
  num_errors st' = num_errors st ∧ num_warnings st' = num_warnings st
  ∧ num_graphtags st' = num_graphtags st
  ∧ still_reading_graphtag_object st' = still_reading_graphtag_object st
  ∧ multiline_comment_terminator st' = multiline_comment_terminator st
  ∧ (∀ r, scan_comment_line bare st = Returned r →
          graphtag_object_json r = graphtag_object_json st).
Proof.
  unfold scan_comment_line.
  repeat (case_decide || case_match); cbn; repeat split; try done;
    intros r [= <-]; done.
Qed.

Lemma scan_open_comment_fields bare st :
  let st' := scan_state (scan_open_comment bare st) in
  num_errors st' = num_errors st ∧ num_warnings st' = num_warnings st
  ∧ num_graphtags st' = num_graphtags st
  ∧ still_reading_graphtag_object st' = still_reading_graphtag_object st
  ∧ multiline_comment_terminator st' = multiline_comment_terminator st
  ∧ (∀ r, scan_open_comment bare st = Returned r →
          graphtag_object_json r = graphtag_object_json st).
Proof.
  unfold scan_open_comment.
  repeat (case_decide || case_match); cbn; repeat split; try done;
    intros r [= <-]; done.
Qed.

Lemma scan_line_fields inputline st :
  let st' := scan_state (scan_line inputline st) in
  num_errors st' = num_errors st ∧ num_warnings st' = num_warnings st
  ∧ num_graphtags st' = num_graphtags st
  ∧ still_reading_graphtag_object st' = still_reading_graphtag_object st
  ∧ (multiline_comment_terminator st' = multiline_comment_terminator st
     ∨ multiline_comment_terminator st' = ""
     ∨ multiline_comment_terminator st' = "*/")
  ∧ (∀ r, scan_line inputline st = Returned r →
          graphtag_object_json r = graphtag_object_json st).
Proof.
  unfold scan_line. case_decide.
  { cbn. repeat split; try done; [by left|]. by intros r [= <-]. }
  destruct (match_comment_start _ _) as [[s e]|] eqn:Em.
  - destruct (scan_comment_line_fields
                (strip (remove_first s (strip inputline))) (set_terminator e st))
      as (H1 & H2 & H3 & H4 & H5 & H6).
    repeat split; try done.
    + rewrite H5. cbn. right. by eapply match_comment_start_end.
  - destruct (multiline_comment_active st).
    + destruct (scan_open_comment_fields (strip inputline) st)
        as (H1 & H2 & H3 & H4 & H5 & H6).
      repeat split; try done. by left.
    + cbn. repeat split; try done; [by left|]. by intros r [= <-].
Qed.

Lemma process_json_fields decode inputjson st :
  let st' := process_json decode inputjson st in
  multiline_comment_active st' = multiline_comment_active st
  ∧ multiline_comment_terminator st' = multiline_comment_terminator st
  ∧ graphtag_object_json st' = graphtag_object_json st
  ∧ still_reading_graphtag_object st' = still_reading_graphtag_object st
  ∧ num_warnings st' = num_warnings st
  ∧ num_graphtags st' = num_graphtags st + 1
  ∧ (num_errors st' = num_errors st ∨ num_errors st' = num_errors st + 1).
Proof.
  cbv zeta.
  destruct (process_json_cases decode inputjson st) as [(o & gs' & _ & _ & ->)| ->];
    cbn; repeat split; auto.
Qed.

Lemma process_line_settled decode inputline st :
  scanner_settled st → scanner_settled (process_line decode inputline st).
Proof.
  intros (Hc & Hr & Ht). unfold process_line, scanner_settled.
  destruct (scan_line_fields inputline st) as (_ & _ & _ & Hs & Hterm & Hj).
  assert (Hterm' : multiline_comment_terminator (scan_state (scan_line inputline st)) = ""
                   ∨ multiline_comment_terminator (scan_state (scan_line inputline st)) = "*/").
  { destruct Hterm as [->|[?|?]]; auto. }
  destruct (scan_line inputline st) as [r|s b]; simpl in *.
  - specialize (Hj r eq_refl). rewrite Hj, Hs. done.
  - unfold assemble. destruct (decide (graphtag_object_json s = "")) as [E|E].
    + destruct b; cbn; rewrite E; done.
    + destruct (close_brace (graphtag_object_json s)) as [closed|] eqn:Ec.
      * cbn.
        destruct (process_json_fields decode (strip closed)
                    (set_still_reading false (set_json (strip closed) s)))
          as (_ & H2 & _). cbv zeta in H2.
        split; [done|]. split; [done|]. by rewrite H2.
      * cbn. done.
Qed.

(** X9: after every line, in every state that the scanner reaches from the
    initial one, the accumulator holds no closing brace that would end an
    annotation, the accumulator is empty unless an annotation is being
    read, and the recorded terminator is the empty string or the terminator
    of the block comment. *)
Theorem scanner_settled_reachable (decode : string → option json_object)
    (inputlines : list string) :
  scanner_settled (process_lines decode inputlines initial_state).
Proof.
  assert (H : ∀ st, scanner_settled st →
                    scanner_settled (process_lines decode inputlines st)).
  { unfold process_lines. induction inputlines as [|l ls IH]; intros st Hst; [done|].
    simpl. apply IH. by apply process_line_settled. }
  apply H. repeat split; [done|by left].
Qed.

(** ** The counters *)

Lemma process_line_counters decode inputline st :
  let st' := process_line decode inputline st in
  num_warnings st' = num_warnings st
  ∧ ((num_graphtags st' = num_graphtags st ∧ num_errors st' = num_errors st)
     ∨ (num_graphtags st' = num_graphtags st + 1
        ∧ (num_errors st' = num_errors st ∨ num_errors st' = num_errors st + 1))).
Proof.
  cbv zeta. unfold process_line.
  destruct (scan_line_fields inputline st) as (He & Hw & Hg & _).
  destruct (scan_line inputline st) as [r|s b]; simpl in *.
  - split; [done|]. by left.
  - unfold assemble. destruct (decide (graphtag_object_json s = "")) as [E|E].
    + destruct b; cbn; (split; [done|]); by left.
    + destruct (close_brace (graphtag_object_json s)) as [closed|] eqn:Ec.
      * cbn.
        destruct (process_json_fields decode (strip closed)
                    (set_still_reading false (set_json (strip closed) s)))
          as (_ & _ & _ & _ & H5 & H6 & H7). cbv zeta in H5, H6, H7.
        cbn in H5, H6, H7. rewrite H5, H6. split; [done|]. right.
        rewrite Hg. split; [done|]. destruct H7 as [->| ->]; rewrite He; auto.
      * cbn. split; [done|]. by left.
Qed.

(** X10: a line never changes the warning counter; it counts at most one
    tag and at most one error, and an error only together with a tag.  So
    in every state that the scanner reaches there is no warning, and there
    are at most as many errors as tags. *)
Theorem counters_per_line (decode : string → option json_object)
    (inputline : string) (inputlines : list string) (st : state) :
  let st' := process_line decode inputline st in
  let final := process_lines decode inputlines initial_state in
  num_warnings st' = num_warnings st
  ∧ num_graphtags st ≤ num_graphtags st' ≤ num_graphtags st + 1
  ∧ num_errors st ≤ num_errors st'
  ∧ num_errors st' - num_errors st ≤ num_graphtags st' - num_graphtags st
  ∧ num_warnings final = 0
  ∧ num_errors final ≤ num_graphtags final.
Proof.
  intros st' final.
  destruct (process_line_counters decode inputline st) as [Hw H].
  fold st' in Hw, H.
  split; [done|].
  split; [lia|]. split; [lia|]. split; [lia|].
  assert (Hall : ∀ s, num_warnings s = 0 → num_errors s ≤ num_graphtags s →
            num_warnings (process_lines decode inputlines s) = 0
            ∧ num_errors (process_lines decode inputlines s)
              ≤ num_graphtags (process_lines decode inputlines s)).
  { unfold process_lines. induction inputlines as [|l ls IH]; intros s H1 H2; [done|].
    simpl. destruct (process_line_counters decode l s) as [Hw' H'].
    apply IH; [by rewrite Hw'|]. lia. }
  apply Hall; simpl; lia.
Qed.

(** ** The closing brace of a payload *)

Lemma contains_char_app c a b :
  contains_char c (a +:+ b) = contains_char c a || contains_char c b.
Proof.
  induction a as [|x a IH]; [done|]. rewrite app_cons. cbn [contains_char].
  destruct (Ascii.eqb c x); [done|exact IH].
Qed.

Lemma close_brace_cons_None a p :
  close_brace (String a p) = None →
  close_brace p = None ∧ (a = "}"%char → contains_char "034" p = true).
Proof.
  cbn [close_brace].
  destruct (Ascii.eqb a "}") eqn:Ea, (contains_char "034" p) eqn:Ec; cbn; try done.
  - destruct (close_brace p); [done|]. by split.
  - destruct (close_brace p); [done|]. split; [done|].
    intros ->. by rewrite Ascii.eqb_refl in Ea.
  - destruct (close_brace p); [done|]. split; [done|].
    intros ->. by rewrite Ascii.eqb_refl in Ea.
Qed.

Lemma close_brace_found p rest :
  close_brace p = None → contains_char "034" rest = false →
  close_brace (p +:+ "}" +:+ rest) = Some (p +:+ "}").
Proof.
  intros Hp Hrest. induction p as [|a p IH].
  - rewrite !app_empty_l. change ("}" +:+ rest) with (String "}" rest).
    cbn [close_brace]. by rewrite Hrest.
  - apply close_brace_cons_None in Hp as [Hp Ha].
    change (String a p +:+ "}" +:+ rest) with (String a (p +:+ "}" +:+ rest)).
    change (String a p +:+ "}") with (String a (p +:+ "}")).
    cbn [close_brace]. rewrite (IH Hp).
    destruct (Ascii.eqb a "}") eqn:Ea; [|done].
    apply Ascii.eqb_eq in Ea. rewrite contains_char_app, (Ha Ea). done.
Qed.

Lemma close_brace_split s c :
  close_brace s = Some c →
  ∃ p rest, s = p +:+ "}" +:+ rest ∧ c = p +:+ "}"
            ∧ contains_char "034" rest = false ∧ close_brace p = None.
Proof.
  revert c. induction s as [|a s IH]; intros c; [done|].
  cbn [close_brace].
  destruct (Ascii.eqb a "}" && negb (contains_char "034" s)) eqn:E.
  - intros [= <-]. apply andb_prop in E as [->%Ascii.eqb_eq E].
    exists "", s. repeat split; try done. by destruct (contains_char "034" s).
  - destruct (close_brace s) as [c'|] eqn:Ec; [|done]. intros [= <-].
    destruct (IH c' eq_refl) as (p & rest & -> & -> & Hrest & Hp).
    exists (String a p), rest. repeat split; try done.
    cbn [close_brace]. rewrite Hp.
    destruct (Ascii.eqb a "}") eqn:Ea; [|done]. cbn in E.
    rewrite contains_char_app in E. cbn [contains_char] in E.
    change (contains_char "034" ("}" +:+ rest))
      with (contains_char "034" rest) in E.
    rewrite Hrest, orb_false_r in E.
    by destruct (contains_char "034" p).
Qed.

(** X11: the search for the end of a payload finds a closing brace exactly
    when the accumulated text is some text, a closing brace and a rest
    without double quotation mark, the brace being the first with such a
    rest; the text handed on is the text up to and including that brace,
    the rest is dropped, and searching the text handed on again finds all
    of it. *)
Theorem close_brace_characterised (s c : string) :
  (close_brace s = Some c
   ↔ ∃ p rest, s = p +:+ "}" +:+ rest ∧ c = p +:+ "}"
               ∧ contains_char "034" rest = false ∧ close_brace p = None)
  ∧ (close_brace s = Some c → close_brace c = Some c)
  ∧ (close_brace s = None ↔ ∀ p rest, s = p +:+ "}" +:+ rest →
                                       contains_char "034" rest = true).
Proof.
  split; [|split].
  - split; [apply close_brace_split|].
    intros (p & rest & -> & -> & Hrest & Hp). by apply close_brace_found.
  - intros (p & rest & -> & -> & Hrest & Hp)%close_brace_split.
    rewrite <- (app_empty_r (p +:+ "}")) at 1. rewrite app_assoc_str.
    by apply close_brace_found.
  - split.
    + intros Hn p rest ->. destruct (contains_char "034" rest) eqn:E; [done|].
      exfalso. revert Hn. generalize rest E. clear.
      induction p as [|a p IH]; intros rest E.
      * rewrite app_empty_l. change ("}" +:+ rest) with (String "}" rest).
        cbn [close_brace]. by rewrite E.
      * change (String a p +:+ "}" +:+ rest) with (String a (p +:+ "}" +:+ rest)).
        intros [H _]%close_brace_cons_None. by eapply IH.
    + intros H. destruct (close_brace s) as [c'|] eqn:E; [|done].
      apply close_brace_split in E as (p & rest & -> & _ & Hrest & _).
      rewrite (H p rest eq_refl) in Hrest. done.
Qed.

(** ** Texts with one kind of quotation mark *)

Lemma sanitize_quotes_no_double s :
  contains_char "034" s = false → sanitize_quotes false s = double_all_quotes s.
Proof.
  induction s as [|c s IH]; [done|]. cbn [contains_char sanitize_quotes double_all_quotes].
  rewrite (Ascii.eqb_sym c "034").
  destruct (Ascii.eqb "034" c) eqn:E; [done|]. intros H.
  destruct (Ascii.eqb c "'"); cbn; by rewrite IH.
Qed.

Lemma sanitize_quotes_no_single b s :
  contains_char "'" s = false → sanitize_quotes b s = s.
Proof.
  revert b. induction s as [|c s IH]; intros b; [done|].
  cbn [contains_char sanitize_quotes]. rewrite (Ascii.eqb_sym c "'").
  destruct (Ascii.eqb "'" c) eqn:E; [done|]. intros H.
  destruct (Ascii.eqb c "034"); by rewrite IH.
Qed.

Lemma double_all_quotes_no_single s : contains_char "'" (double_all_quotes s) = false.
Proof.
  induction s as [|c s IH]; [done|]. cbn [double_all_quotes contains_char].
  destruct (Ascii.eqb c "'") eqn:E; [done|].
  rewrite (Ascii.eqb_sym "'" c), E. exact IH.
Qed.

(** X12: on a text without double quotation mark the normalizer turns every
    single quotation mark into a double one, so that none is left; on a
    text without single quotation mark it changes nothing, whatever the
    flag it starts with; and it never changes a text that it has produced
    from a text without double quotation mark. *)
Theorem normalizer_one_kind_of_quote :
  (∀ s, contains_char "034" s = false →
        sanitize_quotes false s = double_all_quotes s
        ∧ contains_char "'" (sanitize_quotes false s) = false)
  ∧ (∀ b s, contains_char "'" s = false → sanitize_quotes b s = s)
  ∧ (∀ s, contains_char "034" s = false →
          sanitize_quotes false (sanitize_quotes false s) = sanitize_quotes false s).
Proof.
  split; [|split].
  - intros s Hs. rewrite (sanitize_quotes_no_double s Hs).
    split; [done|apply double_all_quotes_no_single].
  - apply sanitize_quotes_no_single.
  - intros s Hs. rewrite (sanitize_quotes_no_double s Hs).
    apply sanitize_quotes_no_single, double_all_quotes_no_single.
Qed.

(** ** The nodes, edges and groups of a graph *)

Lemma first_seen_snoc l x :
  first_seen (l ++ [x])
  = if decide (x ∈ first_seen l) then first_seen l else first_seen l ++ [x].
Proof.
  unfold first_seen. rewrite reverse_snoc. cbn [remove_dups].
  destruct (decide_rel elem_of x (reverse l)) as [Hin|Hnin].
  - rewrite decide_True; [done|].
    by apply elem_of_reverse, elem_of_remove_dups.
  - rewrite decide_False.
    + by rewrite reverse_cons.
    + intros H. apply Hnin. by apply elem_of_remove_dups, elem_of_reverse.
Qed.

Lemma add_node_groups nodeid nodename nodetype grp g :
  groups (add_node nodeid nodename nodetype grp g)
  = if decide (grp ≠ "")
    then (if decide (grp ∈ groups g) then groups g else groups g ++ [grp])
    else groups g.
Proof. unfold add_node. by case_decide. Qed.

Lemma apply_ops_structure ops g :
  groups g = first_seen (group_names (nodes g)) →
  let g' := apply_ops ops g in
  nodes g' = nodes g ++ op_nodes ops
  ∧ edges g' = edges g ++ op_edges ops
  ∧ groups g' = first_seen (group_names (nodes g')).
Proof.
  revert g. induction ops as [|op ops IH]; intros g Hg.
  - cbn. by rewrite !app_nil_r.
  - cbn [apply_ops foldl]. fold (apply_ops ops (apply_op g op)).
    destruct op as [i n t grp|a b lbl ty].
    + destruct (IH (add_node i n t grp g)) as (H1 & H2 & H3).
      * rewrite add_node_groups, add_node_nodes. unfold group_names.
        rewrite fmap_app, filter_app. cbn [fmap list_fmap group].
        destruct (decide (grp ≠ "")) as [Hgrp|Hgrp].
        -- rewrite (filter_cons_True _ grp) by done. rewrite filter_nil.
           rewrite first_seen_snoc. fold (group_names (nodes g)).
           by rewrite <- Hg.
        -- rewrite (filter_cons_False _ grp) by done.
           by rewrite filter_nil, app_nil_r.
      * cbv zeta. cbn [apply_op]. split; [|split; [|exact H3]].
        -- by rewrite H1, add_node_nodes, <- app_assoc.
        -- by rewrite H2, add_node_edges.
    + destruct (IH (add_edge a b lbl ty g)) as (H1 & H2 & H3); [done|].
      cbv zeta. cbn [apply_op]. split; [|split; [|exact H3]].
      * by rewrite H1.
      * rewrite H2. cbn. by rewrite <- app_assoc.
Qed.

(** X13: a graph made by [Graph.__init__] and calls of [add_node] and
    [add_edge] holds the nodes of the [add_node] calls in the order of the
    calls, the edges of the [add_edge] calls in the order of the calls, all
    with empty resolved ids, and as groups the distinct non-empty group
    names of its nodes in the order in which they were first seen; its
    numbers of nodes and of edges are the numbers of the calls. *)
Theorem built_graph_structure (gt gi t d f : string) (ops : list graph_op) :
  let g := apply_ops ops (new_Graph gt gi t d f) in
  nodes g = op_nodes ops
  ∧ edges g = op_edges ops
  ∧ Forall unresolved (edges g)
  ∧ groups g = first_seen (group_names (nodes g))
  ∧ get_num_nodes g = length (op_nodes ops)
  ∧ get_num_edges g = length (op_edges ops)
  ∧ graph_id g = gi ∧ title g = t ∧ filename_suffix g = f.
Proof.
  intros g.
  destruct (apply_ops_structure ops (new_Graph gt gi t d f)) as (H1 & H2 & H3);
    [done|].
  fold g in H1, H2, H3. simpl in H1, H2.
  split; [done|]. split; [done|]. split.
  { rewrite H2. unfold op_edges. clear. induction ops as [|[] ops IH]; cbn; [done..|].
    constructor; [done|exact IH]. }
  split; [done|]. unfold get_num_nodes, get_num_edges. rewrite H1, H2.
  split; [done|]. split; [done|].
  unfold g. clear.
  assert (H : ∀ g, graph_id (apply_ops ops g) = graph_id g
                   ∧ title (apply_ops ops g) = title g
                   ∧ filename_suffix (apply_ops ops g) = filename_suffix g).
  { induction ops as [|op ops IH]; intros g; [done|]. cbn [apply_ops foldl].
    fold (apply_ops ops (apply_op g op)).
    destruct (IH (apply_op g op)) as (-> & -> & ->).
    destruct op as [i n ty grp|]; [|done]. cbn [apply_op].
    destruct (add_node_fields i n ty grp g) as (_ & -> & -> & _ & ->). done. }
  apply (H (new_Graph gt gi t d f)).
Qed.

(** ** The witness of the edges with defined endpoints *)

Lemma edges_with_defined_endpoints_witness :
  let g := apply_ops [OpAddNode "n01" "A" "function" "";
                      OpAddNode "n02" "B" "class" "";
                      OpAddEdge "A" "B" "" "normal";
                      OpAddEdge "B" "Z" "calls" "normal"]
                     (new_Graph "code" "g1" "T" "D" "_s") in
  annotations_typed sample_loads sample_edge_lines
  ∧ dict_get "g1" (graphs (process_lines (record_decoder sample_loads)
                             sample_edge_lines initial_state))
    = Some g
  ∧ (resolve_edge_node_ids g).2 = sum_list (undefined_endpoints g <$> edges g).
Proof.
  intros g.
  assert (Ht : annotations_typed sample_loads sample_edge_lines)
    by (unfold annotations_typed; vm_compute handed_jsons;
        repeat constructor; vm_compute; eauto).
  assert (H : dict_get "g1"
                (graphs (process_lines (record_decoder sample_loads)
                           sample_edge_lines initial_state))
              = Some g) by (vm_compute; reflexivity).
  split; [exact Ht|]. split; [exact H|].
  exact (proj1 (proj2 (proj2 (proj2
           (edges_with_defined_endpoints sample_loads sample_edge_lines "g1" g
              Ht H))))).
Defined.

(** ** A marker line in a single-line comment *)

Lemma process_json_scanner_fields decode j a t acc r ne nw ng gs a' t' acc' r' :
  ∃ ne' ng' gs',
    process_json decode j (mkState a t acc r ne nw ng gs)
    = mkState a t acc r ne' nw ng' gs'
    ∧ process_json decode j (mkState a' t' acc' r' ne nw ng gs)
      = mkState a' t' acc' r' ne' nw ng' gs'.
Proof.
  unfold process_json. cbn.
  destruct (process_json_try decode gs j); cbn; by eexists _, _, _.
Qed.

Lemma assemble_still_reading decode f a t ne nw ng gs r r' :
  assemble decode true (mkState a t f r ne nw ng gs)
  = assemble decode true (mkState a t f r' ne nw ng gs).
Proof.
  unfold assemble. cbn. case_decide.
  - done.
  - destruct (close_brace f); [cbn|]; done.
Qed.

Lemma assemble_terminator decode b f a t t' r ne nw ng gs :
  assemble decode b (mkState a t' f r ne nw ng gs)
  = set_terminator t' (assemble decode b (mkState a t f r ne nw ng gs)).
Proof.
  unfold assemble. cbn -[process_json]. case_decide.
  - by destruct b.
  - destruct (close_brace f) as [c|]; [|done].
    change (set_still_reading false (set_json (strip c)
              (mkState a t' f r ne nw ng gs)))
      with (mkState a t' (strip c) false ne nw ng gs).
    change (set_still_reading false (set_json (strip c)
              (mkState a t f r ne nw ng gs)))
      with (mkState a t (strip c) false ne nw ng gs).
    destruct (process_json_scanner_fields decode (strip c) a t (strip c) false
                ne nw ng gs a t' (strip c) false)
      as (ne' & ng' & gs' & -> & ->).
    done.
Qed.

Lemma assemble_active decode b st :
  multiline_comment_active (assemble decode b st) = multiline_comment_active st.
Proof.
  unfold assemble. case_decide.
  - by destruct b.
  - destruct (close_brace _) as [c|]; [|done]. cbv zeta.
    cbn [multiline_comment_active set_json].
    by rewrite (proj1 (process_json_fields decode _ _)).
Qed.

(** X14: a line of a single-line comment that starts with the marker
    starts an annotation afresh: the text of an annotation that was being
    read, the flag that one is being read and the recorded terminator have
    no influence on the state after the line, so that an unfinished
    annotation is dropped without an error being counted for it. *)
Theorem marker_line_starts_afresh (decode : string → option json_object)
    (start f : string) (st : state) (acc term : string) (reading : bool) :
  start ∈ ["//"; "#"] → strip f = f →
  process_line decode (graphtag_line start f)
    (set_still_reading reading (set_json acc (set_terminator term st)))
  = process_line decode (graphtag_line start f) st.
Proof.
  intros Hs Hf. unfold process_line.
  rewrite !(scan_graphtag_line start f _ Hs Hf).
  destruct st as [a t j r ne nw ng gs]. cbn.
  apply assemble_still_reading.
Qed.

Lemma marker_line_starts_afresh_witness :
  let st := process_lines Json.decode sample_lines initial_state in
  let line := graphtag_line "//" "{'graphid':'g1','datatype':'edge','fromnodename':'A','tonodename':'B'}" in
  process_line Json.decode line
    (set_still_reading true (set_json "{'graphid':'g1'," (set_terminator "*/" st)))
  = process_line Json.decode line st.
Proof.
  intros st line.
  apply (marker_line_starts_afresh Json.decode "//"); [|reflexivity].
  by left.
Defined.

(** ** The three comment styles *)

Lemma rstrip_app_nonempty a b : rstrip b ≠ "" → rstrip (a +:+ b) = a +:+ rstrip b.
Proof.
  intros Hb. induction a as [|c a IH]; [by rewrite !app_empty_l|].
  rewrite !app_cons. cbn [rstrip]. rewrite IH.
  destruct (a +:+ rstrip b) as [|d r] eqn:E; [|done].
  destruct a; [|done]. by rewrite app_empty_l in E.
Qed.

Lemma rstrip_app_space a : rstrip a = a → rstrip (a +:+ " ") = a.
Proof.
  induction a as [|c a IH]; [done|]. intros Ha.
  rewrite app_cons. cbn [rstrip].
  cbn [rstrip] in Ha. destruct (rstrip a) as [|d r] eqn:E.
  - destruct (isspace c); [done|]. injection Ha as <-. by cbn.
  - injection Ha as Ha. rewrite IH by done. by rewrite <- Ha.
Qed.

Lemma prefix_slash_app f x :
  String.prefix "/" f = false → String.prefix "/" (" " +:+ x) = false →
  String.prefix "/" (f +:+ " " +:+ x) = false.
Proof.
  destruct f as [|c f]; [by rewrite app_empty_l|]. intros H _. revert H.
  change (String c f +:+ " " +:+ x) with (String c (f +:+ " " +:+ x)).
  cbn [String.prefix].
  destruct (ascii_dec "/" c); [|done]. by destruct f.
Qed.

Lemma prefix_terminator_app c f :
  String.prefix "*/" (String c f) = false →
  String.prefix "*/" (String c (f +:+ " */")) = false.
Proof.
  cbn [String.prefix]. destruct (ascii_dec "*" c); [|done].
  intros H. by apply (prefix_slash_app f "*/").
Qed.

Lemma find_block_end f :
  find "*/" f = None → is_Some (find "*/" (f +:+ " */")).
Proof.
  induction f as [|c f IH]; [by eexists|]. cbn [find].
  destruct (String.prefix "*/" (String c f)) eqn:E; [done|].
  destruct (find "*/" f) eqn:Ef; [done|]. intros _.
  rewrite app_cons. cbn [find]. rewrite (prefix_terminator_app _ _ E).
  destruct (IH eq_refl) as [n ->]. by eexists.
Qed.

Lemma remove_all_block_end f :
  find "*/" f = None → remove_all "*/" (f +:+ " */") = f +:+ " ".
Proof.
  unfold remove_all.
  induction f as [|c f IH]; [done|]. cbn [find].
  destruct (String.prefix "*/" (String c f)) eqn:E; [done|].
  destruct (find "*/" f) eqn:Ef; [done|]. intros _.
  rewrite !app_cons. cbn [remove_all_go]. rewrite (prefix_terminator_app _ _ E).
  by rewrite IH.
Qed.

Lemma strip_nonspace_head c f :
  strip (String c f) = String c f → isspace c = false ∧ rstrip f = f.
Proof.
  intros H. destruct (strip_fixed _ H) as [Hl Hr].
  assert (Hc : isspace c = false).
  { cbn [lstrip] in Hl. destruct (isspace c); [|done]. exfalso.
    apply (f_equal String.length) in Hl. pose proof (lstrip_length f).
    simpl in Hl. lia. }
  split; [done|]. rewrite rstrip_cons in Hr by done. by injection Hr.
Qed.

Lemma strip_block_end f :
  strip f = f → find "*/" f = None →
  is_Some (find "*/" (strip (f +:+ " */")))
  ∧ strip (remove_all "*/" (strip (f +:+ " */"))) = f.
Proof.
  intros Hf Ht. destruct f as [|c f].
  { split; [by eexists|done]. }
  destruct (strip_nonspace_head _ _ Hf) as [Hc Hr].
  rewrite app_cons, strip_cons by done.
  rewrite (rstrip_app_nonempty f " */") by done.
  change (rstrip " */") with " */".
  change (String c (f +:+ " */")) with (String c f +:+ " */").
  split; [by apply find_block_end|].
  rewrite remove_all_block_end by done.
  rewrite app_cons, strip_cons by done. by rewrite rstrip_app_space.
Qed.

Lemma scan_block_single_line f st :
  strip f = f → find "*/" f = None →
  scan_line (block_single_line f) st
  = Scanned (set_json f (set_terminator "*/" st)) true.
Proof.
  intros Hf Ht. unfold scan_line, block_single_line.
  change (f +:+ " " +:+ "*/") with (f +:+ " */").
  change ("/*" +:+ ?x) with (String "/" (String "*" x)).
  rewrite strip_cons by done. rewrite rstrip_cons by done.
  rewrite decide_False by done.
  unfold COMMENT_DELIMITERS. cbn [match_comment_start fst].
  rewrite decide_True
    by (rewrite find_zero; cbn; by destruct (rstrip _)).
  change (String "/" (String "*" ?x)) with ("/*" +:+ x).
  rewrite remove_first_prefix, strip_rstrip, strip_space_app, strip_graphtag.
  unfold scan_comment_line.
  rewrite bool_decide_eq_true_2 by (apply find_zero, prefix_app_self).
  rewrite remove_first_prefix, strip_rstrip, strip_space_app.
  cbn [multiline_comment_terminator set_terminator].
  rewrite decide_False by done.
  destruct (strip_block_end f Hf Ht) as [[n ->] ->]. done.
Qed.

(** X15: an annotation on one line is read in the same way in the three
    comment styles.  For a text without leading and trailing whitespace
    the line with the number sign gives the same state as the line with
    the two slashes; when the text holds no block comment terminator, the
    block comment that starts and ends on the line gives the same state
    except for the recorded terminator, and leaves the flag of the open
    comment as it was. *)
Theorem comment_styles_agree (decode : string → option json_object)
    (f : string) (st : state) :
  strip f = f →
  process_line decode (graphtag_line "#" f) st
  = process_line decode (graphtag_line "//" f) st
  ∧ (find "*/" f = None →
     process_line decode (block_single_line f) st
     = set_terminator "*/" (process_line decode (graphtag_line "//" f) st)
     ∧ multiline_comment_active (process_line decode (block_single_line f) st)
       = multiline_comment_active st).
Proof.
  intros Hf. unfold process_line.
  rewrite (scan_graphtag_line "#" f st) by (done || set_solver).
  rewrite (scan_graphtag_line "//" f st) by (done || set_solver).
  split; [done|]. intros Ht. rewrite (scan_block_single_line f st Hf Ht).
  destruct st as [a t j r ne nw ng gs].
  change (set_json f (set_terminator "*/" (mkState a t j r ne nw ng gs)))
    with (mkState a "*/" f r ne nw ng gs).
  change (set_json f (set_terminator "" (mkState a t j r ne nw ng gs)))
    with (mkState a "" f r ne nw ng gs).
  rewrite (assemble_terminator decode true f a "" "*/").
  split; [done|].
  cbn [multiline_comment_active set_terminator]. by rewrite assemble_active.
Qed.

Lemma comment_styles_agree_witness :
  let f := "{'graphid':'g1','datatype':'edge','fromnodename':'A','tonodename':'B'}" in
  let st := process_lines Json.decode sample_lines initial_state in
  process_line Json.decode (graphtag_line "#" f) st
  = process_line Json.decode (graphtag_line "//" f) st.
Proof.
  intros f st. apply (comment_styles_agree Json.decode f st). reflexivity.
Defined.

(** ** A single-line comment inside a block comment *)

Lemma find_empty s : find "" s = Some 0.
Proof. apply find_zero. by destruct s. Qed.

(** X16: a line of a single-line comment without marker, read while a
    block comment is open and no annotation is being read, empties the
    recorded terminator and changes nothing else; the next line that is
    not blank and starts no comment then closes the block comment and is
    dropped, whatever it holds: an annotation on it is not read. *)
Theorem single_line_comment_in_block_comment (decode : string → option json_object)
    (start f inputline : string) (st : state) :
  start ∈ ["//"; "#"] → strip f = f → String.prefix GRAPHTAG f = false →
  strip inputline ≠ "" →
  match_comment_start COMMENT_DELIMITERS (strip inputline) = None →
  multiline_comment_active st = true →
  still_reading_graphtag_object st = false →
  process_line decode (fragment_line start f) st = set_terminator "" st
  ∧ process_lines decode [fragment_line start f; inputline] st
    = set_active false (set_terminator "" st).
Proof.
  intros Hs Hf Hp Hne Hm Ha Hr.
  assert (H1 : process_line decode (fragment_line start f) st = set_terminator "" st).
  { unfold process_line. rewrite (scan_fragment_line start f st Hs Hf Hp).
    by rewrite Hr. }
  split; [exact H1|].
  change (process_lines decode [fragment_line start f; inputline] st)
    with (process_line decode inputline
            (process_line decode (fragment_line start f) st)).
  rewrite H1. unfold process_line, scan_line.
  rewrite decide_False by done. rewrite Hm.
  cbn [multiline_comment_active set_terminator]. rewrite Ha.
  unfold scan_open_comment.
  cbn [multiline_comment_terminator set_terminator]. rewrite find_empty.
  cbn [still_reading_graphtag_object set_active set_terminator].
  by rewrite Hr.
Qed.

Lemma single_line_comment_in_block_comment_witness :
  let st := set_active true (set_terminator "*/" initial_state) in
  process_lines Json.decode [fragment_line "//" "a note"; sample_star_line] st
  = set_active false (set_terminator "" st)
  ∧ graphs (process_line Json.decode sample_star_line st) ≠ [].
Proof.
  intros st. split.
  - apply (single_line_comment_in_block_comment Json.decode "//" "a note"
             sample_star_line st);
      [by left | reflexivity | reflexivity | vm_compute; discriminate
      | vm_compute; reflexivity | reflexivity | reflexivity].
  - vm_compute. discriminate.
Defined.

(** ** The nodes that a file holds *)

Lemma elem_of_first_seen (x : string) l : x ∈ first_seen l ↔ x ∈ l.
Proof. unfold first_seen. by rewrite elem_of_reverse, elem_of_remove_dups, elem_of_reverse. Qed.

Lemma elem_of_group_names name ns :
  name ∈ group_names ns ↔ name ≠ "" ∧ ∃ n, n ∈ ns ∧ group n = name.
Proof.
  unfold group_names. rewrite list_elem_of_filter, list_elem_of_fmap.
  split.
  - intros [H (n & -> & Hn)]. split; [done|]. by exists n.
  - intros [H (n & Hn & <-)]. split; [done|]. by exists n.
Qed.

Lemma concat_members_cons (ns : list Node) (n : Node) (names : list string) :
  NoDup names →
  concat ((λ name, filter (λ m, group m = name) (n :: ns)) <$> names)
  ≡ₚ (if decide (group n ∈ names) then [n] else [])
     ++ concat ((λ name, filter (λ m, group m = name) ns) <$> names).
Proof.
  induction 1 as [|name names Hnotin Hnd IH]; [done|].
  cbn [fmap list_fmap concat]. rewrite IH.
  destruct (decide (group n = name)) as [E|E].
  - rewrite filter_cons_True by done. subst name.
    destruct (decide (group n ∈ names)) as [Hin|Hin]; [done|].
    destruct (decide (group n ∈ group n :: names)) as [_|H];
      [done|exfalso; apply H; by left].
  - rewrite filter_cons_False by done.
    destruct (decide (group n ∈ names)) as [Hin|Hin];
      destruct (decide (group n ∈ name :: names)) as [Hin'|Hin'].
    + simpl. by rewrite Permutation_middle.
    + exfalso. apply Hin'. by right.
    + apply elem_of_cons in Hin' as [?|?]; done.
    + done.
Qed.

Lemma concat_members (ns : list Node) (names : list string) :
  NoDup names →
  concat ((λ name, filter (λ m, group m = name) ns) <$> names)
  ≡ₚ filter (λ m, group m ∈ names) ns.
Proof.
  intros Hnd. induction ns as [|n ns IH].
  - clear. induction names as [|x names IH]; [done|]. exact IH.
  - rewrite (concat_members_cons ns n names Hnd), IH.
    destruct (decide (group n ∈ names)).
    + by rewrite filter_cons_True by done.
    + by rewrite filter_cons_False by done.
Qed.

Lemma filter_ext_elem {A} (P Q : A → Prop) `{!∀ x, Decision (P x)}
    `{!∀ x, Decision (Q x)} (l : list A) :
  (∀ x, x ∈ l → P x ↔ Q x) → filter P l = filter Q l.
Proof.
  induction l as [|x l IH]; [done|]. intros Hpq.
  assert (Hl : filter P l = filter Q l)
    by (apply IH; intros y Hy; apply Hpq; by right).
  assert (Hx : P x ↔ Q x) by (apply Hpq; by left).
  destruct (decide (P x)) as [Hp|Hp].
  - rewrite (filter_cons_True P) by done.
    rewrite (filter_cons_True Q) by (by apply Hx). by rewrite Hl.
  - rewrite (filter_cons_False P) by done.
    rewrite (filter_cons_False Q) by (intros Hq; by apply Hp, Hx). done.
Qed.

(** X17: in the file of a graph that has a group, the node statements are
    those of the clusters: one for every node with an id and a non-empty
    group name, each node in one cluster only.  A node without group name
    belongs to no cluster, so that no statement is written for it in the
    file of a graph with groups; a graph has a group as soon as one of its
    nodes has a non-empty group name. *)
Theorem nodes_without_group_omitted (gt gi t d f : string) (ops : list graph_op) :
  let g := apply_ops ops (new_Graph gt gi t d f) in
  (groups g ≠ [] ↔ ∃ n, n ∈ nodes g ∧ group n ≠ "")
  ∧ (∀ name, name ∈ groups g →
       ∃ positions, group_nodes g !! name = Some positions
         ∧ write_group_nodes g positions
           = (node_statement indent2 <$> visible (group_members name g), Some ()))
  ∧ concat ((λ name, group_members name g) <$> groups g)
    ≡ₚ filter (λ n, group n ≠ "") (nodes g)
  ∧ (∀ n name, name ∈ groups g → group n = "" → n ∉ group_members name g).
Proof.
  intros g.
  assert (Hgm : groups_members g) by apply apply_ops_members, new_Graph_members.
  destruct (apply_ops_structure ops (new_Graph gt gi t d f)) as (_ & _ & Hg);
    [done|].
  fold g in Hg.
  assert (Hin : ∀ name, name ∈ groups g
                        ↔ name ≠ "" ∧ ∃ n, n ∈ nodes g ∧ group n = name).
  { intros name. by rewrite Hg, elem_of_first_seen, elem_of_group_names. }
  split; [|split; [|split]].
  - split.
    + destruct (groups g) as [|name names] eqn:E; [done|]. intros _.
      destruct (proj1 (Hin name)) as [Hne (n & Hn & Hgn)]; [by left|].
      exists n. split; [done|]. by rewrite Hgn.
    + intros (n & Hn & Hne) E.
      assert (H : group n ∈ groups g) by (apply Hin; split; [done|by exists n]).
      rewrite E in H. by apply elem_of_nil in H.
  - intros name Hname.
    destruct (gm_entry _ Hgm _ Hname) as [Hne (l & Hl & _)].
    exists l. split; [done|].
    pose proof (gm_members _ Hgm _ Hne) as H2. rewrite Hl in H2.
    by apply write_group_nodes_visible.
  - unfold group_members.
    rewrite (concat_members (nodes g) (groups g) (gm_nodup _ Hgm)).
    rewrite (filter_ext_elem (λ m, group m ∈ groups g) (λ n, group n ≠ "")
               (nodes g)); [done|].
    intros n Hn. rewrite Hin.
    split; [by intros [? _]|]. intros Hne. split; [done|]. by exists n.
  - intros n name Hname Hgrp [Hn _]%list_elem_of_filter.
    destruct (gm_entry _ Hgm _ Hname) as [Hne _]. apply Hne. by rewrite <- Hn.
Qed.

(** ** The ids of the nodes of a graph are distinct *)

(** X18: the number of a node can be read back from its id, and no two
    nodes of a graph that the scanner has registered share an id: the node
    at position i has the id made of the letter n and the number i + 1, and
    the format of the number loses nothing. *)
Theorem node_ids_distinct (decode : string → option json_object)
    (inputlines : list string) (gkey : string) (g : Graph) :
  dict_get gkey (graphs (process_lines decode inputlines initial_state)) = Some g →
  (∀ num, nat_of_str (format_02 num) = Some num)
  ∧ (∀ i node, nodes g !! i = Some node →
       nat_of_str (drop 1 (node_id node)) = Some (i + 1))
  ∧ NoDup (node_id <$> nodes g).
Proof.
  intros Hg.
  pose proof (ids_sequential_reachable decode inputlines) as Hseq.
  assert (Hnum : ∀ i node, nodes g !! i = Some node →
                   nat_of_str (drop 1 (node_id node)) = Some (i + 1)).
  { intros i node Hi. rewrite (Hseq _ _ _ _ Hg Hi).
    change (drop 1 ("n" +:+ ?s)) with s. apply nat_of_str_format_02. }
  split; [apply nat_of_str_format_02|]. split; [exact Hnum|].
  apply NoDup_alt. intros i j x Hi Hj.
  apply list_lookup_fmap_Some in Hi as (ni & -> & Hni).
  apply list_lookup_fmap_Some in Hj as (nj & E & Hnj).
  pose proof (Hnum _ _ Hni) as H1. pose proof (Hnum _ _ Hnj) as H2.
  rewrite E in H1. rewrite H1 in H2. injection H2. lia.
Qed.

Lemma node_ids_distinct_witness :
  let g := apply_ops [OpAddNode "n01" "A" "function" "";
                      OpAddNode "n02" "B" "class" "";
                      OpAddEdge "A" "B" "" "normal";
                      OpAddEdge "B" "Z" "calls" "normal"]
                     (new_Graph "code" "g1" "T" "D" "_s") in
  NoDup (node_id <$> nodes g).
Proof.
  intros g.
  assert (H : dict_get "g1"
                (graphs (process_lines Json.decode sample_edge_lines initial_state))
              = Some g) by (vm_compute; reflexivity).
  exact (proj2 (proj2 (node_ids_distinct Json.decode sample_edge_lines "g1" g H))).
Defined.
